(** * System monitor: sampling and resource accounting

    A shallow embedding of [Wipro/System Monitor Tool/Main.cpp]: the
    system-snapshot sampler [read_system_snapshot], the CPU and memory
    accountant [compute_cpu_mem_percent] and the refresh loop of [main],
    followed by the properties of the accounting engine; then the sampler
    on the text of the files ([split], [read_total_jiffies], the loops of
    [read_system_snapshot], [read_cmdline], [read_all_procs]), the ranking
    and the drawing, with what the code guarantees of them.

    Conventions.
    - Integers are [Z].  The program reads [/proc], so the target is LP64
      Linux: [int] has 32 bits and [long], [unsigned long] and
      [unsigned long long] have 64.  Where the source can leave the range of
      a type the wrap-around is written out ([Mach.wrap_s64] and friends).
    - [double] is IEEE 754 binary64, modelled bit for bit by the standard
      library's [spec_float] with [prec = 53] and [emax = 1024]; every
      operation rounds to nearest, ties to even.
    - [std::map<int, ProcInfo>] is a [gmap Z ProcInfo].
    - Text is [string], a character an [ascii]; the files that one scan
      can open are a [gmap string string] from path to contents.  Streams
      and conversions ([operator>>], [std::getline], [std::stoul], [atoi])
      behave as in the GNU C and C++ libraries, [g++] being the compiler
      the source names. *)

From Stdlib Require Import ZArith Lia String Ascii List Bool Reals Lra Psatz.
From Stdlib Require Import Sorting.Sorted DecimalString DecimalPos Decimal.
From Stdlib Require Import Floats.SpecFloat.
From stdpp Require Import gmap strings.

Local Open Scope Z_scope.

(** * Part I: definitions *)

(** ** Machine integers *)

Module Mach.

Definition wrap_u64 (z : Z) : Z := z mod 2 ^ 64.
Definition wrap_s64 (z : Z) : Z := (z + 2 ^ 63) mod 2 ^ 64 - 2 ^ 63.
Definition wrap_s32 (z : Z) : Z := (z + 2 ^ 31) mod 2 ^ 32 - 2 ^ 31.

Definition is_u64 (z : Z) : Prop := 0 <= z < 2 ^ 64.
Definition is_s64 (z : Z) : Prop := - 2 ^ 63 <= z < 2 ^ 63.
Definition is_s32 (z : Z) : Prop := - 2 ^ 31 <= z < 2 ^ 31.

End Mach.

(** ** Floating-point numbers and their real values *)

(** The position of a fraction [num / den] of one unit in the last place:
    zero, below the midpoint, on it, or above. *)
Definition loc_of (num den : Z) : location :=
  if num =? 0 then loc_Exact else loc_Inexact (2 * num ?= den).

Section RoundingSpec.

Variables prec emax : Z.

(** Rounding a value with integer part [mx], fractional part [num / den]
    and exponent [ex]: the exponent of the result, the number of bits
    dropped, the mantissa truncated, the part cut off as a fraction of one
    unit, and the mantissa rounded to nearest even. *)
Definition rnd_exp (mx ex : Z) : Z := fexp prec emax (Zdigits2 mx + ex).
Definition rnd_shift (mx ex : Z) : Z := rnd_exp mx ex - ex.
Definition rnd_trunc (mx ex : Z) : Z := mx / 2 ^ rnd_shift mx ex.
Definition rnd_num (mx ex num den : Z) : Z := (mx mod 2 ^ rnd_shift mx ex) * den + num.
Definition rnd_den (mx ex den : Z) : Z := 2 ^ rnd_shift mx ex * den.
Definition rnd_mant (mx ex num den : Z) : Z :=
  round_nearest_even (rnd_trunc mx ex) (loc_of (rnd_num mx ex num den) (rnd_den mx ex den)).

End RoundingSpec.

Definition bpow (e : Z) : R := powerRZ 2 e.

Definition F2R (m e : Z) : R := (IZR m * bpow e)%R.

(** The real value of a finite double; [0] for infinities and NaN, which
    [is_finite] tells apart. *)
Definition B2R (f : spec_float) : R :=
  match f with
  | S754_finite s m e => F2R (cond_Zopp s (Z.pos m)) e
  | _ => 0%R
  end.

Definition is_finite (f : spec_float) : bool :=
  match f with
  | S754_finite _ _ _ | S754_zero _ => true
  | _ => false
  end.

(** The real number with integer part [mx] and fractional part
    [num / den], scaled by [2 ^ ex]. *)
Definition exact_value (mx ex num den : Z) : R :=
  ((IZR mx + IZR num / IZR den) * bpow ex)%R.

(** Finite numbers of the format with the sign bit clear. *)
Definition nonneg_float (prec emax : Z) (f : spec_float) : bool :=
  match f with
  | S754_zero false => true
  | S754_finite false m e => bounded prec emax m e
  | _ => false
  end.

(** [r] is the rounding of the non-negative real [x]: a finite
    non-negative number of the format whose value is the mantissa of [x]
    rounded to nearest even at the exponent of [x]. *)
Definition rounds_to (prec emax : Z) (x : R) (r : spec_float) : Prop :=
  nonneg_float prec emax r = true /\
  exists mx ex num den : Z,
    0 <= mx /\ 0 <= num < den /\ ex <= rnd_exp prec emax mx ex /\
    x = exact_value mx ex num den /\
    B2R r = F2R (rnd_mant prec emax mx ex num den) (rnd_exp prec emax mx ex).

(** ** IEEE 754 binary64 *)

Module Double.

Definition prec : Z := 53.
Definition emax : Z := 1024.

(** Integer-to-double conversion, [(double) z]. *)
Definition of_Z (z : Z) : spec_float := binary_normalize prec emax z 0 false.

Definition div (x y : spec_float) : spec_float := SFdiv prec emax x y.
Definition mul (x y : spec_float) : spec_float := SFmul prec emax x y.

(** [x < y] on doubles (false as soon as one side is NaN). *)
Definition ltb (x y : spec_float) : bool := SFltb x y.

(** The literals [0.0] and [100.0]. *)
Definition zero : spec_float := S754_zero false.
Definition hundred : spec_float := S754_finite false 7036874417766400 (-46).

(** Finite, not negative: the sign bit is clear and the number is one of
    the format. *)
Definition nonneg (f : spec_float) : bool := nonneg_float prec emax f.

End Double.

(** ** Data model *)

Record ProcInfo := mkProcInfo {
  pid : Z;                      (* int *)
  user : string;
  cmd : string;
  utime : Z;                    (* unsigned long *)
  stime : Z;
  cutime : Z;
  cstime : Z;
  total_time : Z;               (* unsigned long long *)
  vsize : Z;                    (* unsigned long *)
  rss : Z;                      (* long *)
  cpu_percent : spec_float;     (* double *)
  mem_percent : spec_float;
  starttime : Z                 (* unsigned long long *)
}.

Record SystemSnapshot := mkSystemSnapshot {
  total_jiffies : Z;            (* unsigned long long *)
  mem_total_kb : Z;             (* unsigned long *)
  mem_free_kb : Z;
  mem_available_kb : Z;
  num_cpus : Z                  (* int *)
}.

Definition set_cpu_percent (v : spec_float) (p : ProcInfo) : ProcInfo :=
  mkProcInfo (pid p) (user p) (cmd p) (utime p) (stime p) (cutime p) (cstime p)
             (total_time p) (vsize p) (rss p) v (mem_percent p) (starttime p).

Definition set_mem_percent (v : spec_float) (p : ProcInfo) : ProcInfo :=
  mkProcInfo (pid p) (user p) (cmd p) (utime p) (stime p) (cutime p) (cstime p)
             (total_time p) (vsize p) (rss p) (cpu_percent p) v (starttime p).

(** The sampled fields of a record: everything but the two derived
    percentages. *)
Definition sampled_fields (p : ProcInfo) :=
  (pid p, user p, cmd p, (utime p, stime p, cutime p, cstime p),
   total_time p, vsize p, rss p, starttime p).

(** The values the field types admit. *)
Definition wf_proc (p : ProcInfo) : Prop :=
  Mach.is_s32 (pid p) /\
  Mach.is_u64 (utime p) /\ Mach.is_u64 (stime p) /\
  Mach.is_u64 (cutime p) /\ Mach.is_u64 (cstime p) /\
  Mach.is_u64 (total_time p) /\ Mach.is_u64 (vsize p) /\
  Mach.is_s64 (rss p) /\ Mach.is_u64 (starttime p).

(** The values the field types admit, with the processor count as the
    struct initialises it and the sampler sets it: at least one. *)
Definition wf_snapshot (s : SystemSnapshot) : Prop :=
  Mach.is_u64 (total_jiffies s) /\ Mach.is_u64 (mem_total_kb s) /\
  Mach.is_u64 (mem_free_kb s) /\ Mach.is_u64 (mem_available_kb s) /\
  1 <= num_cpus s < 2 ^ 31.

(** ** The system-snapshot sampler *)

(** [read_total_jiffies]: [stat_line] is the first line of [/proc/stat],
    already split into the numbers that follow the leading [cpu] token;
    [None] when the line cannot be read. *)
Definition read_total_jiffies (stat_line : option (list Z)) : Z :=
  match stat_line with
  | None => 0
  | Some vals => fold_left (fun total val => Mach.wrap_u64 (total + val)) vals 0
  end.

(** One [memf >> key >> val] step of the loop over [/proc/meminfo]. *)
Definition meminfo_step (s : SystemSnapshot) (kv : string * Z) : SystemSnapshot :=
  let '(key, val) := kv in
  if String.eqb key "MemTotal:" then
    mkSystemSnapshot (total_jiffies s) val (mem_free_kb s) (mem_available_kb s) (num_cpus s)
  else if String.eqb key "MemFree:" then
    mkSystemSnapshot (total_jiffies s) (mem_total_kb s) val (mem_available_kb s) (num_cpus s)
  else if String.eqb key "MemAvailable:" then
    mkSystemSnapshot (total_jiffies s) (mem_total_kb s) (mem_free_kb s) val (num_cpus s)
  else s.

(** The [cpus++] loop over the lines of [/proc/cpuinfo];
    [line.rfind("processor", 0) == 0] holds when the line starts with
    ["processor"]. *)
Definition count_processors (cpuinfo : list string) : Z :=
  fold_left (fun cpus line =>
               if String.prefix "processor" line then Mach.wrap_s32 (cpus + 1) else cpus)
            cpuinfo 0.

Definition read_system_snapshot
    (stat_line : option (list Z)) (meminfo : list (string * Z)) (cpuinfo : list string)
    : SystemSnapshot :=
  let s := mkSystemSnapshot 0 0 0 0 1 in
  let s := mkSystemSnapshot (read_total_jiffies stat_line)
                            (mem_total_kb s) (mem_free_kb s) (mem_available_kb s) (num_cpus s) in
  let s := fold_left meminfo_step meminfo s in
  let cpus := count_processors cpuinfo in
  mkSystemSnapshot (total_jiffies s) (mem_total_kb s) (mem_free_kb s) (mem_available_kb s)
                   (Z.max 1 cpus).

(** ** The resource accountant *)

Section Accountant.

(** [static long page_size_kb = sysconf(_SC_PAGESIZE) / 1024]. *)
Variable page_size_kb : Z.

(** [total_diff], lines 170-173. *)
Definition total_diff (cur_snap prev_snap : SystemSnapshot) : Z :=
  if total_jiffies prev_snap <=? total_jiffies cur_snap
  then total_jiffies cur_snap - total_jiffies prev_snap
  else 0.

(** The body of the [for] loop, lines 178-193, for the entry [(pid, p)]. *)
Definition account_entry (prev : gmap Z ProcInfo) (cur_snap : SystemSnapshot)
    (total_diff : Z) (pid : Z) (p : ProcInfo) : ProcInfo :=
  let p := set_cpu_percent Double.zero p in
  let p := set_mem_percent Double.zero p in
  let p :=
    match prev !! pid with
    | Some it =>
        if 0 <? total_diff then
          let prev_time := total_time it in
          let diff := if prev_time <=? total_time p then total_time p - prev_time else 0 in
          set_cpu_percent
            (Double.mul
               (Double.mul (Double.div (Double.of_Z diff) (Double.of_Z total_diff))
                           Double.hundred)
               (Double.of_Z (num_cpus cur_snap)))
            p
        else p
    | None => p
    end in
  let rss_pages := rss p in
  let rss_kb := Mach.wrap_s64 (rss_pages * page_size_kb) in
  if 0 <? mem_total_kb cur_snap then
    set_mem_percent
      (Double.mul (Double.div (Double.of_Z rss_kb) (Double.of_Z (mem_total_kb cur_snap)))
                  Double.hundred)
      p
  else p.

(** [compute_cpu_mem_percent]: the contents of [procs] after the call. *)
Definition compute_cpu_mem_percent (procs prev : gmap Z ProcInfo)
    (cur_snap prev_snap : SystemSnapshot) : gmap Z ProcInfo :=
  let total_diff := total_diff cur_snap prev_snap in
  map_imap (fun pid p => Some (account_entry prev cur_snap total_diff pid p)) procs.

(** The four objects the call receives by reference, and the call as a
    transformer of them; [procs] is the only one taken by non-const
    reference, and [main] passes four distinct objects. *)
Record Refs := mkRefs {
  r_procs : gmap Z ProcInfo;
  r_prev : gmap Z ProcInfo;
  r_cur_snap : SystemSnapshot;
  r_prev_snap : SystemSnapshot
}.

Definition call_compute_cpu_mem_percent (r : Refs) : Refs :=
  mkRefs (compute_cpu_mem_percent (r_procs r) (r_prev r) (r_cur_snap r) (r_prev_snap r))
         (r_prev r) (r_cur_snap r) (r_prev_snap r).

(** The resident size in kB as the accountant computes it, the [long]
    product of lines 190-191. *)
Definition rss_kb (p : ProcInfo) : Z := Mach.wrap_s64 (rss p * page_size_kb).

(** The two formulas in the words of the specification:
    [max(0, current - previous) / totalTickDelta * 100 * cpuCount], and
    [residentKB / totalMemoryKB * 100], or [0.0] without total memory. *)
Definition cpu_formula (cur_ticks prev_ticks tick_delta cpu_count : Z) : spec_float :=
  Double.mul
    (Double.mul (Double.div (Double.of_Z (Z.max 0 (cur_ticks - prev_ticks)))
                            (Double.of_Z tick_delta))
                Double.hundred)
    (Double.of_Z cpu_count).

Definition mem_formula (resident_kb total_memory_kb : Z) : spec_float :=
  if total_memory_kb =? 0 then Double.zero
  else Double.mul (Double.div (Double.of_Z resident_kb) (Double.of_Z total_memory_kb))
                  Double.hundred.

End Accountant.

(** ** Ranking, pagination and the refresh loop of [main] *)

(** [std::sort(first, last, comp)]: the result is ordered by [comp]; the
    library leaves open the order of entries that [comp] does not
    separate, and insertion from the right is one admissible choice. *)
Fixpoint sort_insert {A : Type} (comp : A -> A -> bool) (x : A) (l : list A) : list A :=
  match l with
  | [] => [x]
  | y :: l' => if comp y x then y :: sort_insert comp x l' else x :: y :: l'
  end.

Definition std_sort {A : Type} (comp : A -> A -> bool) (l : list A) : list A :=
  fold_right (sort_insert comp) [] l.

(** The two comparators of lines 246-252. *)
Definition by_cpu (a b : ProcInfo) : bool := Double.ltb (cpu_percent b) (cpu_percent a).
Definition by_mem (a b : ProcInfo) : bool := Double.ltb (mem_percent b) (mem_percent a).

(** [for (auto &kv : cur_procs)], line 243: a [std::map] is walked in
    ascending order of its keys. *)
Definition in_key_order (m : gmap Z ProcInfo) : list (Z * ProcInfo) :=
  std_sort (fun a b => a.1 <? b.1) (map_to_list m).

(** Lines 242-252: the accounted map flattened into [plist], in the order
    of the pids, and ranked. *)
Definition ranked (sort_by_cpu : bool) (cur_procs : gmap Z ProcInfo) : list ProcInfo :=
  let plist := (in_key_order cur_procs).*2 in
  if sort_by_cpu then std_sort by_cpu plist else std_sort by_mem plist.

(** [draw_processes]: the rows printed, [plist[start]] up to
    [plist[start + height - 1]] as far as the list reaches ([0 <= start]). *)
Definition draw_processes (plist : list ProcInfo) (start height : Z) : list ProcInfo :=
  firstn (Z.to_nat height) (skipn (Z.to_nat start) plist).

(** Key codes: [ERR], [KEY_DOWN] and [KEY_UP] have the values of
    [<ncurses.h>], the letters are ASCII. *)
Definition ERR : Z := -1.
Definition KEY_DOWN : Z := 258.
Definition KEY_UP : Z := 259.
Definition key_q : Z := 113.
Definition key_Q : Z := 81.
Definition key_s : Z := 115.
Definition key_S : Z := 83.

(** What one pass of the loop reads from its environment: the three
    [/proc] files of [read_system_snapshot], the map returned by
    [read_all_procs] and the key returned by [getch]. *)
Record Observation := mkObservation {
  obs_stat : option (list Z);
  obs_meminfo : list (string * Z);
  obs_cpuinfo : list string;
  obs_procs : gmap Z ProcInfo;
  obs_key : Z
}.

(** The variables of [main] that live across iterations. *)
Record LoopState := mkLoopState {
  prev_snap : SystemSnapshot;
  prev_procs : gmap Z ProcInfo;
  refresh_interval : Z;
  sort_by_cpu : bool;
  offset : Z
}.

(** What one iteration hands to [draw_header] and [draw_processes]. *)
Record Frame := mkFrame {
  fr_snap : SystemSnapshot;
  fr_plist : list ProcInfo;
  fr_start : Z;
  fr_height : Z
}.

Section Main.

Variable page_size_kb : Z.

(** [getmaxyx(stdscr, rows, cols)]. *)
Variable rows : Z.

(** Lines 230-235. *)
Definition main_init (obs : Observation) : LoopState :=
  mkLoopState (read_system_snapshot (obs_stat obs) (obs_meminfo obs) (obs_cpuinfo obs))
              (obs_procs obs) 2 true 0.

(** Lines 257-263: the key handler, on [sort_by_cpu] and [offset];
    [None] is [break]. *)
Definition handle_key (ch : Z) (count : nat) (sort_by_cpu : bool) (offset : Z)
    : option (bool * Z) :=
  if negb (ch =? ERR) then
    if (ch =? key_q) || (ch =? key_Q) then None
    else if (ch =? key_s) || (ch =? key_S) then Some (negb sort_by_cpu, offset)
    else if (ch =? KEY_DOWN)
            && (Mach.wrap_s32 (offset + (rows - 3)) <? Mach.wrap_s32 (Z.of_nat count))
         then Some (sort_by_cpu, Mach.wrap_s32 (offset + 1))
    else if (ch =? KEY_UP) && (0 <? offset) then Some (sort_by_cpu, Mach.wrap_s32 (offset - 1))
    else Some (sort_by_cpu, offset)
  else Some (sort_by_cpu, offset).

(** One iteration of [while (true)], lines 238-266: the frame drawn and
    the state carried to the next iteration ([None] after [break]). *)
Definition cycle (st : LoopState) (obs : Observation) : Frame * option LoopState :=
  let cur_snap := read_system_snapshot (obs_stat obs) (obs_meminfo obs) (obs_cpuinfo obs) in
  let cur_procs :=
    compute_cpu_mem_percent page_size_kb (obs_procs obs) (prev_procs st)
                            cur_snap (prev_snap st) in
  let plist := ranked (sort_by_cpu st) cur_procs in
  let frame := mkFrame cur_snap plist (offset st) (rows - 3) in
  match handle_key (obs_key obs) (length plist) (sort_by_cpu st) (offset st) with
  | None => (frame, None)
  | Some (sort_by_cpu', offset') =>
      (frame, Some (mkLoopState cur_snap cur_procs (refresh_interval st) sort_by_cpu' offset'))
  end.

(** The loop over the successive observations: the frames drawn, and the
    state with which the loop would go on ([None] once it has left). *)
Fixpoint main_loop (st : LoopState) (obss : list Observation)
    : list Frame * option LoopState :=
  match obss with
  | [] => ([], Some st)
  | obs :: obss' =>
      match cycle st obs with
      | (frame, None) => ([frame], None)
      | (frame, Some st') =>
          let '(frames, final) := main_loop st' obss' in (frame :: frames, final)
      end
  end.

Definition main (first : Observation) (obss : list Observation)
    : list Frame * option LoopState :=
  main_loop (main_init first) obss.

End Main.

(** The rows of a frame's window. *)
Definition window (f : Frame) : list ProcInfo :=
  draw_processes (fr_plist f) (fr_start f) (fr_height f).

(** The pagination bound of the specification: the offset within
    [0, max(0, count - pageSize)]. *)
Definition offset_in_bounds (f : Frame) : Prop :=
  0 <= fr_start f <= Z.max 0 (Z.of_nat (length (fr_plist f)) - fr_height f).

(** Every record is filed under its own process id, as [read_all_procs]
    does ([p.pid = pid; procs[pid] = p]). *)
Definition keyed_by_pid (procs : gmap Z ProcInfo) : Prop :=
  forall k p, procs !! k = Some p -> pid p = k.

(** ** Sample inputs *)

(** A process with the given id, tick count and resident pages, and a
    snapshot with the given tick count, total memory and processors. *)
Definition proc_with (id ticks pages : Z) : ProcInfo :=
  mkProcInfo id "" "proc" ticks 0 0 0 ticks 0 pages Double.zero Double.zero 0.

Definition snap_with (ticks mem_kb cpus : Z) : SystemSnapshot :=
  mkSystemSnapshot ticks mem_kb 0 0 cpus.

(** Processes [1 .. n], one tick and one resident page each. *)
Definition procs_upto (n : nat) : gmap Z ProcInfo :=
  list_to_map (map (fun i => (Z.of_nat i, proc_with (Z.of_nat i) 1 1)) (seq 1 n)).

(** An observation of a one-processor machine with [n] processes and the
    key [ch] pending. *)
Definition observe (ticks : Z) (n : nat) (ch : Z) : Observation :=
  mkObservation (Some [ticks]) [("MemTotal:"%string, 1000)] ["processor : 0"%string]
                (procs_upto n) ch.

(** An observation of a two-processor machine with one process, pid 7,
    that has used [proc_ticks] ticks. *)
Definition observe_proc (ticks proc_ticks ch : Z) : Observation :=
  mkObservation (Some [ticks]) [("MemTotal:"%string, 1000)]
                ["processor : 0"; "processor : 1"]%string
                {[ 7 := proc_with 7 proc_ticks 5 ]} ch.

(** The range the specification asks of the two percentages of an
    accounted process, on a machine with [cpu_count] processors. *)
Definition percent_in_range (cpu_count : Z) (p : ProcInfo) : Prop :=
  (is_finite (cpu_percent p) = true /\
   (0 <= B2R (cpu_percent p) <= 100 * IZR cpu_count)%R) /\
  (is_finite (mem_percent p) = true /\
   (0 <= B2R (mem_percent p) <= 100)%R).

(** Ranges of concrete records and snapshots. *)
Ltac solve_wf :=
  unfold wf_snapshot, wf_proc, Mach.is_u64, Mach.is_s64, Mach.is_s32; cbn; lia.

(** ** Text, streams and number conversions *)

(** [isspace] and [isdigit] in the C locale. *)
Definition isspace (c : ascii) : bool :=
  let n := N_of_ascii c in ((9 <=? n) && (n <=? 13))%N || (n =? 32)%N.

Definition isdigit (c : ascii) : bool :=
  let n := N_of_ascii c in ((48 <=? n) && (n <=? 57))%N.

Definition digit_value (c : ascii) : Z := Z.of_N (N_of_ascii c) - 48.

(** [split(s, delim)], lines 49-58: [item] is what [std::getline] has
    gathered since the last delimiter; an empty item is not pushed. *)
Fixpoint split_loop (delim : ascii) (s item : string) : list string :=
  match s with
  | EmptyString => if String.eqb item "" then [] else [item]
  | String c s' =>
      if Ascii.eqb c delim then
        if String.eqb item "" then split_loop delim s' ""
        else item :: split_loop delim s' ""
      else split_loop delim s' (item ++ String c "")
  end.

Definition split (s : string) (delim : ascii) : list string := split_loop delim s "".

(** [std::getline(in, line)] once: the text before the first newline. *)
Fixpoint until_delim (delim : ascii) (s : string) : string :=
  match s with
  | EmptyString => EmptyString
  | String c s' => if Ascii.eqb c delim then EmptyString else String c (until_delim delim s')
  end.

(** [while (std::getline(in, line))]: the lines of a text; the extraction
    fails, and the loop ends, when nothing is left. *)
Fixpoint getlines_loop (s line : string) : list string :=
  match s with
  | EmptyString => if String.eqb line "" then [] else [line]
  | String c s' =>
      if Ascii.eqb c "010" then line :: getlines_loop s' ""
      else getlines_loop s' (line ++ String c "")
  end.

Definition getlines (s : string) : list string := getlines_loop s "".

(** [s.find(c)] and [s.rfind(c)]; [None] is [npos]. *)
Fixpoint find_char (c : ascii) (s : string) : option nat :=
  match s with
  | EmptyString => None
  | String a s' => if Ascii.eqb a c then Some 0%nat else S <$> find_char c s'
  end.

Fixpoint rfind_char (c : ascii) (s : string) : option nat :=
  match s with
  | EmptyString => None
  | String a s' =>
      match rfind_char c s' with
      | Some i => Some (S i)
      | None => if Ascii.eqb a c then Some 0%nat else None
      end
  end.

Fixpoint string_drop (n : nat) (s : string) : string :=
  match n, s with
  | O, _ => s
  | S n', String _ s' => string_drop n' s'
  | S _, EmptyString => EmptyString
  end.

(** [s.substr(pos)]: [None] when it throws [std::out_of_range], that is
    when [pos > s.size()]. *)
Definition substr_from (s : string) (pos : nat) : option string :=
  if (pos <=? String.length s)%nat then Some (string_drop pos s) else None.

Fixpoint skip_space (s : string) : string :=
  match s with
  | String c s' => if isspace c then skip_space s' else s
  | EmptyString => EmptyString
  end.

(** The decimal digits at the head of [s]: their value on top of [acc],
    whether there was one, and the text after them. *)
Fixpoint read_digits (s : string) (acc : Z) (seen : bool) : Z * bool * string :=
  match s with
  | String c s' =>
      if isdigit c then read_digits s' (10 * acc + digit_value c) true else (acc, seen, s)
  | EmptyString => (acc, seen, s)
  end.

(** What [strtoul], [strtol] and the stream extractors scan in base 10:
    white space, an optional sign, digits.  The result is the sign, the
    magnitude and the text left; [None] when there is no digit. *)
Definition scan_integer (s : string) : option (bool * Z * string) :=
  let s := skip_space s in
  let '(negative, s) :=
    match s with
    | String c s' =>
        if Ascii.eqb c "-" then (true, s')
        else if Ascii.eqb c "+" then (false, s')
        else (false, s)
    | EmptyString => (false, s)
    end in
  match read_digits s 0 false with
  | (v, true, rest) => Some (negative, v, rest)
  | _ => None
  end.

Inductive conversion_error := invalid_argument | out_of_range.

(** [std::stoul] and [std::stoull]: [strtoul] negates a signed input
    modulo [2 ^ 64] and reports only a magnitude that does not fit. *)
Definition stoul (s : string) : conversion_error + Z :=
  match scan_integer s with
  | None => inl invalid_argument
  | Some (negative, v, _) =>
      if v <=? 2 ^ 64 - 1 then inr (if negative then Mach.wrap_u64 (- v) else v)
      else inl out_of_range
  end.

Definition stoull (s : string) : conversion_error + Z := stoul s.

(** [std::stol]. *)
Definition stol (s : string) : conversion_error + Z :=
  match scan_integer s with
  | None => inl invalid_argument
  | Some (negative, v, _) =>
      if negative then (if v <=? 2 ^ 63 then inr (- v) else inl out_of_range)
      else (if v <=? 2 ^ 63 - 1 then inr v else inl out_of_range)
  end.

(** [atoi], as the C library of the target computes it:
    [(int) strtol(s, NULL, 10)], where [strtol] saturates. *)
Definition atoi (s : string) : Z :=
  match scan_integer s with
  | None => 0
  | Some (negative, v, _) =>
      Mach.wrap_s32 (if negative then Z.max (- v) (- 2 ^ 63) else Z.min v (2 ^ 63 - 1))
  end.

(** [std::to_string(int)]. *)
Definition to_string (z : Z) : string := NilZero.string_of_int (Z.to_int z).

(** [in >> word] on the text left in a stream: the word and the text
    after it; [None] when the stream is exhausted. *)
Fixpoint word_of (s : string) : string * string :=
  match s with
  | String c s' =>
      if isspace c then (EmptyString, s)
      else let '(w, rest) := word_of s' in (String c w, rest)
  | EmptyString => (EmptyString, EmptyString)
  end.

Definition extract_word (s : string) : option (string * string) :=
  match word_of (skip_space s) with
  | (EmptyString, _) => None
  | (w, rest) => Some (w, rest)
  end.

(** [in >> val] for an [unsigned long] or [unsigned long long]: [None]
    when the extraction sets [failbit] (no digit, or a value that does not
    fit). *)
Definition extract_ulong (s : string) : option (Z * string) :=
  match scan_integer s with
  | None => None
  | Some (negative, v, rest) =>
      if v <=? 2 ^ 64 - 1 then Some (if negative then Mach.wrap_u64 (- v) else v, rest)
      else None
  end.

(** ** The sampler on the files of [/proc] *)

(** [while (ss >> val)], line 68: the values read until an extraction
    fails.  Every extraction consumes a character, so the length of the
    text bounds the number of rounds. *)
Fixpoint ulong_run (fuel : nat) (s : string) : list Z :=
  match fuel with
  | O => []
  | S fuel' =>
      match extract_ulong s with
      | Some (v, rest) => v :: ulong_run fuel' rest
      | None => []
      end
  end.

(** Lines 64-68 on the first line of [/proc/stat]: the [cpu] token, then
    the numbers. *)
Definition stat_values (line : string) : list Z :=
  match extract_word line with
  | None => []
  | Some (_, rest) => ulong_run (String.length rest) rest
  end.

(** [while (memf >> key >> val)], line 79: the pairs read until an
    extraction fails. *)
Fixpoint meminfo_run (fuel : nat) (s : string) : list (string * Z) :=
  match fuel with
  | O => []
  | S fuel' =>
      match extract_word s with
      | None => []
      | Some (key, rest) =>
          match extract_ulong rest with
          | None => []
          | Some (val, rest') => (key, val) :: meminfo_run fuel' rest'
          end
      end
  end.

Definition meminfo_pairs (text : string) : list (string * Z) :=
  meminfo_run (String.length text) text.

(** The files that can be opened, by path, as they are during one scan. *)
Definition read_file (fs : gmap string string) (path : string) : option string := fs !! path.

(** [read_system_snapshot] from the three files it opens; a file that
    cannot be opened reads as empty. *)
Definition read_system_snapshot_from (fs : gmap string string) : SystemSnapshot :=
  read_system_snapshot
    (match read_file fs "/proc/stat" with
     | None | Some EmptyString => None
     | Some text => Some (stat_values (until_delim "010" text))
     end)
    (match read_file fs "/proc/meminfo" with
     | None => []
     | Some text => meminfo_pairs text
     end)
    (match read_file fs "/proc/cpuinfo" with
     | None => []
     | Some text => getlines text
     end).

(** [read_cmdline], lines 96-108. *)
Definition read_cmdline (fs : gmap string string) (pid : Z) : string :=
  let s :=
    match read_file fs ("/proc/" ++ to_string pid ++ "/cmdline") with
    | Some text => until_delim "000" text
    | None => EmptyString
    end in
  if String.eqb s "" then
    match read_file fs ("/proc/" ++ to_string pid ++ "/comm") with
    | Some text => until_delim "010" text
    | None => EmptyString
    end
  else
    string_of_list_ascii
      (map (fun ch => if Ascii.eqb ch "000" then " "%char else ch) (list_ascii_of_string s)).

(** The locals of lines 136-139. *)
Record StatFields := mkStatFields {
  f_utime : Z;
  f_stime : Z;
  f_cutime : Z;
  f_cstime : Z;
  f_starttime : Z;
  f_vsize : Z;
  f_rss : Z
}.

(** Lines 140-150: the assignments run in order inside [try]; the first
    conversion that throws ends the block and [catch (...)] drops the
    exception, so the locals set before keep their values and the others
    stay zero. *)
Definition parse_stat_fields (toks : list string) : StatFields :=
  let tok (i : nat) := nth i toks EmptyString in
  if (22 <=? length toks)%nat then
    match stoul (tok 11%nat) with
    | inl _ => mkStatFields 0 0 0 0 0 0 0
    | inr utime =>
    match stoul (tok 12%nat) with
    | inl _ => mkStatFields utime 0 0 0 0 0 0
    | inr stime =>
    match stoul (tok 13%nat) with
    | inl _ => mkStatFields utime stime 0 0 0 0 0
    | inr cutime =>
    match stoul (tok 14%nat) with
    | inl _ => mkStatFields utime stime cutime 0 0 0 0
    | inr cstime =>
    match stoull (tok 19%nat) with
    | inl _ => mkStatFields utime stime cutime cstime 0 0 0
    | inr starttime =>
    match stoul (tok 20%nat) with
    | inl _ => mkStatFields utime stime cutime cstime starttime 0 0
    | inr vsize =>
    match stol (tok 21%nat) with
    | inl _ => mkStatFields utime stime cutime cstime starttime vsize 0
    | inr rss => mkStatFields utime stime cutime cstime starttime vsize rss
    end end end end end end end
  else mkStatFields 0 0 0 0 0 0 0.

(** What the body of the directory loop does with one entry: [continue],
    an exception that leaves the function, or a record stored under
    [pid]. *)
Inductive Scan :=
| Skipped
| Thrown
| Sampled (pid : Z) (p : ProcInfo).

(** Lines 116-160 for the entry named [d_name]. *)
Definition read_proc (fs : gmap string string) (d_name : string) : Scan :=
  if negb (match d_name with String c _ => isdigit c | EmptyString => false end) then Skipped
  else
    let pid := atoi d_name in
    let statp := ("/proc/" ++ to_string pid ++ "/stat")%string in
    match read_file fs statp with
    | None => Skipped
    | Some text =>
        let statline := until_delim "010" text in
        match find_char "(" statline, rfind_char ")" statline with
        | Some _, Some _ =>
            match read_file fs statp with
            | None => Skipped
            | Some text2 =>
                let full := until_delim "010" text2 in
                match rfind_char ")" full with
                | None => Skipped
                | Some rp =>
                    match substr_from full (rp + 2) with
                    | None => Thrown
                    | Some after =>
                        let toks := split after " " in
                        let f := parse_stat_fields toks in
                        Sampled pid
                          (mkProcInfo pid EmptyString (read_cmdline fs pid)
                             (f_utime f) (f_stime f) (f_cutime f) (f_cstime f)
                             (Mach.wrap_u64 (f_utime f + f_stime f + f_cutime f + f_cstime f))
                             (f_vsize f) (f_rss f) Double.zero Double.zero (f_starttime f))
                    end
                end
            end
        | _, _ => Skipped
        end
    end.

(** The [while ((de = readdir(d)))] loop over the names of the
    directory; [None] when an exception leaves it. *)
Fixpoint read_procs_loop (fs : gmap string string) (names : list string)
    (procs : gmap Z ProcInfo) : option (gmap Z ProcInfo) :=
  match names with
  | [] => Some procs
  | d_name :: rest =>
      match read_proc fs d_name with
      | Skipped => read_procs_loop fs rest procs
      | Thrown => None
      | Sampled pid p => read_procs_loop fs rest (<[pid := p]> procs)
      end
  end.

(** [read_all_procs], lines 110-164: [proc_dir] is the listing of [/proc],
    [None] when [opendir] fails. *)
Definition read_all_procs (fs : gmap string string) (proc_dir : option (list string))
    : option (gmap Z ProcInfo) :=
  match proc_dir with
  | None => Some ∅
  | Some names => read_procs_loop fs names ∅
  end.

(** ** Predicates on text, and sample files *)

(** A character at which the scan of a number stops. *)
Definition stops_digits (rest : string) : Prop :=
  match rest with
  | String c _ => isdigit c = false
  | EmptyString => True
  end.

(** A field of a stat line as the kernel writes it: not empty, without
    blank, closing parenthesis or newline. *)
Definition stat_token (t : string) : Prop :=
  t <> EmptyString /\
  Forall (fun c => c <> " "%char /\ c <> ")"%char /\ c <> "010"%char) (list_ascii_of_string t).

(** What the sampler guarantees of the record it files under [k]. *)
Definition sampled_record (k : Z) (p : ProcInfo) : Prop :=
  pid p = k /\ wf_proc p /\
  total_time p = Mach.wrap_u64 (utime p + stime p + cutime p + cstime p) /\
  user p = EmptyString /\
  cpu_percent p = Double.zero /\ mem_percent p = Double.zero.

(** The numbers of the first line of [/proc/stat] as the kernel prints
    them: each one after a blank. *)
Fixpoint cpu_fields (vals : list Z) : string :=
  match vals with
  | [] => EmptyString
  | v :: vals' => (" " ++ to_string v ++ cpu_fields vals')%string
  end.

(** The fields after the command name in a stat line, and the text of the
    line before the last closing parenthesis. *)
Definition sample_toks : list string :=
  ["S"; "1"; "1234"; "1234"; "0"; "-1"; "4194304"; "100"; "0"; "0"; "0";
   "17"; "5"; "2"; "1"; "20"; "0"; "1"; "0"; "9999"; "1000000"; "250";
   "18446744073709551615"; "1"; "1"; "0"; "0"; "0"; "0"; "0"; "0"; "0"; "0"; "0"; "0";
   "17"; "3"; "0"; "0"; "0"; "0"; "0"]%string.

Definition sample_pre : string := "1234 (my (odd) proc".

Definition sample_stat : string :=
  (sample_pre ++ ") " ++ String.concat " " sample_toks ++ String "010" "")%string.

(** The files of a machine with two processors and one process. *)
Definition sample_fs : gmap string string :=
  {[ "/proc/1234/stat"%string := sample_stat;
     "/proc/1234/cmdline"%string :=
       ("/usr/bin/my" ++ String "000" ("--flag" ++ String "000" ""))%string;
     "/proc/stat"%string :=
       ("cpu" ++ cpu_fields [100; 20; 30; 4000; 5; 0; 6; 0; 0; 0]
              ++ String "010" "cpu0 1 2 3")%string;
     "/proc/meminfo"%string :=
       ("MemTotal:" ++ " " ++ to_string 16307484 ++ " " ++ "kB"
          ++ String "010" ("MemFree:  123 kB" ++ String "010" ""))%string;
     "/proc/cpuinfo"%string :=
       ("processor	: 0" ++ String "010" ("model name : x" ++ String "010"
          (String "010" ("processor	: 1" ++ String "010" ""))))%string ]}.

(** The record the sampler makes of the process of [sample_fs], and the
    listing of its [/proc]. *)
Definition sample_proc : ProcInfo :=
  mkProcInfo 1234 EmptyString "/usr/bin/my" 17 5 2 1 25 1000000 250
             Double.zero Double.zero 9999.

Definition sample_dir : list string := ["."; ".."; "1234"; "self"; "77"]%string.

(** The same machine one sample earlier: the process had used ten ticks
    less of user time, the processors twenty ticks less. *)
Definition sample_fs_before : gmap string string :=
  <[ "/proc/1234/stat"%string :=
       (sample_pre ++ ") " ++ String.concat " " (<[ 11%nat := "7"%string ]> sample_toks)
                   ++ String "010" "")%string ]>
    (<[ "/proc/stat"%string :=
          ("cpu" ++ cpu_fields [100; 20; 30; 3980; 5; 0; 6; 0; 0; 0]
                 ++ String "010" "cpu0 1 2 3")%string ]> sample_fs).

Definition sample_proc_before : ProcInfo :=
  mkProcInfo 1234 EmptyString "/usr/bin/my" 7 5 2 1 15 1000000 250
             Double.zero Double.zero 9999.

(** White space between the fields of a line, and a word of a stream. *)
Definition blanks (s : string) : Prop :=
  Forall (fun c => c = " "%char) (list_ascii_of_string s).

Definition word (w : string) : Prop :=
  w <> EmptyString /\ Forall (fun c => isspace c = false) (list_ascii_of_string w).

(** The sum of the numbers of a line. *)
Definition sum_values (vals : list Z) : Z := fold_right Z.add 0 vals.

(** White space that separates two items of a stream. *)
Definition white (s : string) : Prop :=
  s <> EmptyString /\ Forall (fun c => isspace c = true) (list_ascii_of_string s).

(** The percentage a ranking goes by, and the order it promises: no
    record comes before one with a greater percentage. *)
Definition rank_key (sort_by_cpu : bool) (p : ProcInfo) : spec_float :=
  if sort_by_cpu then cpu_percent p else mem_percent p.

Definition not_below (sort_by_cpu : bool) (a b : ProcInfo) : Prop :=
  Double.ltb (rank_key sort_by_cpu a) (rank_key sort_by_cpu b) = false.

(** The keys that leave the loop. *)
Definition quit_key (ch : Z) : bool := (ch =? key_q) || (ch =? key_Q).

(** A text made of the given lines, each one ended by a newline. *)
Definition unlines (lines : list string) : string :=
  fold_right (fun line text => (line ++ String "010" text)%string) EmptyString lines.

(** * Part II: rounding to nearest even, as [spec_float] computes it *)

(** ** Binary digits *)

Lemma digits2_pos_bounds (p : positive) :
  2 ^ (Z.pos (digits2_pos p) - 1) <= Z.pos p < 2 ^ Z.pos (digits2_pos p).
Proof.
  induction p as [p IH | p IH |]; cbn [digits2_pos].
  - rewrite Pos2Z.inj_succ, (Pos2Z.inj_xI p).
    replace (Z.succ (Z.pos (digits2_pos p)) - 1) with (Z.succ (Z.pos (digits2_pos p) - 1)) by lia.
    rewrite !Z.pow_succ_r by lia. lia.
  - rewrite Pos2Z.inj_succ, (Pos2Z.inj_xO p).
    replace (Z.succ (Z.pos (digits2_pos p)) - 1) with (Z.succ (Z.pos (digits2_pos p) - 1)) by lia.
    rewrite !Z.pow_succ_r by lia. lia.
  - cbn. lia.
Qed.

Lemma Zdigits2_log2 (m : Z) : 0 < m -> Zdigits2 m = Z.log2 m + 1.
Proof.
  destruct m as [|p|p]; try lia. intros _. cbn [Zdigits2].
  pose proof (digits2_pos_bounds p) as [H1 H2].
  symmetry. f_equal. enough (Z.log2 (Z.pos p) = Z.pos (digits2_pos p) - 1) by lia.
  apply Z.log2_unique; [lia|].
  replace (Z.succ (Z.pos (digits2_pos p) - 1)) with (Z.pos (digits2_pos p)) by lia. lia.
Qed.

Lemma Zdigits2_bounds (m : Z) : 0 < m -> 2 ^ (Zdigits2 m - 1) <= m < 2 ^ Zdigits2 m.
Proof.
  destruct m as [|p|p]; try lia. intros _. apply digits2_pos_bounds.
Qed.

Lemma Zdigits2_nonneg (m : Z) : 0 <= Zdigits2 m.
Proof. destruct m; cbn; lia. Qed.

Lemma Zdigits2_unique (m d : Z) : 2 ^ (d - 1) <= m < 2 ^ d -> 0 < m -> Zdigits2 m = d.
Proof.
  intros [H1 H2] Hm. rewrite Zdigits2_log2 by lia.
  assert (0 < d).
  { destruct (Z_lt_le_dec 0 d); [lia|]. 
    assert (2 ^ d <= 2 ^ 0) by (apply Z.pow_le_mono_r; lia). 
    destruct (Z.eq_dec d 0) as [->|]; [cbn in *; lia|].
    rewrite Z.pow_neg_r in H2; lia. }
  enough (Z.log2 m = d - 1) by lia. apply Z.log2_unique; [lia|].
  replace (Z.succ (d - 1)) with d by lia. lia.
Qed.

(** ** Shifting a mantissa to the right *)

(** One step of [shr_1] halves a non-negative mantissa, keeps the bit
    that falls off as the round bit and folds the old round bit into the
    sticky bit. *)
Lemma shr_1_nonneg (m : Z) (r s : bool) :
  0 <= m ->
  shr_1 (Build_shr_record m r s) = Build_shr_record (m / 2) (negb (m mod 2 =? 0)) (r || s).
Proof.
  intros Hm. unfold shr_1.
  destruct m as [|[p|p|]|]; try lia; try reflexivity.
  - rewrite (Pos2Z.inj_xI p).
    replace ((2 * Z.pos p + 1) mod 2) with 1 by (Z.div_mod_to_equations; lia).
    replace ((2 * Z.pos p + 1) / 2) with (Z.pos p) by (Z.div_mod_to_equations; lia).
    reflexivity.
  - rewrite (Pos2Z.inj_xO p).
    replace ((2 * Z.pos p) mod 2) with 0 by (Z.div_mod_to_equations; lia).
    replace ((2 * Z.pos p) / 2) with (Z.pos p) by (Z.div_mod_to_equations; lia).
    reflexivity.
Qed.

Lemma shr_record_of_loc_eta (m : Z) (l : location) :
  shr_record_of_loc m l =
  Build_shr_record m (match l with loc_Inexact (Eq | Gt) => true | _ => false end)
                     (match l with loc_Inexact (Lt | Gt) => true | _ => false end).
Proof. destruct l as [|[]]; reflexivity. Qed.

(** In terms of the fraction cut off: halving [m + num / den] leaves
    [m / 2] and the fraction [((m mod 2) * den + num) / (2 * den)]. *)
Lemma shr_1_loc (m num den : Z) :
  0 <= m -> 0 <= num < den ->
  shr_1 (shr_record_of_loc m (loc_of num den)) =
  shr_record_of_loc (m / 2) (loc_of ((m mod 2) * den + num) (2 * den)).
Proof.
  intros Hm Hn.
  pose proof (Z.mod_pos_bound m 2 ltac:(lia)) as Hb.
  rewrite (shr_record_of_loc_eta m), shr_1_nonneg by lia.
  unfold loc_of.
  assert (m mod 2 = 0 \/ m mod 2 = 1) as [E|E] by lia; rewrite E; cbn [Z.eqb negb];
    destruct (Z.eqb_spec num 0) as [->|Hnum].
  - reflexivity.
  - replace (0 * den + num =? 0) with false by lia.
    replace (2 * (0 * den + num) ?= 2 * den) with Lt by (symmetry; apply Z.compare_lt_iff; lia).
    destruct (2 * num ?= den); reflexivity.
  - replace (1 * den + 0 =? 0) with false by lia.
    replace (2 * (1 * den + 0) ?= 2 * den) with Eq by (symmetry; apply Z.compare_eq_iff; lia).
    reflexivity.
  - replace (1 * den + num =? 0) with false by lia.
    replace (2 * (1 * den + num) ?= 2 * den) with Gt by (symmetry; apply Z.compare_gt_iff; lia).
    destruct (2 * num ?= den); reflexivity.
Qed.

(** [p] steps divide by [2 ^ p]. *)
Lemma iter_pos_shr_1 (p : positive) : forall m num den,
  0 <= m -> 0 <= num < den ->
  SpecFloat.iter_pos shr_1 p (shr_record_of_loc m (loc_of num den)) =
  shr_record_of_loc (m / 2 ^ Z.pos p)
                    (loc_of ((m mod 2 ^ Z.pos p) * den + num) (2 ^ Z.pos p * den)).
Proof.
  assert (Hstep : forall q m num den, 0 < q -> 0 <= m -> 0 <= num < den ->
            0 <= m / q /\ 0 <= (m mod q) * den + num < q * den).
  { intros q m num den Hq Hm Hn. pose proof (Z.mod_pos_bound m q Hq).
    split; [apply Z.div_pos; lia | nia]. }
  induction p as [p IH | p IH |]; intros m num den Hm Hn; cbn [SpecFloat.iter_pos].
  - assert (Hq : 0 < 2 ^ Z.pos p) by (apply Z.pow_pos_nonneg; lia).
    rewrite shr_1_loc by assumption.
    destruct (Hstep 2 m num den ltac:(lia) Hm Hn) as [H1 H2].
    rewrite IH by assumption.
    destruct (Hstep (2 ^ Z.pos p) (m / 2) _ _ Hq H1 H2) as [H3 H4].
    rewrite IH by assumption.
    rewrite (Pos2Z.inj_xI p).
    assert (E : 2 ^ (2 * Z.pos p + 1) = 2 * (2 ^ Z.pos p * 2 ^ Z.pos p)).
    { replace (2 * Z.pos p + 1) with (Z.pos p + Z.pos p + 1) by lia.
      rewrite !Z.pow_add_r, Z.pow_1_r by lia. lia. }
    rewrite E.
    rewrite !Z.div_div by lia.
    rewrite (Z.rem_mul_r m 2 (2 ^ Z.pos p * 2 ^ Z.pos p)) by lia.
    rewrite (Z.rem_mul_r (m / 2) (2 ^ Z.pos p) (2 ^ Z.pos p)) by lia.
    do 2 f_equal; [|lia]. rewrite <- (Z.div_div m 2 (2 ^ Z.pos p)) by lia. ring.
  - assert (Hq : 0 < 2 ^ Z.pos p) by (apply Z.pow_pos_nonneg; lia).
    rewrite IH by assumption.
    destruct (Hstep (2 ^ Z.pos p) m _ _ Hq Hm Hn) as [H3 H4].
    rewrite IH by assumption.
    rewrite (Pos2Z.inj_xO p).
    assert (E : 2 ^ (2 * Z.pos p) = 2 ^ Z.pos p * 2 ^ Z.pos p).
    { replace (2 * Z.pos p) with (Z.pos p + Z.pos p) by lia.
      rewrite !Z.pow_add_r by lia. lia. }
    rewrite E.
    rewrite !Z.div_div by lia.
    rewrite (Z.rem_mul_r m (2 ^ Z.pos p) (2 ^ Z.pos p)) by lia.
    do 2 f_equal; [|lia]. ring.
  - rewrite shr_1_loc by assumption. reflexivity.
Qed.

Lemma shr_m_of_loc m l : shr_m (shr_record_of_loc m l) = m.
Proof. destruct l as [|[]]; reflexivity. Qed.

Lemma loc_of_shr_record_of_loc m l : loc_of_shr_record (shr_record_of_loc m l) = l.
Proof. destruct l as [|[]]; reflexivity. Qed.

Lemma round_nearest_even_range m l :
  m <= round_nearest_even m l <= m + 1.
Proof. unfold round_nearest_even. destruct l as [|[]]; try destruct (Z.even m); lia. Qed.

(** ** Powers of two and values *)

Lemma bpow_pos e : (0 < bpow e)%R.
Proof. apply powerRZ_lt. lra. Qed.

Lemma bpow_add a b : bpow (a + b) = (bpow a * bpow b)%R.
Proof. apply powerRZ_add. lra. Qed.

Lemma bpow_IZR n : 0 <= n -> bpow n = IZR (2 ^ n).
Proof.
  intros Hn. unfold bpow. rewrite <- (Z2Nat.id n Hn) at 1.
  rewrite <- pow_powerRZ. rewrite pow_IZR, Z2Nat.id by exact Hn. reflexivity.
Qed.

Lemma bpow_le a b : a <= b -> (bpow a <= bpow b)%R.
Proof.
  intros H. replace b with (a + (b - a)) by lia. rewrite bpow_add, (bpow_IZR (b - a)) by lia.
  pose proof (bpow_pos a).
  assert (1 <= IZR (2 ^ (b - a)))%R.
  { apply IZR_le. pose proof (Z.pow_pos_nonneg 2 (b - a)). lia. }
  nra.
Qed.

Lemma F2R_shift m e n : 0 <= n -> F2R (m * 2 ^ n) e = F2R m (e + n).
Proof.
  intros Hn. unfold F2R. rewrite mult_IZR, bpow_add, (bpow_IZR n) by lia. lra.
Qed.

Lemma F2R_le m1 m2 e : m1 <= m2 -> (F2R m1 e <= F2R m2 e)%R.
Proof. intros H%IZR_le. unfold F2R. pose proof (bpow_pos e). nra. Qed.

Lemma F2R_lt_inv m1 m2 e : (F2R m1 e < F2R m2 e)%R -> m1 < m2.
Proof.
  unfold F2R. intros H. pose proof (bpow_pos e). apply lt_IZR. nra.
Qed.

Lemma F2R_le_inv m1 m2 e : (F2R m1 e <= F2R m2 e)%R -> m1 <= m2.
Proof.
  unfold F2R. intros H. pose proof (bpow_pos e). apply le_IZR. nra.
Qed.

(** The location that the division computes from a remainder is the
    position of the fraction [k / n]. *)
Lemma new_location_loc_of (n k : Z) : 0 < n -> 0 <= k < n -> new_location n k = loc_of k n.
Proof.
  intros Hn Hk. unfold new_location, new_location_even, new_location_odd, loc_of.
  destruct (Z.even n) eqn:Ev; [reflexivity|].
  destruct (Z.eqb_spec k 0); [reflexivity|]. f_equal.
  assert (Hodd : Z.odd n = true) by (rewrite <- Z.negb_even, Ev; reflexivity).
  apply Z.odd_spec in Hodd. destruct Hodd as [h Hh].
  destruct (Z.compare_spec (2 * k + 1) n), (Z.compare_spec (2 * k) n); try reflexivity; lia.
Qed.

Lemma Pos_iter_xO (m d : positive) : Z.pos (Pos.iter xO m d) = Z.pos m * 2 ^ Z.pos d.
Proof.
  induction d as [|d IH] using Pos.peano_ind.
  - cbn [Pos.iter]. rewrite (Pos2Z.inj_xO m). lia.
  - rewrite Pos.iter_succ, (Pos2Z.inj_xO (Pos.iter xO m d)), IH, Pos2Z.inj_succ, Z.pow_succ_r by lia.
    lia.
Qed.

Lemma Zdigits2_mul_pow2 (m d : Z) : 0 < m -> 0 <= d -> Zdigits2 (m * 2 ^ d) = Zdigits2 m + d.
Proof.
  intros Hm Hd. assert (0 < 2 ^ d) by (apply Z.pow_pos_nonneg; lia).
  rewrite !Zdigits2_log2 by nia. rewrite Z.log2_mul_pow2 by lia. lia.
Qed.

Lemma Zdigits2_le (a b : Z) : 0 <= a <= b -> Zdigits2 a <= Zdigits2 b.
Proof.
  intros [Ha Hab]. destruct (Z.eq_dec a 0) as [->|]; [apply Zdigits2_nonneg|].
  rewrite !Zdigits2_log2 by lia. pose proof (Z.log2_le_mono a b Hab). lia.
Qed.

Section Format.

Variables prec emax : Z.
Hypothesis Hprec : 0 < prec.
Hypothesis Hemax : prec < emax.

Local Set Default Proof Using "Hprec Hemax".

Local Abbreviation fexp := (SpecFloat.fexp prec emax).
Local Abbreviation emin := (SpecFloat.emin prec emax).
Local Abbreviation rexp := (rnd_exp prec emax).
Local Abbreviation rshift := (rnd_shift prec emax).
Local Abbreviation rtrunc := (rnd_trunc prec emax).
Local Abbreviation rnum := (rnd_num prec emax).
Local Abbreviation rden := (rnd_den prec emax).
Local Abbreviation rmant := (rnd_mant prec emax).

Lemma shr_fexp_loc mx ex num den :
  0 <= mx -> 0 <= num < den -> ex <= rexp mx ex ->
  shr_fexp prec emax mx ex (loc_of num den) =
  (shr_record_of_loc (rtrunc mx ex)
                     (loc_of (rnum mx ex num den) (rden mx ex den)),
   rexp mx ex).
Proof.
  intros Hm Hn He. unfold shr_fexp, shr, rnd_trunc, rnd_num, rnd_den, rnd_shift.
  fold (rexp mx ex).
  destruct (rexp mx ex - ex) as [|p|p] eqn:E; try lia.
  - rewrite Z.pow_0_r, Z.div_1_r, Z.mod_1_r. f_equal; [|lia].
    do 2 f_equal; lia.
  - rewrite iter_pos_shr_1 by assumption. f_equal. lia.
Qed.

Lemma rnd_exp_ge_emin mx ex : emin <= rexp mx ex.
Proof. unfold rnd_exp, SpecFloat.fexp. lia. Qed.

Lemma rnd_trunc_bounds mx ex :
  0 <= mx -> ex <= rexp mx ex -> 0 <= rtrunc mx ex < 2 ^ prec.
Proof.
  intros Hm He. unfold rnd_trunc, rnd_shift.
  assert (Hq : 0 < 2 ^ (rexp mx ex - ex)) by (apply Z.pow_pos_nonneg; lia).
  split; [apply Z.div_pos; lia|].
  apply Z.div_lt_upper_bound; [lia|].
  rewrite <- Z.pow_add_r by lia.
  destruct (Z.eq_dec mx 0) as [->|Hne].
  - apply Z.pow_pos_nonneg; lia.
  - pose proof (Zdigits2_bounds mx ltac:(lia)) as [_ Hd].
    eapply Z.lt_le_trans; [exact Hd|].
    apply Z.pow_le_mono_r; [lia|]. unfold rnd_exp, SpecFloat.fexp. lia.
Qed.

Lemma rnd_trunc_normal mx ex :
  0 <= mx -> ex <= rexp mx ex -> emin < rexp mx ex ->
  2 ^ (prec - 1) <= rtrunc mx ex.
Proof.
  intros Hm He Hn. unfold rnd_trunc, rnd_shift.
  assert (Hq : 0 < 2 ^ (rexp mx ex - ex)) by (apply Z.pow_pos_nonneg; lia).
  assert (Hexp : rexp mx ex = Zdigits2 mx + ex - prec)
    by (revert Hn; unfold rnd_exp, SpecFloat.fexp; lia).
  assert (Hpos : 0 < mx).
  { destruct (Z.eq_dec mx 0) as [->|]; [|lia]. cbn in Hexp. lia. }
  apply Z.div_le_lower_bound; [lia|].
  rewrite <- Z.pow_add_r by lia.
  pose proof (Zdigits2_bounds mx Hpos) as [Hd _].
  replace (rexp mx ex - ex + (prec - 1)) with (Zdigits2 mx - 1) by lia.
  exact Hd.
Qed.

Lemma rnd_num_bounds mx ex num den :
  0 <= mx -> 0 <= num < den -> ex <= rexp mx ex ->
  0 <= rnum mx ex num den < rden mx ex den.
Proof.
  intros Hm Hn He. unfold rnd_num, rnd_den, rnd_shift.
  assert (Hq : 0 < 2 ^ (rexp mx ex - ex)) by (apply Z.pow_pos_nonneg; lia).
  pose proof (Z.mod_pos_bound mx _ Hq). nia.
Qed.

Lemma rnd_mant_range mx ex num den :
  rtrunc mx ex <= rmant mx ex num den <= rtrunc mx ex + 1.
Proof. apply round_nearest_even_range. Qed.

Lemma rnd_mant_exact mx ex num den :
  rnum mx ex num den = 0 -> rmant mx ex num den = rtrunc mx ex.
Proof. intros H. unfold rnd_mant. rewrite H. reflexivity. Qed.

(** Canonical mantissas: at most [prec] digits at [emin], exactly [prec]
    digits above. *)
Lemma canonical_intro (m : positive) (e : Z) :
  Z.pos m < 2 ^ prec -> (e = emin \/ (emin < e /\ 2 ^ (prec - 1) <= Z.pos m)) ->
  canonical_mantissa prec emax m e = true.
Proof.
  intros Hlt Hc. unfold canonical_mantissa. apply Z.eqb_eq.
  change (Z.pos (digits2_pos m)) with (Zdigits2 (Z.pos m)).
  pose proof (Zdigits2_bounds (Z.pos m) ltac:(lia)) as [Hd1 Hd2].
  assert (Zdigits2 (Z.pos m) <= prec).
  { destruct (Z_lt_le_dec prec (Zdigits2 (Z.pos m))); [|lia].
    assert (2 ^ prec <= 2 ^ (Zdigits2 (Z.pos m) - 1)) by (apply Z.pow_le_mono_r; lia). lia. }
  unfold SpecFloat.fexp. destruct Hc as [->|[He Hn]]; [lia|].
  assert (prec <= Zdigits2 (Z.pos m)); [|lia].
  destruct (Z_lt_le_dec (Zdigits2 (Z.pos m)) prec); [|lia].
  assert (2 ^ Zdigits2 (Z.pos m) <= 2 ^ (prec - 1)) by (apply Z.pow_le_mono_r; lia). lia.
Qed.

Lemma canonical_elim (m : positive) (e : Z) :
  canonical_mantissa prec emax m e = true ->
  Z.pos m < 2 ^ prec /\ emin <= e /\ (emin < e -> 2 ^ (prec - 1) <= Z.pos m).
Proof.
  unfold canonical_mantissa. intros H%Z.eqb_eq.
  change (Z.pos (digits2_pos m)) with (Zdigits2 (Z.pos m)) in H.
  pose proof (Zdigits2_bounds (Z.pos m) ltac:(lia)) as [Hd1 Hd2].
  unfold SpecFloat.fexp in H.
  assert (Zdigits2 (Z.pos m) <= prec) by lia.
  split; [|split; [lia|]].
  - eapply Z.lt_le_trans; [exact Hd2|]. apply Z.pow_le_mono_r; lia.
  - intros He. assert (Zdigits2 (Z.pos m) = prec) as <- by lia. exact Hd1.
Qed.

(** The result of [binary_round_aux] on a non-negative mantissa whose
    cut-off part is [num / den]: zero when the rounded mantissa is zero,
    otherwise the rounded mantissa renormalised to a canonical one, or
    infinity when its exponent exceeds the format. *)
Lemma binary_round_aux_shape sx mx ex num den :
  0 <= mx -> 0 <= num < den -> ex <= rexp mx ex ->
  (rmant mx ex num den = 0 /\
   binary_round_aux prec emax sx mx ex (loc_of num den) = S754_zero sx) \/
  (exists (m2 : positive) (e2 : Z),
      Z.pos m2 * 2 ^ (e2 - rexp mx ex) = rmant mx ex num den /\
      rexp mx ex <= e2 /\
      canonical_mantissa prec emax m2 e2 = true /\
      binary_round_aux prec emax sx mx ex (loc_of num den) =
      if e2 <=? emax - prec then S754_finite sx m2 e2 else S754_infinity sx).
Proof.
  intros Hm Hn He.
  pose proof (rnd_trunc_bounds mx ex Hm He) as Ht.
  pose proof (rnd_mant_range mx ex num den) as Hr.
  pose proof (rnd_exp_ge_emin mx ex) as Hmin.
  unfold binary_round_aux. rewrite shr_fexp_loc by assumption.
  rewrite shr_m_of_loc, loc_of_shr_record_of_loc. fold (rmant mx ex num den).
  set (m1 := rmant mx ex num den) in *. set (e1 := rexp mx ex) in *.
  assert (Hnorm : emin < e1 -> 2 ^ (prec - 1) <= m1).
  { intros H. pose proof (rnd_trunc_normal mx ex Hm He H). lia. }
  assert (Hp1 : 0 < 2 ^ (prec - 1)) by (apply Z.pow_pos_nonneg; lia).
  assert (Hpp : 2 ^ prec = 2 * 2 ^ (prec - 1)).
  { replace prec with (Z.succ (prec - 1)) at 1 by lia. apply Z.pow_succ_r. lia. }
  change loc_Exact with (loc_of 0 1).
  destruct (Z.eq_dec m1 0) as [E0|Hne].
  - left. split; [exact E0|]. rewrite E0.
    assert (e1 = emin) by lia.
    rewrite shr_fexp_loc; [|lia|lia|unfold rnd_exp, SpecFloat.fexp; cbn; lia].
    rewrite shr_m_of_loc. unfold rnd_trunc. rewrite Z.div_0_l; [reflexivity|].
    unfold rnd_shift, rnd_exp, SpecFloat.fexp. cbn [Zdigits2].
    replace (Z.max (0 + e1 - prec) emin - e1) with 0 by lia. cbn. lia.
  - right.
    destruct (Z_lt_le_dec m1 (2 ^ prec)) as [Hlt|Hge].
    + (* no renormalisation *)
      assert (Hd : Zdigits2 m1 <= prec).
      { pose proof (Zdigits2_bounds m1 ltac:(lia)) as [Hd1 _].
        destruct (Z_lt_le_dec prec (Zdigits2 m1)); [|lia].
        assert (2 ^ prec <= 2 ^ (Zdigits2 m1 - 1)) by (apply Z.pow_le_mono_r; lia). lia. }
      assert (Hd' : emin < e1 -> Zdigits2 m1 = prec).
      { intros H. apply Zdigits2_unique; [|lia]. split; [apply Hnorm, H | lia]. }
      assert (Hexp : rexp m1 e1 = e1) by (unfold rnd_exp, SpecFloat.fexp; lia).
      rewrite shr_fexp_loc; [|lia|lia|lia].
      rewrite shr_m_of_loc, Hexp. unfold rnd_trunc, rnd_shift. rewrite Hexp, Z.sub_diag.
      rewrite Z.pow_0_r, Z.div_1_r.
      destruct m1 as [|m2|m2] eqn:Em1; try lia.
      exists m2, e1. rewrite Z.sub_diag, Z.pow_0_r.
      split; [lia|]. split; [lia|]. split; [|reflexivity].
      apply canonical_intro; [lia|].
      destruct (Z.eq_dec e1 emin); [left; assumption | right; split; [lia | apply Hnorm; lia]].
    + (* the rounded mantissa reached [2 ^ prec] *)
      assert (Em : m1 = 2 ^ prec) by lia.
      assert (Hd : Zdigits2 m1 = prec + 1).
      { apply Zdigits2_unique; [|lia]. rewrite Em. replace (prec + 1 - 1) with prec by lia.
        split; [lia|]. apply Z.pow_lt_mono_r; lia. }
      assert (Hexp : rexp m1 e1 = e1 + 1) by (unfold rnd_exp, SpecFloat.fexp; lia).
      rewrite shr_fexp_loc; [|lia|lia|lia].
      rewrite shr_m_of_loc, Hexp. unfold rnd_trunc, rnd_shift. rewrite Hexp.
      replace (e1 + 1 - e1) with 1 by lia. rewrite Z.pow_1_r.
      assert (Eh : m1 / 2 = 2 ^ (prec - 1)).
      { rewrite Em, Hpp, Z.mul_comm. apply Z.div_mul. lia. }
      rewrite Eh.
      destruct (2 ^ (prec - 1)) as [|m2|m2] eqn:E2; try lia.
      exists m2, (e1 + 1). replace (e1 + 1 - e1) with 1 by lia. rewrite Z.pow_1_r.
      split; [lia|]. split; [lia|]. split; [|reflexivity].
      apply canonical_intro; [lia|]. right. split; [lia|]. lia.
Qed.

Lemma exact_value_rnd mx ex num den :
  0 <= mx -> 0 < den -> ex <= rexp mx ex ->
  exact_value mx ex num den =
  exact_value (rtrunc mx ex) (rexp mx ex) (rnum mx ex num den) (rden mx ex den).
Proof.
  intros Hm Hn He. unfold exact_value, rnd_trunc, rnd_num, rnd_den, rnd_shift.
  set (n := rexp mx ex - ex).
  assert (Hq : 0 < 2 ^ n) by (apply Z.pow_pos_nonneg; lia).
  replace (rexp mx ex) with (ex + n) by lia.
  rewrite bpow_add, (bpow_IZR n) by lia.
  rewrite (Z.div_mod mx (2 ^ n)) at 1 by lia.
  rewrite plus_IZR, !mult_IZR, plus_IZR, mult_IZR.
  assert (0 < IZR (2 ^ n))%R by (apply IZR_lt; lia).
  assert (0 < IZR den)%R by (apply IZR_lt; lia).
  field. lra.
Qed.

(** The value lies in the unit interval above the truncated mantissa;
    it sits on its lower end exactly when nothing was cut off. *)
Lemma exact_value_bounds m e num den :
  0 <= num < den ->
  (F2R m e <= exact_value m e num den < F2R (m + 1) e)%R /\
  (num <> 0 -> (F2R m e < exact_value m e num den)%R).
Proof.
  intros Hn. unfold exact_value, F2R. rewrite plus_IZR.
  pose proof (bpow_pos e).
  assert (0 < IZR den)%R by (apply IZR_lt; lia).
  assert (0 <= IZR num / IZR den < 1)%R.
  { split.
    - apply Rmult_le_pos; [apply IZR_le; lia | apply Rlt_le, Rinv_0_lt_compat; lra].
    - apply (Rmult_lt_reg_r (IZR den)); [lra|]. unfold Rdiv.
      rewrite Rmult_assoc, Rinv_l, Rmult_1_r, Rmult_1_l by lra. apply IZR_lt. lia. }
  split; [nra|]. intros Hne.
  assert (0 < IZR num / IZR den)%R.
  { apply Rmult_lt_0_compat; [apply IZR_lt; lia | apply Rinv_0_lt_compat; lra]. }
  nra.
Qed.

(** Rounding against the grid of multiples of [2 ^ rexp]. *)
Lemma rnd_mant_le_grid mx ex num den (Y : Z) :
  0 <= mx -> 0 <= num < den -> ex <= rexp mx ex ->
  (exact_value mx ex num den <= F2R Y (rexp mx ex))%R ->
  rmant mx ex num den <= Y.
Proof.
  intros Hm Hn He Hle.
  rewrite exact_value_rnd in Hle by lia.
  pose proof (rnd_num_bounds mx ex num den Hm Hn He) as Hb.
  destruct (exact_value_bounds (rtrunc mx ex) (rexp mx ex) _ _ Hb) as [[H1 H2] H3].
  pose proof (rnd_mant_range mx ex num den) as Hr.
  destruct (Z.eq_dec (rnum mx ex num den) 0) as [E|E].
  - rewrite (rnd_mant_exact _ _ _ _ E). apply (F2R_le_inv _ _ (rexp mx ex)). lra.
  - specialize (H3 E).
    assert (rtrunc mx ex < Y) by (apply (F2R_lt_inv _ _ (rexp mx ex)); lra). lia.
Qed.

Lemma rnd_mant_ge_grid mx ex num den (Y : Z) :
  0 <= mx -> 0 <= num < den -> ex <= rexp mx ex ->
  (F2R Y (rexp mx ex) <= exact_value mx ex num den)%R ->
  Y <= rmant mx ex num den.
Proof.
  intros Hm Hn He Hle.
  rewrite exact_value_rnd in Hle by lia.
  pose proof (rnd_num_bounds mx ex num den Hm Hn He) as Hb.
  destruct (exact_value_bounds (rtrunc mx ex) (rexp mx ex) _ _ Hb) as [[H1 H2] H3].
  pose proof (rnd_mant_range mx ex num den) as Hr.
  assert (Y < rtrunc mx ex + 1) by (apply (F2R_lt_inv _ _ (rexp mx ex)); lra). lia.
Qed.

Lemma canonical_value_lt (m : positive) (e : Z) :
  canonical_mantissa prec emax m e = true -> (F2R (Z.pos m) e < bpow (prec + e))%R.
Proof.
  intros [Hlt _]%canonical_elim; [|assumption..].
  rewrite bpow_add, (bpow_IZR prec) by lia. unfold F2R.
  pose proof (bpow_pos e). apply IZR_lt in Hlt. nra.
Qed.

Lemma canonical_value_ge (m : positive) (e : Z) :
  canonical_mantissa prec emax m e = true -> emin < e ->
  (bpow (prec - 1 + e) <= F2R (Z.pos m) e)%R.
Proof.
  intros (_ & _ & Hn)%canonical_elim He; [|assumption..]. specialize (Hn He).
  rewrite bpow_add, (bpow_IZR (prec - 1)) by lia. unfold F2R.
  pose proof (bpow_pos e). apply IZR_le in Hn. nra.
Qed.

(** Two canonical mantissas are ordered like their exponents. *)
Lemma canonical_exp_le (m1 m2 : positive) (e1 e2 : Z) :
  canonical_mantissa prec emax m1 e1 = true ->
  canonical_mantissa prec emax m2 e2 = true ->
  (F2R (Z.pos m1) e1 <= F2R (Z.pos m2) e2)%R -> e1 <= e2.
Proof.
  intros H1 H2 Hle. destruct (Z_lt_le_dec e2 e1) as [Hlt|]; [exfalso|lia].
  pose proof (canonical_elim m2 e2 H2) as (_ & Hmin & _).
  pose proof (canonical_value_ge m1 e1 H1 ltac:(lia)).
  pose proof (canonical_value_lt m2 e2 H2).
  pose proof (bpow_le (prec + e2) (prec - 1 + e1) ltac:(lia)). lra.
Qed.

Lemma rnd_value_ge_normal mx ex num den :
  0 <= mx -> 0 <= num < den -> ex <= rexp mx ex -> emin < rexp mx ex ->
  (bpow (prec - 1 + rexp mx ex) <= F2R (rtrunc mx ex) (rexp mx ex))%R.
Proof.
  intros Hm Hn He Hnorm.
  pose proof (rnd_trunc_normal mx ex Hm He Hnorm) as H.
  rewrite bpow_add, (bpow_IZR (prec - 1)) by lia. unfold F2R.
  pose proof (bpow_pos (rexp mx ex)). apply IZR_le in H. nra.
Qed.

(** The rounded value stays below every canonical value above the exact
    one, and above every canonical value below it. *)
Lemma rnd_le_canonical mx ex num den (my : positive) (ey : Z) :
  0 <= mx -> 0 <= num < den -> ex <= rexp mx ex ->
  canonical_mantissa prec emax my ey = true ->
  (exact_value mx ex num den <= F2R (Z.pos my) ey)%R ->
  (F2R (rmant mx ex num den) (rexp mx ex) <= F2R (Z.pos my) ey)%R.
Proof.
  intros Hm Hn He Hc Hle.
  destruct (Z_lt_le_dec ey (rexp mx ex)) as [Hlt|Hge].
  - exfalso.
    pose proof (canonical_elim my ey Hc) as (_ & Hmin & _).
    pose proof (rnd_value_ge_normal mx ex num den Hm Hn He ltac:(lia)) as H1.
    pose proof (canonical_value_lt my ey Hc) as H2.
    pose proof (bpow_le (prec + ey) (prec - 1 + rexp mx ex) ltac:(lia)) as H3.
    rewrite exact_value_rnd in Hle by lia.
    pose proof (rnd_num_bounds mx ex num den Hm Hn He) as Hb.
    destruct (exact_value_bounds (rtrunc mx ex) (rexp mx ex) _ _ Hb) as [[H4 _] _].
    lra.
  - replace ey with (rexp mx ex + (ey - rexp mx ex)) in Hle |- * by lia.
    rewrite <- F2R_shift in Hle |- * by lia.
    apply F2R_le. eapply rnd_mant_le_grid; eassumption.
Qed.

Lemma rnd_ge_canonical mx ex num den (my : positive) (ey : Z) :
  0 <= mx -> 0 <= num < den -> ex <= rexp mx ex ->
  canonical_mantissa prec emax my ey = true ->
  (F2R (Z.pos my) ey <= exact_value mx ex num den)%R ->
  (F2R (Z.pos my) ey <= F2R (rmant mx ex num den) (rexp mx ex))%R.
Proof.
  intros Hm Hn He Hc Hle.
  destruct (Z_lt_le_dec ey (rexp mx ex)) as [Hlt|Hge].
  - pose proof (canonical_elim my ey Hc) as (_ & Hmin & _).
    pose proof (rnd_value_ge_normal mx ex num den Hm Hn He ltac:(lia)) as H1.
    pose proof (canonical_value_lt my ey Hc) as H2.
    pose proof (bpow_le (prec + ey) (prec - 1 + rexp mx ex) ltac:(lia)) as H3.
    pose proof (rnd_mant_range mx ex num den) as [Hr _].
    apply (F2R_le _ _ (rexp mx ex)) in Hr. lra.
  - replace ey with (rexp mx ex + (ey - rexp mx ex)) in Hle |- * by lia.
    rewrite <- F2R_shift in Hle |- * by lia.
    apply F2R_le. eapply rnd_mant_ge_grid; eassumption.
Qed.

Lemma bounded_elim (m : positive) (e : Z) :
  bounded prec emax m e = true ->
  canonical_mantissa prec emax m e = true /\ e <= emax - prec.
Proof. unfold bounded. intros [H1 H2%Z.leb_le]%andb_prop. auto. Qed.

Lemma B2R_nonneg f : nonneg_float prec emax f = true -> (0 <= B2R f)%R.
Proof.
  destruct f as [[]|[]| |[] m e]; cbn; try discriminate; try lra.
  intros _. unfold F2R. pose proof (bpow_pos e).
  assert (0 < IZR (Z.pos m))%R by (apply IZR_lt; lia). nra.
Qed.

(** Rounding a non-negative value that some number of the format
    bounds from above: the result is finite, has the rounded mantissa as
    its value, and respects the bound. *)
Lemma binary_round_aux_nonneg mx ex num den (my : positive) (ey : Z) :
  0 <= mx -> 0 <= num < den -> ex <= rexp mx ex ->
  bounded prec emax my ey = true ->
  (exact_value mx ex num den <= F2R (Z.pos my) ey)%R ->
  let r := binary_round_aux prec emax false mx ex (loc_of num den) in
  nonneg_float prec emax r = true /\
  B2R r = F2R (rmant mx ex num den) (rexp mx ex) /\
  (B2R r <= F2R (Z.pos my) ey)%R.
Proof.
  intros Hm Hn He [Hc Hey]%bounded_elim Hle r.
  pose proof (rnd_le_canonical mx ex num den my ey Hm Hn He Hc Hle) as Hup.
  destruct (binary_round_aux_shape false mx ex num den Hm Hn He)
    as [[E0 Er] | (m2 & e2 & Hv & Hge & Hc2 & Er)]; subst r; rewrite Er.
  - cbn. rewrite E0 in *. unfold F2R in *. split; [reflexivity|]. split; lra.
  - assert (Hval : F2R (Z.pos m2) e2 = F2R (rmant mx ex num den) (rexp mx ex)).
    { rewrite <- Hv, F2R_shift by lia. f_equal. lia. }
    assert (e2 <= ey) by (apply (canonical_exp_le m2 my); [assumption..|lra]).
    replace (e2 <=? emax - prec) with true by (symmetry; apply Z.leb_le; lia).
    cbn. unfold bounded. rewrite Hc2. 
    replace (e2 <=? emax - prec) with true by (symmetry; apply Z.leb_le; lia).
    split; [reflexivity|]. split; [exact Hval | lra].
Qed.

Lemma loc_of_ratio_le t n1 d1 n2 d2 :
  0 <= n1 < d1 -> 0 <= n2 < d2 -> n1 * d2 <= n2 * d1 ->
  round_nearest_even t (loc_of n1 d1) <= round_nearest_even t (loc_of n2 d2).
Proof.
  intros H1 H2 Hle. unfold loc_of.
  destruct (Z.eqb_spec n1 0), (Z.eqb_spec n2 0); try nia.
  - apply round_nearest_even_range.
  - unfold round_nearest_even.
    destruct (Z.compare_spec (2 * n1) d1), (Z.compare_spec (2 * n2) d2);
      try nia; destruct (Z.even t); lia.
Qed.

(** Rounding is monotone. *)
Lemma rnd_monotone mx1 ex1 num1 den1 mx2 ex2 num2 den2 :
  0 <= mx1 -> 0 <= num1 < den1 -> ex1 <= rexp mx1 ex1 ->
  0 <= mx2 -> 0 <= num2 < den2 -> ex2 <= rexp mx2 ex2 ->
  (exact_value mx1 ex1 num1 den1 <= exact_value mx2 ex2 num2 den2)%R ->
  (F2R (rmant mx1 ex1 num1 den1) (rexp mx1 ex1) <=
   F2R (rmant mx2 ex2 num2 den2) (rexp mx2 ex2))%R.
Proof.
  intros Hm1 Hn1 He1 Hm2 Hn2 He2 Hle.
  rewrite (exact_value_rnd mx1), (exact_value_rnd mx2) in Hle by lia.
  pose proof (rnd_num_bounds mx1 ex1 num1 den1 Hm1 Hn1 He1) as Hb1.
  pose proof (rnd_num_bounds mx2 ex2 num2 den2 Hm2 Hn2 He2) as Hb2.
  destruct (exact_value_bounds (rtrunc mx1 ex1) (rexp mx1 ex1) _ _ Hb1) as [[L1 U1] _].
  destruct (exact_value_bounds (rtrunc mx2 ex2) (rexp mx2 ex2) _ _ Hb2) as [[L2 U2] _].
  pose proof (rnd_mant_range mx1 ex1 num1 den1) as [R1a R1b].
  pose proof (rnd_mant_range mx2 ex2 num2 den2) as [R2a R2b].
  pose proof (rnd_trunc_bounds mx1 ex1 Hm1 He1) as T1.
  pose proof (rnd_trunc_bounds mx2 ex2 Hm2 He2) as T2.
  pose proof (rnd_exp_ge_emin mx1 ex1) as M1.
  pose proof (rnd_exp_ge_emin mx2 ex2) as M2.
  assert (Hcap : forall m e, m <= 2 ^ prec -> (F2R m e <= bpow (prec + e))%R).
  { intros m e H%IZR_le. rewrite bpow_add, (bpow_IZR prec) by lia. unfold F2R.
    pose proof (bpow_pos e). nra. }
  destruct (Z.compare_spec (rexp mx1 ex1) (rexp mx2 ex2)) as [E|Hlt|Hgt].
  - rewrite <- E in *. apply F2R_le.
    assert (rtrunc mx1 ex1 < rtrunc mx2 ex2 + 1)
      by (apply (F2R_lt_inv _ _ (rexp mx1 ex1)); lra).
    destruct (Z.eq_dec (rtrunc mx1 ex1) (rtrunc mx2 ex2)) as [Et|]; [|lia].
    unfold rnd_mant. rewrite Et. apply loc_of_ratio_le; [lia..|].
    unfold exact_value in Hle. rewrite Et in Hle.
    pose proof (bpow_pos (rexp mx1 ex1)).
    set (n1 := rnum mx1 ex1 num1 den1) in *. set (d1 := rden mx1 ex1 den1) in *.
    set (n2 := rnum mx2 ex2 num2 den2) in *. set (d2 := rden mx2 ex2 den2) in *.
    assert (0 < IZR d1)%R by (apply IZR_lt; lia).
    assert (0 < IZR d2)%R by (apply IZR_lt; lia).
    assert (IZR n1 / IZR d1 <= IZR n2 / IZR d2)%R by nra.
    apply le_IZR. rewrite !mult_IZR.
    apply (Rmult_le_reg_r (/ IZR d1 * / IZR d2)).
    { apply Rmult_lt_0_compat; apply Rinv_0_lt_compat; lra. }
    unfold Rdiv in *. field_simplify; [|lra..]. 
    replace (IZR n1 / IZR d1)%R with (IZR n1 * / IZR d1)%R by reflexivity.
    replace (IZR n2 / IZR d2)%R with (IZR n2 * / IZR d2)%R by reflexivity.
    lra.
  - pose proof (rnd_value_ge_normal mx2 ex2 num2 den2 Hm2 Hn2 He2 ltac:(lia)) as N2.
    pose proof (Hcap (rmant mx1 ex1 num1 den1) (rexp mx1 ex1) ltac:(lia)) as C1.
    pose proof (bpow_le (prec + rexp mx1 ex1) (prec - 1 + rexp mx2 ex2) ltac:(lia)).
    apply (F2R_le _ _ (rexp mx2 ex2)) in R2a. lra.
  - exfalso.
    pose proof (rnd_value_ge_normal mx1 ex1 num1 den1 Hm1 Hn1 He1 ltac:(lia)) as N1.
    pose proof (Hcap (rtrunc mx2 ex2 + 1) (rexp mx2 ex2) ltac:(lia)) as C2.
    pose proof (bpow_le (prec + rexp mx2 ex2) (prec - 1 + rexp mx1 ex1) ltac:(lia)).
    lra.
Qed.

(** *** The interface: [rounds_to] *)

Lemma exact_value_nonneg mx ex num den :
  0 <= mx -> 0 <= num < den -> (0 <= exact_value mx ex num den)%R.
Proof.
  intros Hm Hn. destruct (exact_value_bounds mx ex num den Hn) as [[H _] _].
  pose proof (F2R_le 0 mx ex Hm) as H0. unfold F2R in H0 at 1. lra.
Qed.

Lemma rounds_to_nonneg x r : rounds_to prec emax x r -> (0 <= x)%R /\ (0 <= B2R r)%R.
Proof.
  intros [Hr (mx & ex & num & den & Hm & Hn & He & -> & Hv)].
  split; [apply exact_value_nonneg; assumption | apply B2R_nonneg, Hr].
Qed.

Lemma rounds_to_intro mx ex num den (my : positive) (ey : Z) :
  0 <= mx -> 0 <= num < den -> ex <= rexp mx ex ->
  bounded prec emax my ey = true ->
  (exact_value mx ex num den <= F2R (Z.pos my) ey)%R ->
  rounds_to prec emax (exact_value mx ex num den)
            (binary_round_aux prec emax false mx ex (loc_of num den)).
Proof.
  intros Hm Hn He Hb Hle.
  destruct (binary_round_aux_nonneg mx ex num den my ey Hm Hn He Hb Hle) as (H1 & H2 & _).
  split; [exact H1|]. exists mx, ex, num, den. auto.
Qed.

Lemma rounds_to_le x r (my : positive) (ey : Z) :
  rounds_to prec emax x r -> canonical_mantissa prec emax my ey = true ->
  (x <= F2R (Z.pos my) ey)%R -> (B2R r <= F2R (Z.pos my) ey)%R.
Proof.
  intros [_ (mx & ex & num & den & Hm & Hn & He & -> & ->)] Hc Hle.
  apply rnd_le_canonical; assumption.
Qed.

Lemma rounds_to_ge x r (my : positive) (ey : Z) :
  rounds_to prec emax x r -> canonical_mantissa prec emax my ey = true ->
  (F2R (Z.pos my) ey <= x)%R -> (F2R (Z.pos my) ey <= B2R r)%R.
Proof.
  intros [_ (mx & ex & num & den & Hm & Hn & He & -> & ->)] Hc Hle.
  apply rnd_ge_canonical; assumption.
Qed.

Lemma rounds_to_mono x1 r1 x2 r2 :
  rounds_to prec emax x1 r1 -> rounds_to prec emax x2 r2 ->
  (x1 <= x2)%R -> (B2R r1 <= B2R r2)%R.
Proof.
  intros [_ (mx1 & ex1 & num1 & den1 & Hm1 & Hn1 & He1 & -> & ->)]
         [_ (mx2 & ex2 & num2 & den2 & Hm2 & Hn2 & He2 & -> & ->)] Hle.
  apply rnd_monotone; assumption.
Qed.

Lemma rounds_to_exact x r (my : positive) (ey : Z) :
  rounds_to prec emax x r -> canonical_mantissa prec emax my ey = true ->
  x = F2R (Z.pos my) ey -> B2R r = x.
Proof.
  intros Hr Hc ->.
  pose proof (rounds_to_le _ _ my ey Hr Hc ltac:(lra)).
  pose proof (rounds_to_ge _ _ my ey Hr Hc ltac:(lra)). lra.
Qed.

Lemma rounds_to_zero : rounds_to prec emax 0 (S754_zero false).
Proof.
  split; [reflexivity|]. exists 0, emin, 0, 1.
  assert (E : rexp 0 emin = emin) by (unfold rnd_exp, SpecFloat.fexp; cbn [Zdigits2]; lia).
  split; [lia|]. split; [lia|]. split; [lia|].
  unfold exact_value, rnd_mant, rnd_trunc, rnd_num, rnd_den, rnd_shift, F2R.
  rewrite E, Z.sub_diag.
  change (round_nearest_even (0 / 2 ^ 0) (loc_of (0 mod 2 ^ 0 * 1 + 0) (2 ^ 0 * 1))) with 0.
  cbn [B2R]. split; lra.
Qed.

(** *** Integer conversion *)

Lemma shl_align_spec (mx : positive) (ex ex' : Z) :
  let '(mz, ez) := shl_align mx ex ex' in
  Z.pos mz = Z.pos mx * 2 ^ (ex - ez) /\ ez = Z.min ex ex'.
Proof.
  unfold shl_align. destruct (ex' - ex) as [|d|d] eqn:E.
  - rewrite Z.sub_diag. cbn. split; lia.
  - rewrite Z.sub_diag. cbn. split; lia.
  - rewrite Pos_iter_xO. replace (ex - ex') with (Z.pos d) by lia. split; lia.
Qed.

Lemma binary_round_rounds (mx : positive) (ex : Z) (my : positive) (ey : Z) :
  bounded prec emax my ey = true ->
  (F2R (Z.pos mx) ex <= F2R (Z.pos my) ey)%R ->
  rounds_to prec emax (F2R (Z.pos mx) ex) (binary_round prec emax false mx ex).
Proof.
  intros Hb Hle. unfold binary_round.
  pose proof (shl_align_spec mx ex (fexp (Z.pos (digits2_pos mx) + ex))) as Hs.
  destruct (shl_align mx ex (fexp (Z.pos (digits2_pos mx) + ex))) as [mz ez].
  destruct Hs as [Hmz Hez].
  assert (Hval : exact_value (Z.pos mz) ez 0 1 = F2R (Z.pos mx) ex).
  { unfold exact_value. rewrite Hmz.
    replace ((IZR (Z.pos mx * 2 ^ (ex - ez)) + 0 / 1) * bpow ez)%R
      with (F2R (Z.pos mx * 2 ^ (ex - ez)) ez) by (unfold F2R; lra).
    rewrite F2R_shift by lia. f_equal. lia. }
  rewrite <- Hval in Hle |- *. change loc_Exact with (loc_of 0 1).
  apply (rounds_to_intro _ _ _ _ my ey); try assumption; try lia.
  unfold rnd_exp. rewrite Hmz, Zdigits2_mul_pow2 by lia.
  change (Zdigits2 (Z.pos mx)) with (Z.pos (digits2_pos mx)).
  replace (Z.pos (digits2_pos mx) + (ex - ez) + ez) with (Z.pos (digits2_pos mx) + ex) by lia.
  lia.
Qed.

Lemma binary_normalize_rounds (z e : Z) (my : positive) (ey : Z) :
  0 <= z -> bounded prec emax my ey = true ->
  (F2R z e <= F2R (Z.pos my) ey)%R ->
  rounds_to prec emax (F2R z e) (binary_normalize prec emax z e false).
Proof.
  intros Hz Hb Hle. destruct z as [|p|p]; try lia.
  - unfold F2R. rewrite Rmult_0_l. apply rounds_to_zero.
  - apply (binary_round_rounds _ _ my ey); assumption.
Qed.

(** Integers below [2 ^ prec] are numbers of the format. *)
Lemma small_integer_representable (z : Z) :
  0 < z < 2 ^ prec ->
  exists (m : positive) (e : Z), bounded prec emax m e = true /\ F2R (Z.pos m) e = IZR z.
Proof.
  intros [Hz Hlt].
  pose proof (Zdigits2_bounds z Hz) as [Hd1 Hd2].
  assert (Hd : 0 < Zdigits2 z <= prec).
  { split.
    - rewrite Zdigits2_log2 by lia. pose proof (Z.log2_nonneg z). lia.
    - destruct (Z_lt_le_dec prec (Zdigits2 z)); [|lia].
      assert (2 ^ prec <= 2 ^ (Zdigits2 z - 1)) by (apply Z.pow_le_mono_r; lia). lia. }
  set (d := Zdigits2 z) in *.
  assert (Hq : 0 < 2 ^ (prec - d)) by (apply Z.pow_pos_nonneg; lia).
  destruct (z * 2 ^ (prec - d)) as [|m|m] eqn:Em; try nia.
  exists m, (d - prec).
  assert (Hlo : 2 ^ (prec - 1) <= Z.pos m).
  { rewrite <- Em. replace (prec - 1) with ((d - 1) + (prec - d)) by lia.
    rewrite Z.pow_add_r by lia. nia. }
  assert (Hhi : Z.pos m < 2 ^ prec).
  { rewrite <- Em. replace prec with (d + (prec - d)) at 2 by lia.
    rewrite Z.pow_add_r by lia. nia. }
  split.
  - unfold bounded. apply andb_true_intro. split.
    + apply canonical_intro; [exact Hhi|].
      destruct (Z.eq_dec (d - prec) emin); [left; assumption|right].
      split; [unfold SpecFloat.emin in *; lia | exact Hlo].
    + apply Z.leb_le. lia.
  - rewrite <- Em, F2R_shift by lia. unfold F2R.
    replace (d - prec + (prec - d)) with 0 by lia. unfold bpow. cbn. lra.
Qed.

(** *** Division *)

Lemma Zdigits2_ge_pow2 (q k : Z) : 0 < k -> 2 ^ (k - 1) <= q -> k <= Zdigits2 q.
Proof.
  intros Hk Hq. assert (0 < 2 ^ (k - 1)) by (apply Z.pow_pos_nonneg; lia).
  rewrite <- (Zdigits2_unique (2 ^ (k - 1)) k).
  - apply Zdigits2_le. lia.
  - split; [lia|]. apply Z.pow_lt_mono_r; lia.
  - lia.
Qed.

Lemma SFdiv_core_binary_spec (m1 m2 : positive) (e1 e2 : Z) :
  exists q r e' : Z,
    SFdiv_core_binary prec emax (Z.pos m1) e1 (Z.pos m2) e2 = (q, e', loc_of r (Z.pos m2)) /\
    0 <= q /\ 0 <= r < Z.pos m2 /\ e' <= rexp q e' /\
    exact_value q e' r (Z.pos m2) = (F2R (Z.pos m1) e1 / F2R (Z.pos m2) e2)%R.
Proof.
  unfold SFdiv_core_binary.
  set (d1 := Zdigits2 (Z.pos m1)). set (d2 := Zdigits2 (Z.pos m2)).
  set (e' := Z.min (fexp (d1 + e1 - (d2 + e2))) (e1 - e2)).
  set (s := e1 - e2 - e').
  assert (Hs : 0 <= s) by (unfold s, e'; lia).
  assert (Hp : 0 < 2 ^ s) by (apply Z.pow_pos_nonneg; lia).
  assert (Hm' : match s with Z.pos _ => Z.shiftl (Z.pos m1) s | 0 => Z.pos m1 | Z.neg _ => 0 end
                = Z.pos m1 * 2 ^ s).
  { destruct s as [|p|p] eqn:Es; try lia.
    rewrite Z.shiftl_mul_pow2 by lia. reflexivity. }
  rewrite Hm'. set (m' := Z.pos m1 * 2 ^ s).
  pose proof (Z_div_mod m' (Z.pos m2) ltac:(lia)) as Hdm.
  destruct (Z.div_eucl m' (Z.pos m2)) as [q r]. destruct Hdm as [Hq Hr].
  exists q, r, e'. rewrite new_location_loc_of by lia.
  assert (Hq0 : 0 <= q) by nia.
  split; [reflexivity|]. split; [exact Hq0|]. split; [lia|]. split.
  - (* enough digits in the quotient *)
    assert (Hdig : d1 - d2 + s <= Zdigits2 q).
    { destruct (Z_lt_le_dec 0 (d1 - d2 + s)) as [Hk|Hk]; [|pose proof (Zdigits2_nonneg q); lia].
      apply Zdigits2_ge_pow2; [exact Hk|].
      pose proof (Zdigits2_bounds (Z.pos m1) ltac:(lia)) as [B1 _].
      pose proof (Zdigits2_bounds (Z.pos m2) ltac:(lia)) as [_ B2].
      fold d1 in B1. fold d2 in B2.
      assert (Hd2 : 0 < d2) by (unfold d2; cbn; lia).
      assert (Hd1 : 0 < d1) by (unfold d1; cbn; lia).
      assert (E : 2 ^ (d1 - d2 + s - 1) * 2 ^ d2 = 2 ^ (d1 - 1) * 2 ^ s).
      { rewrite <- !Z.pow_add_r by lia. f_equal. lia. }
      assert (0 < 2 ^ (d1 - d2 + s - 1)) by (apply Z.pow_pos_nonneg; lia).
      assert (2 ^ (d1 - d2 + s - 1) * Z.pos m2 < (q + 1) * Z.pos m2) by nia.
      nia. }
    unfold rnd_exp. unfold e' at 1.
    assert (fexp (d1 + e1 - (d2 + e2)) <= fexp (Zdigits2 q + e'))
      by (unfold SpecFloat.fexp, s in *; lia).
    lia.
  - unfold exact_value, F2R.
    replace e1 with (e' + s + e2) by (unfold s; lia).
    rewrite !bpow_add, (bpow_IZR s) by lia.
    assert (IZR (Z.pos m1) * IZR (2 ^ s) = IZR q * IZR (Z.pos m2) + IZR r)%R.
    { rewrite <- !mult_IZR, <- plus_IZR. f_equal. unfold m' in Hq. lia. }
    pose proof (bpow_pos e'). pose proof (bpow_pos e2).
    assert (0 < IZR (Z.pos m2))%R by (apply IZR_lt; lia).
    apply (Rmult_eq_reg_r (IZR (Z.pos m2) * bpow e2)); [|nra].
    field_simplify; [|nra..]. nra.
Qed.

Lemma SFdiv_rounds (a : spec_float) (mb : positive) (eb : Z) (my : positive) (ey : Z) :
  nonneg_float prec emax a = true ->
  bounded prec emax my ey = true ->
  (B2R a / F2R (Z.pos mb) eb <= F2R (Z.pos my) ey)%R ->
  rounds_to prec emax (B2R a / F2R (Z.pos mb) eb)
            (SFdiv prec emax a (S754_finite false mb eb)).
Proof.
  intros Ha Hy Hle. destruct a as [[]|[]| |[] ma ea]; try discriminate.
  - cbn [B2R SFdiv xorb]. unfold Rdiv. rewrite Rmult_0_l. apply rounds_to_zero.
  - cbn [B2R cond_Zopp] in *. unfold SFdiv.
    destruct (SFdiv_core_binary_spec ma mb ea eb) as (q & r & e' & -> & Hq & Hr & He & Hv).
    cbn [xorb]. rewrite <- Hv in *.
    apply (rounds_to_intro _ _ _ _ my ey); assumption.
Qed.

(** *** Multiplication *)

Lemma SFmul_shift_ok (ma mb : positive) (ea eb : Z) :
  canonical_mantissa prec emax ma ea = true ->
  canonical_mantissa prec emax mb eb = true ->
  ea + eb <= rexp (Z.pos (ma * mb)) (ea + eb).
Proof.
  intros (Ha1 & Ha2 & Ha3)%canonical_elim (Hb1 & Hb2 & Hb3)%canonical_elim.
  unfold rnd_exp, SpecFloat.fexp.
  assert (Hp1 : 0 < 2 ^ (prec - 1)) by (apply Z.pow_pos_nonneg; lia).
  destruct (Z_lt_le_dec emin ea) as [Hna|Hsa]; [|destruct (Z_lt_le_dec emin eb) as [Hnb|Hsb]].
  - specialize (Ha3 Hna).
    assert (prec <= Zdigits2 (Z.pos (ma * mb)))
      by (apply Zdigits2_ge_pow2; [lia|]; rewrite Pos2Z.inj_mul; nia).
    lia.
  - specialize (Hb3 Hnb).
    assert (prec <= Zdigits2 (Z.pos (ma * mb)))
      by (apply Zdigits2_ge_pow2; [lia|]; rewrite Pos2Z.inj_mul; nia).
    lia.
  - unfold SpecFloat.emin in *. lia.
Qed.

Lemma SFmul_rounds (a b : spec_float) (my : positive) (ey : Z) :
  nonneg_float prec emax a = true -> nonneg_float prec emax b = true ->
  bounded prec emax my ey = true ->
  (B2R a * B2R b <= F2R (Z.pos my) ey)%R ->
  rounds_to prec emax (B2R a * B2R b) (SFmul prec emax a b).
Proof.
  intros Ha Hb Hy Hle.
  destruct a as [[]|[]| |[] ma ea]; try discriminate;
    destruct b as [[]|[]| |[] mb eb]; try discriminate;
    cbn [B2R SFmul xorb cond_Zopp] in *;
    rewrite ?Rmult_0_l, ?Rmult_0_r; try apply rounds_to_zero.
  apply bounded_elim in Ha as [Ha _]. apply bounded_elim in Hb as [Hb _].
  assert (Hv : exact_value (Z.pos (ma * mb)) (ea + eb) 0 1
               = (F2R (Z.pos ma) ea * F2R (Z.pos mb) eb)%R).
  { unfold exact_value, F2R. rewrite Pos2Z.inj_mul, mult_IZR, bpow_add. lra. }
  rewrite <- Hv in *. change loc_Exact with (loc_of 0 1).
  apply (rounds_to_intro _ _ _ _ my ey); try assumption; try lia.
  apply SFmul_shift_ok; assumption.
Qed.

End Format.

(** ** Binary64 *)

Section DoubleFacts.

Local Abbreviation rounds := (rounds_to Double.prec Double.emax).

Lemma double_prec_pos : 0 < Double.prec.
Proof. reflexivity. Qed.

Lemma double_prec_lt_emax : Double.prec < Double.emax.
Proof. reflexivity. Qed.

Lemma F2R_pow2 (m k : Z) (e : Z) : 0 <= k -> 0 <= e + k -> F2R (m * 2 ^ k) e = IZR (m * 2 ^ (e + k)).
Proof.
  intros Hk He. rewrite F2R_shift by lia. unfold F2R.
  rewrite (bpow_IZR (e + k)) by lia. rewrite mult_IZR. reflexivity.
Qed.

Lemma B2R_hundred : B2R Double.hundred = 100%R.
Proof.
  unfold Double.hundred, B2R, cond_Zopp.
  change 7036874417766400 with (100 * 2 ^ 46). rewrite (F2R_pow2 100 46 (-46)) by lia.
  reflexivity.
Qed.

Lemma of_Z_rounds (z : Z) : 0 <= z < 2 ^ 64 -> rounds (IZR z) (Double.of_Z z).
Proof.
  intros Hz. unfold Double.of_Z.
  assert (E : IZR z = F2R z 0) by (unfold F2R, bpow; cbn; lra).
  rewrite E. apply (binary_normalize_rounds _ _ double_prec_pos double_prec_lt_emax _ _ (2 ^ 52)%positive 12).
  - lia.
  - reflexivity.
  - rewrite <- E. change (Z.pos (2 ^ 52)) with (1 * 2 ^ 52). rewrite (F2R_pow2 1 52 12) by lia.
    apply IZR_le. lia.
Qed.

Lemma F2R_one : F2R (Z.pos (2 ^ 52)) (-52) = 1%R.
Proof.
  change (Z.pos (2 ^ 52)) with (1 * 2 ^ 52). rewrite (F2R_pow2 1 52 (-52)) by lia. reflexivity.
Qed.

Lemma F2R_two_to (k : Z) :
  0 <= k -> F2R (Z.pos (2 ^ 52)) (k - 52) = IZR (2 ^ k).
Proof.
  intros Hk. change (Z.pos (2 ^ 52)) with (1 * 2 ^ 52).
  rewrite (F2R_pow2 1 52 (k - 52)) by lia.
  replace (k - 52 + 52) with k by lia. rewrite Z.mul_1_l. reflexivity.
Qed.

(** A rounded value of at least one is a positive finite double. *)
Lemma rounds_ge_one x r :
  rounds x r -> (1 <= x)%R ->
  (1 <= B2R r)%R /\
  exists (m : positive) (e : Z),
    r = S754_finite false m e /\ bounded Double.prec Double.emax m e = true.
Proof.
  intros Hr Hx.
  assert (H1 : (1 <= B2R r)%R).
  { rewrite <- F2R_one.
    apply (rounds_to_ge _ _ double_prec_pos double_prec_lt_emax x);
      [exact Hr | reflexivity | rewrite F2R_one; exact Hx]. }
  split; [exact H1|]. destruct Hr as [Hn _].
  destruct r as [[]|[]| |[] m e]; try discriminate; cbn [B2R] in H1; try lra.
  exists m, e. split; [reflexivity | exact Hn].
Qed.

Lemma of_Z_exact (z : Z) :
  0 <= z < 2 ^ 53 ->
  Double.nonneg (Double.of_Z z) = true /\ B2R (Double.of_Z z) = IZR z.
Proof.
  intros Hz. pose proof (of_Z_rounds z ltac:(lia)) as Hr.
  split; [apply Hr|].
  destruct (Z.eq_dec z 0) as [->|Hne]; [reflexivity|].
  destruct (small_integer_representable _ _ double_prec_pos double_prec_lt_emax z)
    as (m & e & Hbd & Hv); [change Double.prec with 53; lia|].
  apply (bounded_elim _ _ double_prec_pos double_prec_lt_emax) in Hbd as [Hc _].
  apply (rounds_to_exact _ _ double_prec_pos double_prec_lt_emax _ _ m e Hr Hc).
  symmetry. exact Hv.
Qed.

(** [(double) a / (double) b * 100.0] for unsigned 64-bit [a] and
    [b > 0]: finite, non-negative, and at most [100] when [a <= b]. *)
Lemma ratio_percent_bounds (a b : Z) :
  0 <= a < 2 ^ 64 -> 0 < b < 2 ^ 64 ->
  let v := Double.mul (Double.div (Double.of_Z a) (Double.of_Z b)) Double.hundred in
  Double.nonneg v = true /\ (B2R v <= IZR (2 ^ 71))%R /\ (a <= b -> (B2R v <= 100)%R).
Proof.
  intros Ha Hb v.
  pose proof (of_Z_rounds a Ha) as HD.
  pose proof (of_Z_rounds b ltac:(lia)) as HT.
  assert (Hb1 : (1 <= IZR b)%R) by (apply IZR_le; lia).
  destruct (rounds_ge_one _ _ HT Hb1) as (HT1 & mT & eT & ET & HTb).
  assert (HD64 : (B2R (Double.of_Z a) <= IZR (2 ^ 64))%R).
  { rewrite <- (F2R_two_to 64) by lia.
    apply (rounds_to_le _ _ double_prec_pos double_prec_lt_emax (IZR a));
      [exact HD | reflexivity | rewrite F2R_two_to by lia; apply IZR_le; lia]. }
  destruct (rounds_to_nonneg _ _ double_prec_pos double_prec_lt_emax _ _ HD) as [_ HD0].
  set (D := Double.of_Z a) in *. set (T := Double.of_Z b) in *.
  assert (HTv : B2R T = F2R (Z.pos mT) eT) by (rewrite ET; reflexivity).
  assert (Hquot : (B2R D / B2R T <= B2R D)%R).
  { apply (Rmult_le_reg_r (B2R T)); [lra|]. unfold Rdiv.
    rewrite Rmult_assoc, Rinv_l, Rmult_1_r by lra. nra. }
  assert (Hq : rounds (B2R D / B2R T) (Double.div D T)).
  { rewrite HTv, ET. unfold Double.div.
    apply (SFdiv_rounds _ _ double_prec_pos double_prec_lt_emax _ _ _ (2 ^ 52)%positive 12);
      [apply HD | reflexivity |].
    rewrite <- HTv. change 12 with (64 - 52). rewrite F2R_two_to by lia. lra. }
  set (q := Double.div D T) in *.
  assert (Hq64 : (B2R q <= IZR (2 ^ 64))%R).
  { rewrite <- (F2R_two_to 64) by lia.
    apply (rounds_to_le _ _ double_prec_pos double_prec_lt_emax _ _ _ _ Hq); [reflexivity|].
    rewrite F2R_two_to by lia. lra. }
  destruct (rounds_to_nonneg _ _ double_prec_pos double_prec_lt_emax _ _ Hq) as [_ Hq0].
  assert (E71 : IZR (2 ^ 71) = (IZR (2 ^ 64) * 128)%R).
  { change (2 ^ 71) with (2 ^ 64 * 128). rewrite mult_IZR. reflexivity. }
  assert (Hv : rounds (B2R q * B2R Double.hundred) v).
  { unfold v, Double.mul.
    apply (SFmul_rounds _ _ double_prec_pos double_prec_lt_emax _ _ (2 ^ 52)%positive 19);
      [apply Hq | reflexivity | reflexivity |].
    change 19 with (71 - 52). rewrite F2R_two_to, B2R_hundred, E71 by lia. lra. }
  split; [apply Hv|]. split.
  - rewrite <- (F2R_two_to 71) by lia.
    apply (rounds_to_le _ _ double_prec_pos double_prec_lt_emax _ _ _ _ Hv); [reflexivity|].
    rewrite F2R_two_to, B2R_hundred, E71 by lia. lra.
  - intros Hab.
    assert (HDT : (B2R D <= B2R T)%R).
    { apply (rounds_to_mono _ _ double_prec_pos double_prec_lt_emax _ _ _ _ HD HT).
      apply IZR_le. exact Hab. }
    assert (Hq1 : (B2R q <= 1)%R).
    { rewrite <- F2R_one.
      apply (rounds_to_le _ _ double_prec_pos double_prec_lt_emax _ _ _ _ Hq); [reflexivity|].
      rewrite F2R_one. apply (Rmult_le_reg_r (B2R T)); [lra|]. unfold Rdiv.
      rewrite Rmult_assoc, Rinv_l, Rmult_1_r by lra. lra. }
    assert (Hh : F2R (Z.pos 7036874417766400) (-46) = 100%R) by exact B2R_hundred.
    rewrite <- Hh.
    apply (rounds_to_le _ _ double_prec_pos double_prec_lt_emax _ _ _ _ Hv); [reflexivity|].
    rewrite Hh, B2R_hundred. lra.
Qed.

(** The CPU formula on type-respecting inputs. *)
Lemma cpu_percent_bounds (a b n : Z) :
  0 <= a < 2 ^ 64 -> 0 < b < 2 ^ 64 -> 1 <= n < 2 ^ 31 ->
  let c := Double.mul (Double.mul (Double.div (Double.of_Z a) (Double.of_Z b)) Double.hundred)
                      (Double.of_Z n) in
  Double.nonneg c = true /\ (a <= b -> (B2R c <= 100 * IZR n)%R).
Proof.
  intros Ha Hb Hn c.
  destruct (ratio_percent_bounds a b Ha Hb) as (Hv0 & Hv71 & Hv100).
  set (v := Double.mul (Double.div (Double.of_Z a) (Double.of_Z b)) Double.hundred) in *.
  destruct (of_Z_exact n ltac:(lia)) as [HN0 HNv].
  pose proof (B2R_nonneg _ _ double_prec_pos double_prec_lt_emax _ Hv0) as Hvpos.
  assert (Hn1 : (1 <= IZR n <= IZR (2 ^ 31))%R) by (split; apply IZR_le; lia).
  assert (E102 : IZR (2 ^ 102) = (IZR (2 ^ 71) * IZR (2 ^ 31))%R).
  { rewrite <- mult_IZR. reflexivity. }
  assert (Hc : rounds (B2R v * B2R (Double.of_Z n)) c).
  { unfold c, Double.mul.
    apply (SFmul_rounds _ _ double_prec_pos double_prec_lt_emax _ _ (2 ^ 52)%positive 50);
      [exact Hv0 | exact HN0 | reflexivity |].
    change 50 with (102 - 52). rewrite F2R_two_to, HNv, E102 by lia. nra. }
  split; [apply Hc|]. intros Hab. specialize (Hv100 Hab).
  destruct (small_integer_representable _ _ double_prec_pos double_prec_lt_emax (100 * n))
    as (m & e & Hbd & Hval); [change Double.prec with 53; lia|].
  apply (bounded_elim _ _ double_prec_pos double_prec_lt_emax) in Hbd as [Hcm _].
  replace (100 * IZR n)%R with (F2R (Z.pos m) e) by (rewrite Hval, mult_IZR; reflexivity).
  apply (rounds_to_le _ _ double_prec_pos double_prec_lt_emax _ _ _ _ Hc Hcm).
  rewrite Hval, mult_IZR, HNv. nra.
Qed.

End DoubleFacts.


(** * Part III: the accounting engine *)

(** ** The accountant, entry by entry *)

Lemma total_diff_max (cur_snap old_snap : SystemSnapshot) :
  total_diff cur_snap old_snap = Z.max 0 (total_jiffies cur_snap - total_jiffies old_snap).
Proof. unfold total_diff. destruct (Z.leb_spec (total_jiffies old_snap) (total_jiffies cur_snap)); lia. Qed.

Lemma lookup_compute (psk : Z) (procs prev : gmap Z ProcInfo) (cur_snap old_snap : SystemSnapshot)
    (k : Z) :
  compute_cpu_mem_percent psk procs prev cur_snap old_snap !! k =
  account_entry psk prev cur_snap (total_diff cur_snap old_snap) k <$> procs !! k.
Proof.
  unfold compute_cpu_mem_percent. rewrite map_lookup_imap.
  destruct (procs !! k); reflexivity.
Qed.

Lemma account_entry_sampled_fields psk prev cur_snap td k p :
  sampled_fields (account_entry psk prev cur_snap td k p) = sampled_fields p.
Proof.
  unfold account_entry.
  destruct (prev !! k), (0 <? td), (0 <? mem_total_kb cur_snap); reflexivity.
Qed.

Lemma account_entry_cpu psk prev cur_snap td k p :
  cpu_percent (account_entry psk prev cur_snap td k p) =
  match prev !! k with
  | Some it =>
      if 0 <? td then cpu_formula (total_time p) (total_time it) td (num_cpus cur_snap)
      else Double.zero
  | None => Double.zero
  end.
Proof.
  unfold account_entry, cpu_formula.
  destruct (prev !! k) as [it|]; [destruct (0 <? td)|];
    destruct (0 <? mem_total_kb cur_snap); cbn; try reflexivity.
  all: destruct (Z.leb_spec (total_time it) (total_time p));
    [rewrite Z.max_r by lia | rewrite Z.max_l by lia]; reflexivity.
Qed.

Lemma account_entry_mem psk prev cur_snap td k p :
  mem_percent (account_entry psk prev cur_snap td k p) =
  if 0 <? mem_total_kb cur_snap
  then Double.mul (Double.div (Double.of_Z (rss_kb psk p))
                              (Double.of_Z (mem_total_kb cur_snap)))
                  Double.hundred
  else Double.zero.
Proof.
  unfold account_entry, rss_kb.
  destruct (prev !! k) as [it|]; [destruct (0 <? td)|];
    destruct (0 <? mem_total_kb cur_snap); reflexivity.
Qed.

(** A divisor converted from a positive 64-bit counter is a positive
    finite double: the guards [total_diff > 0] and [mem_total_kb > 0]
    keep every division away from zero. *)
Lemma positive_counter_divisor (n : Z) :
  0 < n < 2 ^ 64 ->
  exists (m : positive) (e : Z),
    Double.of_Z n = S754_finite false m e /\ (1 <= B2R (Double.of_Z n))%R.
Proof.
  intros Hn. pose proof (of_Z_rounds n ltac:(lia)) as Hr.
  destruct (rounds_ge_one _ _ Hr ltac:(apply IZR_le; lia)) as (H1 & m & e & E & _).
  exists m, e. split; [exact E | exact H1].
Qed.

Lemma nonneg_is_finite (f : spec_float) :
  Double.nonneg f = true -> is_finite f = true /\ (0 <= B2R f)%R.
Proof.
  intros H. split; [|apply (B2R_nonneg _ _ double_prec_pos double_prec_lt_emax), H].
  destruct f as [[]|[]| |[] m e]; try discriminate; reflexivity.
Qed.

(** No ticks consumed: the quotient is [+0.0] and stays so through both
    multiplications. *)
Lemma cpu_formula_clamped (cur_ticks prev_ticks td cpus : Z) :
  cur_ticks <= prev_ticks -> 0 < td < 2 ^ 64 -> 0 <= cpus < 2 ^ 31 ->
  cpu_formula cur_ticks prev_ticks td cpus = Double.zero.
Proof.
  intros Hle Htd Hc. unfold cpu_formula. rewrite Z.max_l by lia.
  destruct (positive_counter_divisor td Htd) as (m & e & -> & _).
  destruct (Z.eq_dec cpus 0) as [->|Hne]; [reflexivity|].
  destruct (positive_counter_divisor cpus ltac:(lia)) as (mc & ec & -> & _).
  reflexivity.
Qed.

(** ** CPU percentage *)

(** C1. A process present in both snapshots, with a positive system tick
    delta, gets [max(0, current - previous) / totalTickDelta * 100 *
    cpuCount]; when its ticks did not advance this is [+0.0] on every valid
    snapshot pair.  With total ticks 1000 then 1100 and two processors,
    ticks 50 then 80 give exactly [60.0], and ticks 80 then 50 give [0.0]. *)
Theorem cpu_percent_of_matched_process
    (psk : Z) (procs prev : gmap Z ProcInfo) (cur_snap old_snap : SystemSnapshot)
    (k : Z) (p it : ProcInfo) :
  procs !! k = Some p ->
  prev !! k = Some it ->
  0 < Z.max 0 (total_jiffies cur_snap - total_jiffies old_snap) ->
  exists p',
    compute_cpu_mem_percent psk procs prev cur_snap old_snap !! k = Some p' /\
    cpu_percent p' =
      cpu_formula (total_time p) (total_time it)
                  (Z.max 0 (total_jiffies cur_snap - total_jiffies old_snap))
                  (num_cpus cur_snap) /\
    (total_time p <= total_time it -> wf_snapshot cur_snap -> wf_snapshot old_snap ->
     cpu_percent p' = Double.zero) /\
    cpu_formula 80 50 (Z.max 0 (1100 - 1000)) 2 = Double.of_Z 60 /\
    cpu_formula 50 80 (Z.max 0 (1100 - 1000)) 2 = Double.zero.
Proof.
  intros Hp Hit Htd. rewrite <- total_diff_max in *.
  eexists. split; [rewrite lookup_compute, Hp; reflexivity|].
  rewrite account_entry_cpu, Hit.
  replace (0 <? total_diff cur_snap old_snap) with true by (symmetry; apply Z.ltb_lt; exact Htd).
  split; [reflexivity|]. split; [|split; reflexivity].
  intros Hle (Hc & _ & _ & _ & Hn) (Ho & _).
  apply cpu_formula_clamped; [exact Hle | | lia].
  rewrite total_diff_max in *. unfold Mach.is_u64 in *. lia.
Qed.

(** The first scenario of the specification. *)
Lemma cpu_percent_of_matched_process_witness :
  exists p',
    compute_cpu_mem_percent 4 {[ 7 := proc_with 7 80 5 ]} {[ 7 := proc_with 7 50 5 ]}
                            (snap_with 1100 1000 2) (snap_with 1000 1000 2) !! 7 = Some p' /\
    cpu_percent p' = Double.of_Z 60.
Proof.
  destruct (cpu_percent_of_matched_process 4 {[ 7 := proc_with 7 80 5 ]}
              {[ 7 := proc_with 7 50 5 ]} (snap_with 1100 1000 2) (snap_with 1000 1000 2)
              7 (proc_with 7 80 5) (proc_with 7 50 5))
    as (p' & Hlook & Hcpu & _); [reflexivity | reflexivity | reflexivity |].
  exists p'. split; [exact Hlook | rewrite Hcpu; reflexivity].
Defined.

(** C3, amended.  When the system tick delta [max(0, current - previous)]
    is zero, every process gets [cpuPercent = 0.0], whatever its own ticks
    did; and whenever the delta of a valid snapshot pair is positive, the
    divisor of the CPU formula is a finite double of at least one, so the
    accountant never divides by zero. *)
Theorem cpu_percent_zero_without_tick_delta
    (psk : Z) (procs prev : gmap Z ProcInfo) (cur_snap old_snap : SystemSnapshot)
    (k : Z) (p' : ProcInfo) :
  compute_cpu_mem_percent psk procs prev cur_snap old_snap !! k = Some p' ->
  (Z.max 0 (total_jiffies cur_snap - total_jiffies old_snap) = 0 ->
   cpu_percent p' = Double.zero) /\
  (wf_snapshot cur_snap -> wf_snapshot old_snap ->
   0 < Z.max 0 (total_jiffies cur_snap - total_jiffies old_snap) ->
   exists (m : positive) (e : Z),
     Double.of_Z (total_diff cur_snap old_snap) = S754_finite false m e /\
     (1 <= B2R (Double.of_Z (total_diff cur_snap old_snap)))%R).
Proof.
  intros Hlook. rewrite <- total_diff_max. split.
  - intros Hz. rewrite lookup_compute in Hlook.
    destruct (procs !! k) as [p|]; [|discriminate]. injection Hlook as <-.
    rewrite account_entry_cpu, Hz. destruct (prev !! k); reflexivity.
  - intros (Hc & _) (Ho & _) Hpos. apply positive_counter_divisor.
    rewrite total_diff_max in *. unfold Mach.is_u64 in *. lia.
Qed.

(** The system counter stood still while the process counter moved. *)
Lemma cpu_percent_zero_without_tick_delta_witness :
  exists p',
    compute_cpu_mem_percent 4 {[ 7 := proc_with 7 80 5 ]} {[ 7 := proc_with 7 50 5 ]}
                            (snap_with 1000 1000 2) (snap_with 1000 1000 2) !! 7 = Some p' /\
    cpu_percent p' = Double.zero.
Proof.
  exists (account_entry 4 {[ 7 := proc_with 7 50 5 ]} (snap_with 1000 1000 2) 0 7
                        (proc_with 7 80 5)).
  split; [reflexivity|].
  apply (cpu_percent_zero_without_tick_delta 4 {[ 7 := proc_with 7 80 5 ]}
           {[ 7 := proc_with 7 50 5 ]} (snap_with 1000 1000 2) (snap_with 1000 1000 2) 7);
    reflexivity.
Defined.

(** The first pass of the loop is accounted like every other one, against
    the sample that [main] takes before the loop: the accountant is never
    run without a previous snapshot. *)
Lemma main_first_frame (psk rows : Z) (first obs : Observation) (rest : list Observation) :
  exists frames final,
    main psk rows first (obs :: rest) =
    (mkFrame (read_system_snapshot (obs_stat obs) (obs_meminfo obs) (obs_cpuinfo obs))
       (ranked true
          (compute_cpu_mem_percent psk (obs_procs obs) (obs_procs first)
             (read_system_snapshot (obs_stat obs) (obs_meminfo obs) (obs_cpuinfo obs))
             (read_system_snapshot (obs_stat first) (obs_meminfo first) (obs_cpuinfo first))))
       0 (rows - 3) :: frames, final).
Proof.
  unfold main, main_init. cbn [main_loop]. unfold cycle.
  cbn [prev_snap prev_procs sort_by_cpu offset refresh_interval].
  destruct (handle_key rows (obs_key obs) _ true 0) as [[b off]|].
  - destruct (main_loop psk rows _ rest) as [frames final]. eauto.
  - eauto.
Qed.

(** C3, as the specification states it, fails for the first cycle: its
    percentages are not zeroed.  With 50 ticks of the process and 1000 of
    the system in the sample taken before the loop, and 80 and 1100 in the
    first sample of the loop, on two processors, the first frame shows
    [60.0]. *)
Lemma first_cycle_cpu_percent_nonzero :
  exists f st p,
    main 4 13 (observe_proc 1000 50 ERR) [observe_proc 1100 80 ERR] = ([f], Some st) /\
    fr_plist f = [p] /\ pid p = 7 /\
    cpu_percent p = Double.of_Z 60 /\ cpu_percent p <> Double.zero.
Proof.
  do 3 eexists. split; [vm_compute; reflexivity|].
  split; [reflexivity|]. split; [reflexivity|]. split; [reflexivity | discriminate].
Qed.

(** C4. A process whose pid is in the current snapshot but not in the
    previous one gets [cpuPercent = 0.0] for the cycle. *)
Theorem cpu_percent_zero_for_new_process
    (psk : Z) (procs prev : gmap Z ProcInfo) (cur_snap old_snap : SystemSnapshot)
    (k : Z) (p : ProcInfo) :
  procs !! k = Some p ->
  prev !! k = None ->
  exists p',
    compute_cpu_mem_percent psk procs prev cur_snap old_snap !! k = Some p' /\
    cpu_percent p' = Double.zero.
Proof.
  intros Hp Hnone. eexists. split; [rewrite lookup_compute, Hp; reflexivity|].
  rewrite account_entry_cpu, Hnone. reflexivity.
Qed.

(** The scenario of the specification: a process seen only in the second
    sample, with 20 ticks. *)
Lemma cpu_percent_zero_for_new_process_witness :
  exists p',
    compute_cpu_mem_percent 4 {[ 7 := proc_with 7 80 5; 9 := proc_with 9 20 5 ]}
                            {[ 7 := proc_with 7 50 5 ]}
                            (snap_with 1100 1000 2) (snap_with 1000 1000 2) !! 9 = Some p' /\
    cpu_percent p' = Double.zero.
Proof.
  apply (cpu_percent_zero_for_new_process 4 _ _ _ _ 9 (proc_with 9 20 5)); reflexivity.
Defined.

(** ** Memory percentage *)

(** Without overflow in the [long] product the resident size is the
    plain product of pages and page size. *)
Lemma rss_kb_exact (psk : Z) (p : ProcInfo) :
  Mach.is_s64 (rss p * psk) -> rss_kb psk p = rss p * psk.
Proof.
  unfold Mach.is_s64, rss_kb, Mach.wrap_s64. intros H.
  rewrite Z.mod_small by lia. lia.
Qed.

(** C5. [memoryPercent] is [residentMemoryPages * pageSizeKB /
    totalMemoryKB * 100] when the total memory is positive and [0.0] when
    it is zero: a defined result in both cases, for every process.  The
    divisor of a valid snapshot with memory is a finite double of at least
    one. *)
Theorem mem_percent_formula
    (psk : Z) (procs prev : gmap Z ProcInfo) (cur_snap old_snap : SystemSnapshot)
    (k : Z) (p : ProcInfo) :
  procs !! k = Some p ->
  exists p',
    compute_cpu_mem_percent psk procs prev cur_snap old_snap !! k = Some p' /\
    (0 < mem_total_kb cur_snap ->
     mem_percent p' =
       Double.mul (Double.div (Double.of_Z (rss_kb psk p))
                              (Double.of_Z (mem_total_kb cur_snap)))
                  Double.hundred) /\
    (mem_total_kb cur_snap = 0 -> mem_percent p' = Double.zero) /\
    (0 <= mem_total_kb cur_snap -> Mach.is_s64 (rss p * psk) ->
     mem_percent p' = mem_formula (rss p * psk) (mem_total_kb cur_snap)) /\
    (wf_snapshot cur_snap -> 0 < mem_total_kb cur_snap ->
     (1 <= B2R (Double.of_Z (mem_total_kb cur_snap)))%R).
Proof.
  intros Hp. eexists. split; [rewrite lookup_compute, Hp; reflexivity|].
  rewrite account_entry_mem. unfold mem_formula.
  repeat split.
  - intros H. apply Z.ltb_lt in H. rewrite H. reflexivity.
  - intros H. rewrite H. reflexivity.
  - intros H Hov. rewrite (rss_kb_exact psk p Hov).
    destruct (Z.ltb_spec 0 (mem_total_kb cur_snap)),
      (Z.eqb_spec (mem_total_kb cur_snap) 0); try lia; reflexivity.
  - intros (_ & Hm & _) Hpos.
    destruct (positive_counter_divisor (mem_total_kb cur_snap)) as (m & e & _ & H1);
      [unfold Mach.is_u64 in Hm; lia | exact H1].
Qed.

(** The scenario of the specification, [totalMemoryKB = 0]. *)
Lemma mem_percent_formula_witness :
  exists p',
    compute_cpu_mem_percent 4 {[ 7 := proc_with 7 80 5 ]} {[ 7 := proc_with 7 50 5 ]}
                            (snap_with 1100 0 2) (snap_with 1000 0 2) !! 7 = Some p' /\
    mem_percent p' = Double.zero.
Proof.
  destruct (mem_percent_formula 4 {[ 7 := proc_with 7 80 5 ]} {[ 7 := proc_with 7 50 5 ]}
              (snap_with 1100 0 2) (snap_with 1000 0 2) 7 (proc_with 7 80 5))
    as (p' & Hlook & _ & Hzero & _); [reflexivity|].
  exists p'. split; [exact Hlook | apply Hzero; reflexivity].
Defined.

(** C10. [memoryPercent] depends on current data only: two runs that
    differ in the previous process map and the previous system snapshot
    agree on it, and a process absent from the previous snapshot still gets
    the full value of the formula while its [cpuPercent] is [0.0]. *)
Theorem mem_percent_independent_of_previous
    (psk : Z) (procs prev prev' : gmap Z ProcInfo)
    (cur_snap old_snap old_snap' : SystemSnapshot) (k : Z) (p : ProcInfo) :
  procs !! k = Some p ->
  exists a a',
    compute_cpu_mem_percent psk procs prev cur_snap old_snap !! k = Some a /\
    compute_cpu_mem_percent psk procs prev' cur_snap old_snap' !! k = Some a' /\
    mem_percent a = mem_percent a' /\
    (prev !! k = None ->
     cpu_percent a = Double.zero /\
     (0 < mem_total_kb cur_snap ->
      mem_percent a =
        Double.mul (Double.div (Double.of_Z (rss_kb psk p))
                               (Double.of_Z (mem_total_kb cur_snap)))
                   Double.hundred)).
Proof.
  intros Hp. do 2 eexists.
  split; [rewrite lookup_compute, Hp; reflexivity|].
  split; [rewrite lookup_compute, Hp; reflexivity|].
  rewrite !account_entry_mem, account_entry_cpu. split; [reflexivity|].
  intros ->. split; [reflexivity|].
  intros H. apply Z.ltb_lt in H. rewrite H. reflexivity.
Qed.

(** A new process with 5 resident pages of 4 kB on a machine with 1000 kB:
    [cpuPercent = 0.0] and [memoryPercent = 2.0]. *)
Lemma mem_percent_independent_of_previous_witness :
  exists a,
    compute_cpu_mem_percent 4 {[ 9 := proc_with 9 20 5 ]} {[ 7 := proc_with 7 50 5 ]}
                            (snap_with 1100 1000 2) (snap_with 1000 1000 2) !! 9 = Some a /\
    cpu_percent a = Double.zero /\ mem_percent a = Double.of_Z 2.
Proof.
  destruct (mem_percent_independent_of_previous 4 {[ 9 := proc_with 9 20 5 ]}
              {[ 7 := proc_with 7 50 5 ]} ∅ (snap_with 1100 1000 2) (snap_with 1000 1000 2)
              (snap_with 0 0 1) 9 (proc_with 9 20 5))
    as (a & a' & Hlook & _ & _ & Hnew); [reflexivity|].
  exists a. split; [exact Hlook|].
  destruct Hnew as [Hcpu Hmem]; [reflexivity|].
  split; [exact Hcpu | rewrite Hmem by reflexivity; reflexivity].
Defined.

(** ** Which processes are accounted *)

Lemma elem_of_sort_insert {A : Type} (comp : A -> A -> bool) (x y : A) (l : list A) :
  y ∈ sort_insert comp x l <-> y = x \/ y ∈ l.
Proof.
  induction l as [|z l IH]; cbn [sort_insert].
  - rewrite list_elem_of_singleton, elem_of_nil. tauto.
  - destruct (comp z x); rewrite !elem_of_cons; [rewrite IH|]; tauto.
Qed.

Lemma elem_of_std_sort {A : Type} (comp : A -> A -> bool) (y : A) (l : list A) :
  y ∈ std_sort comp l <-> y ∈ l.
Proof.
  unfold std_sort. induction l as [|x l IH]; cbn [fold_right]; [tauto|].
  rewrite elem_of_sort_insert, elem_of_cons, IH. tauto.
Qed.

Lemma length_sort_insert {A : Type} (comp : A -> A -> bool) (x : A) (l : list A) :
  length (sort_insert comp x l) = S (length l).
Proof.
  induction l as [|z l IH]; cbn [sort_insert]; [reflexivity|].
  destruct (comp z x); cbn [length]; [rewrite IH|]; reflexivity.
Qed.

Lemma length_std_sort {A : Type} (comp : A -> A -> bool) (l : list A) :
  length (std_sort comp l) = length l.
Proof.
  unfold std_sort. induction l as [|x l IH]; cbn [fold_right length]; [reflexivity|].
  rewrite length_sort_insert, IH. reflexivity.
Qed.

(** The ranked list holds the values of the accounted map, no more. *)
Lemma elem_of_ranked (b : bool) (m : gmap Z ProcInfo) (p' : ProcInfo) :
  p' ∈ ranked b m <-> exists k, m !! k = Some p'.
Proof.
  unfold ranked.
  assert (H : p' ∈ (in_key_order m).*2 <-> exists k, m !! k = Some p').
  { rewrite list_elem_of_fmap. split.
    - intros ([k x] & -> & Hin). exists k. apply elem_of_map_to_list.
      apply elem_of_std_sort in Hin. exact Hin.
    - intros [k Hk]. exists (k, p'). split; [reflexivity|].
      apply elem_of_std_sort, elem_of_map_to_list. exact Hk. }
  destruct b; rewrite elem_of_std_sort; exact H.
Qed.

(** The walk that fills [plist] goes up the pids. *)
Lemma in_key_order_ascending (m : gmap Z ProcInfo) :
  StronglySorted (fun a b : Z * ProcInfo => a.1 <= b.1) (in_key_order m).
Proof.
  unfold in_key_order, std_sort.
  induction (map_to_list m) as [|x l IH]; cbn [fold_right]; [constructor|].
  set (sorted := fold_right (sort_insert (fun a b : Z * ProcInfo => a.1 <? b.1)) [] l) in *.
  clearbody sorted. clear l.
  induction IH as [|y l Hl IH Hy]; cbn [sort_insert]; [repeat constructor|].
  rewrite List.Forall_forall in Hy.
  destruct (Z.ltb_spec y.1 x.1) as [Hlt|Hge].
  - constructor; [exact IH|]. apply List.Forall_forall. intros z Hz.
    apply list_elem_of_In, elem_of_sort_insert in Hz.
    destruct Hz as [->|Hz]; [lia | apply Hy, list_elem_of_In, Hz].
  - constructor; [constructor; [exact Hl | apply List.Forall_forall, Hy]|].
    constructor; [exact Hge|].
    apply List.Forall_forall. intros z Hz. specialize (Hy z Hz). lia.
Qed.

(** C6. A process that is in the previous snapshot but not in the
    current one is not in the accounted output: the accounted map has no
    entry under its pid, every ranked record is the accounted form of an
    entry of the current snapshot, and none of them carries that pid. *)
Theorem terminated_process_not_accounted
    (psk : Z) (procs prev : gmap Z ProcInfo) (cur_snap old_snap : SystemSnapshot) (k : Z) :
  procs !! k = None ->
  compute_cpu_mem_percent psk procs prev cur_snap old_snap !! k = None /\
  (forall (b : bool) (p' : ProcInfo),
      p' ∈ ranked b (compute_cpu_mem_percent psk procs prev cur_snap old_snap) ->
      exists k' p,
        procs !! k' = Some p /\
        p' = account_entry psk prev cur_snap (total_diff cur_snap old_snap) k' p) /\
  (keyed_by_pid procs ->
   forall (b : bool) (p' : ProcInfo),
     p' ∈ ranked b (compute_cpu_mem_percent psk procs prev cur_snap old_snap) ->
     pid p' <> k).
Proof.
  intros Hnone.
  assert (Hsrc : forall b p',
             p' ∈ ranked b (compute_cpu_mem_percent psk procs prev cur_snap old_snap) ->
             exists k' p,
               procs !! k' = Some p /\
               p' = account_entry psk prev cur_snap (total_diff cur_snap old_snap) k' p).
  { intros b p' [k' Hk']%elem_of_ranked. rewrite lookup_compute in Hk'.
    destruct (procs !! k') as [p|] eqn:Hp; [|discriminate]. injection Hk' as <-.
    exists k', p. split; [exact Hp | reflexivity]. }
  split; [rewrite lookup_compute, Hnone; reflexivity|]. split; [exact Hsrc|].
  intros Hkey b p' Hin. destruct (Hsrc b p' Hin) as (k' & p & Hp & ->).
  pose proof (account_entry_sampled_fields psk prev cur_snap
                (total_diff cur_snap old_snap) k' p) as Hf.
  assert (Hpid : pid (account_entry psk prev cur_snap (total_diff cur_snap old_snap) k' p)
                 = pid p) by (unfold sampled_fields in Hf; congruence).
  rewrite Hpid, (Hkey k' p Hp). intros ->. congruence.
Qed.

(** Process 8 ended between the two samples. *)
Lemma terminated_process_not_accounted_witness :
  compute_cpu_mem_percent 4 {[ 7 := proc_with 7 80 5 ]}
                          {[ 7 := proc_with 7 50 5; 8 := proc_with 8 10 5 ]}
                          (snap_with 1100 1000 2) (snap_with 1000 1000 2) !! 8 = None.
Proof.
  apply (terminated_process_not_accounted 4 {[ 7 := proc_with 7 80 5 ]}
           {[ 7 := proc_with 7 50 5; 8 := proc_with 8 10 5 ]}
           (snap_with 1100 1000 2) (snap_with 1000 1000 2) 8).
  reflexivity.
Defined.

(** Ranking by CPU puts the busier process first. *)
Example ranked_by_cpu_descending :
  cpu_percent <$>
    ranked true
      (compute_cpu_mem_percent 4 {[ 7 := proc_with 7 80 5; 9 := proc_with 9 20 5 ]}
                               {[ 7 := proc_with 7 50 5; 9 := proc_with 9 20 5 ]}
                               (snap_with 1100 1000 2) (snap_with 1000 1000 2))
  = [Double.of_Z 60; Double.zero].
Proof. reflexivity. Qed.

(** C9. The call leaves the previous process map and both system
    snapshots as they were, and in the current process map it keeps the
    set of pids and every sampled field of every entry: only [cpu_percent]
    and [mem_percent] are written. *)
Theorem accountant_frame (psk : Z) (r : Refs) :
  r_prev (call_compute_cpu_mem_percent psk r) = r_prev r /\
  r_cur_snap (call_compute_cpu_mem_percent psk r) = r_cur_snap r /\
  r_prev_snap (call_compute_cpu_mem_percent psk r) = r_prev_snap r /\
  dom (r_procs (call_compute_cpu_mem_percent psk r)) = dom (r_procs r) /\
  forall k : Z,
    sampled_fields <$> r_procs (call_compute_cpu_mem_percent psk r) !! k =
    sampled_fields <$> r_procs r !! k.
Proof.
  assert (Hlook : forall k : Z,
             sampled_fields <$> r_procs (call_compute_cpu_mem_percent psk r) !! k =
             sampled_fields <$> r_procs r !! k).
  { intros k. cbn [call_compute_cpu_mem_percent r_procs]. rewrite lookup_compute.
    destruct (r_procs r !! k) as [p|]; [|reflexivity].
    cbn. rewrite account_entry_sampled_fields. reflexivity. }
  repeat split; try reflexivity; [|exact Hlook].
  apply set_eq. intros k. rewrite !elem_of_dom. specialize (Hlook k).
  destruct (r_procs (call_compute_cpu_mem_percent psk r) !! k),
    (r_procs r !! k); cbn in Hlook; try discriminate;
    split; intros [? ?]; try discriminate; eauto.
Qed.

(** ** The sampler *)

Lemma wrap_s32_range (z : Z) : Mach.is_s32 (Mach.wrap_s32 z).
Proof.
  unfold Mach.is_s32, Mach.wrap_s32.
  pose proof (Z.mod_pos_bound (z + 2 ^ 31) (2 ^ 32) ltac:(lia)). lia.
Qed.

Lemma count_processors_range (cpuinfo : list string) : Mach.is_s32 (count_processors cpuinfo).
Proof.
  unfold count_processors.
  assert (H : forall acc, Mach.is_s32 acc ->
            Mach.is_s32 (fold_left (fun cpus line =>
                           if String.prefix "processor" line
                           then Mach.wrap_s32 (cpus + 1) else cpus) cpuinfo acc)).
  { induction cpuinfo as [|line rest IH]; intros acc Hacc; cbn [fold_left]; [exact Hacc|].
    apply IH. destruct (String.prefix "processor" line); [apply wrap_s32_range | exact Hacc]. }
  apply H. unfold Mach.is_s32. lia.
Qed.

(** C8. The processor count of a sampled snapshot is [max(1, cpus)],
    hence at least one (and an [int]); it is one when [/proc/cpuinfo] has
    no processor line and the count is zero. *)
Theorem num_cpus_at_least_one
    (stat_line : option (list Z)) (meminfo : list (string * Z)) (cpuinfo : list string) :
  num_cpus (read_system_snapshot stat_line meminfo cpuinfo)
    = Z.max 1 (count_processors cpuinfo) /\
  1 <= num_cpus (read_system_snapshot stat_line meminfo cpuinfo) < 2 ^ 31 /\
  count_processors [] = 0 /\
  num_cpus (read_system_snapshot stat_line meminfo []) = 1.
Proof.
  pose proof (count_processors_range cpuinfo) as Hr. unfold Mach.is_s32 in Hr.
  unfold read_system_snapshot. cbn [num_cpus]. repeat split; try reflexivity; lia.
Qed.

Lemma read_total_jiffies_range (stat_line : option (list Z)) :
  Mach.is_u64 (read_total_jiffies stat_line).
Proof.
  destruct stat_line as [vals|]; cbn [read_total_jiffies]; [|unfold Mach.is_u64; lia].
  assert (H : forall acc, Mach.is_u64 acc ->
            Mach.is_u64 (fold_left (fun total val => Mach.wrap_u64 (total + val)) vals acc)).
  { induction vals as [|v rest IH]; intros acc Hacc; cbn [fold_left]; [exact Hacc|].
    apply IH. unfold Mach.is_u64, Mach.wrap_u64. apply Z.mod_pos_bound. lia. }
  apply H. unfold Mach.is_u64. lia.
Qed.

(** What the sampler returns is a valid snapshot, as long as the values
    read from [/proc/meminfo] are [unsigned long]s. *)
Lemma read_system_snapshot_wf
    (stat_line : option (list Z)) (meminfo : list (string * Z)) (cpuinfo : list string) :
  Forall (fun kv => Mach.is_u64 kv.2) meminfo ->
  wf_snapshot (read_system_snapshot stat_line meminfo cpuinfo).
Proof.
  intros Hmem. unfold read_system_snapshot.
  set (s0 := mkSystemSnapshot (read_total_jiffies stat_line) _ _ _ _).
  assert (Hinv : forall s,
            (Mach.is_u64 (total_jiffies s) /\ Mach.is_u64 (mem_total_kb s) /\
             Mach.is_u64 (mem_free_kb s) /\ Mach.is_u64 (mem_available_kb s)) ->
            let s' := fold_left meminfo_step meminfo s in
            Mach.is_u64 (total_jiffies s') /\ Mach.is_u64 (mem_total_kb s') /\
            Mach.is_u64 (mem_free_kb s') /\ Mach.is_u64 (mem_available_kb s')).
  { induction Hmem as [|[key val] rest Hval _ IH]; intros s Hs; cbn [fold_left]; [exact Hs|].
    apply IH. destruct Hs as (H1 & H2 & H3 & H4). cbn in Hval. unfold meminfo_step.
    destruct (String.eqb key "MemTotal:"); [cbn; auto|].
    destruct (String.eqb key "MemFree:"); [cbn; auto|].
    destruct (String.eqb key "MemAvailable:"); cbn; auto. }
  destruct (Hinv s0) as (H1 & H2 & H3 & H4).
  { cbn. pose proof (read_total_jiffies_range stat_line). unfold Mach.is_u64 in *. lia. }
  pose proof (count_processors_range cpuinfo) as Hr. unfold Mach.is_s32 in Hr.
  unfold wf_snapshot. cbn [total_jiffies mem_total_kb mem_free_kb mem_available_kb num_cpus].
  repeat split; try apply H1; try apply H2; try apply H3; try apply H4; lia.
Qed.

(** ** Negative numbers *)

Lemma binary_round_aux_opp (prec emax : Z) (s : bool) (mx ex : Z) (lx : location) :
  binary_round_aux prec emax (negb s) mx ex lx = SFopp (binary_round_aux prec emax s mx ex lx).
Proof.
  unfold binary_round_aux.
  destruct (shr_fexp prec emax mx ex lx) as [mrs' e'].
  destruct (shr_fexp prec emax _ e' loc_Exact) as [mrs'' e''].
  destruct (shr_m mrs''); [reflexivity | | reflexivity].
  destruct (e'' <=? emax - prec); reflexivity.
Qed.

Lemma of_Z_opp (z : Z) : 0 < z -> Double.of_Z (- z) = SFopp (Double.of_Z z).
Proof.
  intros Hz. destruct z as [|p|p]; try lia.
  change (- Z.pos p) with (Z.neg p).
  unfold Double.of_Z, binary_normalize, binary_round.
  destruct (shl_align p 0 _) as [mz ez].
  apply (binary_round_aux_opp Double.prec Double.emax false).
Qed.

Lemma div_opp_l (x : spec_float) (my : positive) (ey : Z) :
  Double.div (SFopp x) (S754_finite false my ey)
  = SFopp (Double.div x (S754_finite false my ey)).
Proof.
  unfold Double.div, SFdiv. destruct x as [[]|[]| |s mx ex]; try reflexivity.
  cbn [SFopp]. destruct (SFdiv_core_binary _ _ _ _ _ _) as [[mz ez] lz].
  rewrite !xorb_false_r. apply binary_round_aux_opp.
Qed.

Lemma mul_opp_l (x : spec_float) :
  Double.mul (SFopp x) Double.hundred = SFopp (Double.mul x Double.hundred).
Proof.
  unfold Double.mul, Double.hundred, SFmul. destruct x as [[]|[]| |s mx ex]; try reflexivity.
  cbn [SFopp]. rewrite !xorb_false_r. apply binary_round_aux_opp.
Qed.

Lemma is_finite_opp (x : spec_float) : is_finite (SFopp x) = is_finite x.
Proof. destruct x; reflexivity. Qed.

Lemma B2R_opp (x : spec_float) : B2R (SFopp x) = (- B2R x)%R.
Proof.
  destruct x as [s|s| |s m e]; cbn [SFopp B2R]; try lra.
  unfold F2R. destruct s; cbn [negb cond_Zopp].
  - change (Z.neg m) with (- Z.pos m). rewrite opp_IZR. lra.
  - change (Z.neg m) with (- Z.pos m). rewrite opp_IZR. lra.
Qed.

(** A negative numerator: the quotient and its product by a hundred are
    the opposites of those of the absolute value. *)
Lemma ratio_percent_negative (a b : Z) :
  - 2 ^ 63 <= a < 0 -> 0 < b < 2 ^ 64 ->
  let v := Double.mul (Double.div (Double.of_Z a) (Double.of_Z b)) Double.hundred in
  is_finite v = true /\ (B2R v <= 0)%R.
Proof.
  intros Ha Hb v.
  destruct (positive_counter_divisor b Hb) as (m & e & Eb & _).
  destruct (ratio_percent_bounds (- a) b ltac:(lia) Hb) as (Hnn & _).
  destruct (nonneg_is_finite _ Hnn) as [Hfin Hpos].
  assert (Ev : v = SFopp (Double.mul (Double.div (Double.of_Z (- a)) (Double.of_Z b))
                                     Double.hundred)).
  { unfold v. replace a with (- (- a)) at 1 by lia.
    rewrite (of_Z_opp (- a)) by lia. rewrite Eb, div_opp_l, mul_opp_l. reflexivity. }
  rewrite Ev, is_finite_opp, B2R_opp. split; [exact Hfin | lra].
Qed.

(** ** The range of the percentages *)

(** C2, as the specification states it, fails on both sides.  The
    accountant does not clamp from above: a process that gained 500 ticks
    while the system gained 100 (the ticks of reaped children arrive at
    once) on one processor gets [500.0], and 1000 resident pages of 4 kB
    against 1000 kB of memory give [400.0].  Nor does it clamp the memory
    percentage from below: the resident size is a [long], and a record
    with [rss = -1] gets [-0.4]. *)
Lemma percentages_outside_range :
  wf_snapshot (snap_with 1100 1000 1) /\ wf_snapshot (snap_with 1000 1000 1) /\
  wf_proc (proc_with 7 500 1000) /\ wf_proc (proc_with 7 0 1000) /\
  wf_proc (proc_with 8 0 (-1)) /\
  (exists p',
     compute_cpu_mem_percent 4 {[ 7 := proc_with 7 500 1000 ]} {[ 7 := proc_with 7 0 1000 ]}
                             (snap_with 1100 1000 1) (snap_with 1000 1000 1) !! 7 = Some p' /\
     cpu_percent p' = Double.of_Z 500 /\
     mem_percent p' = Double.of_Z 400 /\
     ~ percent_in_range (num_cpus (snap_with 1100 1000 1)) p') /\
  (exists p',
     compute_cpu_mem_percent 4 {[ 8 := proc_with 8 0 (-1) ]} {[ 8 := proc_with 8 0 (-1) ]}
                             (snap_with 1100 1000 1) (snap_with 1000 1000 1) !! 8 = Some p' /\
     mem_percent p' = S754_finite true 7205759403792794 (-54) /\
     (B2R (mem_percent p') < 0)%R /\
     ~ percent_in_range (num_cpus (snap_with 1100 1000 1)) p').
Proof.
  repeat (split; [solve_wf|]).
  assert (Hneg : (B2R (S754_finite true 7205759403792794 (-54)) < 0)%R).
  { cbn [B2R cond_Zopp]. unfold F2R. pose proof (bpow_pos (-54)) as Hb.
    assert (Hm : (IZR (- Z.pos 7205759403792794) < 0)%R) by (apply IZR_lt; lia).
    nra. }
  split.
  - eexists. split; [reflexivity|]. split; [reflexivity|]. split; [reflexivity|].
    intros [[_ [_ Hcpu]] _]. revert Hcpu.
    change (cpu_percent _) with (S754_finite false (500 * 2 ^ 44) (-44)).
    cbn [B2R cond_Zopp]. change (Z.pos (500 * 2 ^ 44)) with (500 * 2 ^ 44).
    rewrite (F2R_pow2 500 44 (-44)) by lia.
    change (500 * 2 ^ (-44 + 44)) with 500. cbn [num_cpus snap_with]. lra.
  - eexists. split; [reflexivity|].
    change (mem_percent _) with (S754_finite true 7205759403792794 (-54)).
    split; [reflexivity|]. split; [exact Hneg|].
    intros [_ [_ [Hmem _]]].
    change (mem_percent _) with (S754_finite true 7205759403792794 (-54)) in Hmem. lra.
Qed.

(** C2, amended.  On valid snapshots and records both percentages of an
    accounted process are finite, and
    - [cpuPercent >= 0] always, and [cpuPercent <= 100 * cpuCount] when the
      clamped tick delta of the process does not exceed that of the system;
    - [memoryPercent >= 0] when the resident size in kB is not negative,
      [memoryPercent <= 0] when it is negative, and [memoryPercent <= 100]
      when it is neither negative nor above the total memory. *)
Theorem accounted_percent_bounds
    (psk : Z) (procs prev : gmap Z ProcInfo) (cur_snap old_snap : SystemSnapshot)
    (k : Z) (p p' : ProcInfo) :
  wf_snapshot cur_snap -> wf_snapshot old_snap ->
  procs !! k = Some p -> wf_proc p ->
  (forall it, prev !! k = Some it -> wf_proc it) ->
  compute_cpu_mem_percent psk procs prev cur_snap old_snap !! k = Some p' ->
  (is_finite (cpu_percent p') = true /\ (0 <= B2R (cpu_percent p'))%R) /\
  ((forall it, prev !! k = Some it ->
      Z.max 0 (total_time p - total_time it)
      <= Z.max 0 (total_jiffies cur_snap - total_jiffies old_snap)) ->
   (B2R (cpu_percent p') <= 100 * IZR (num_cpus cur_snap))%R) /\
  (is_finite (mem_percent p') = true /\
   (0 <= rss_kb psk p -> (0 <= B2R (mem_percent p'))%R) /\
   (rss_kb psk p < 0 -> (B2R (mem_percent p') <= 0)%R)) /\
  (0 <= rss_kb psk p <= mem_total_kb cur_snap ->
   (B2R (mem_percent p') <= 100)%R) /\
  ((forall it, prev !! k = Some it ->
      Z.max 0 (total_time p - total_time it)
      <= Z.max 0 (total_jiffies cur_snap - total_jiffies old_snap)) ->
   0 <= rss_kb psk p <= mem_total_kb cur_snap ->
   percent_in_range (num_cpus cur_snap) p').
Proof.
  intros Hcur Hold Hp Hwf Hprev Hlook.
  rewrite lookup_compute, Hp in Hlook. injection Hlook as <-.
  destruct Hcur as (Hcj & Hcm & _ & _ & Hcn). destruct Hold as (Hoj & _).
  destruct Hwf as (_ & _ & _ & _ & _ & Htt & _).
  unfold Mach.is_u64 in *.
  assert (Hn1 : (1 <= IZR (num_cpus cur_snap))%R) by (apply IZR_le; lia).
  rewrite <- total_diff_max.
  set (td := total_diff cur_snap old_snap).
  assert (Htd : 0 <= td < 2 ^ 64) by (unfold td; rewrite total_diff_max; lia).
  (* the CPU percentage *)
  assert (Hcpu : (is_finite (cpu_percent (account_entry psk prev cur_snap td k p)) = true /\
                  (0 <= B2R (cpu_percent (account_entry psk prev cur_snap td k p)))%R) /\
                 ((forall it, prev !! k = Some it ->
                     Z.max 0 (total_time p - total_time it) <= td) ->
                  (B2R (cpu_percent (account_entry psk prev cur_snap td k p))
                   <= 100 * IZR (num_cpus cur_snap))%R)).
  { rewrite account_entry_cpu.
    destruct (prev !! k) as [it|] eqn:Hit;
      [destruct (Z.ltb_spec 0 td) as [Hpos|Hzero]|];
      try (cbn; split; [split; [reflexivity|lra] | intros _; lra]).
    destruct (Hprev it eq_refl) as (_ & _ & _ & _ & _ & Hit_tt & _).
    unfold Mach.is_u64 in Hit_tt.
    destruct (cpu_percent_bounds (Z.max 0 (total_time p - total_time it)) td
                (num_cpus cur_snap) ltac:(lia) ltac:(lia) Hcn) as [Hnn Hle].
    fold (cpu_formula (total_time p) (total_time it) td (num_cpus cur_snap)) in Hnn, Hle.
    split; [apply nonneg_is_finite, Hnn|].
    intros Hcond. apply Hle, (Hcond it eq_refl). }
  (* the memory percentage *)
  assert (Hrss : - 2 ^ 63 <= rss_kb psk p < 2 ^ 63).
  { unfold rss_kb, Mach.wrap_s64.
    pose proof (Z.mod_pos_bound (rss p * psk + 2 ^ 63) (2 ^ 64) ltac:(lia)). lia. }
  assert (Hmem : (is_finite (mem_percent (account_entry psk prev cur_snap td k p)) = true /\
                  (0 <= rss_kb psk p ->
                   (0 <= B2R (mem_percent (account_entry psk prev cur_snap td k p)))%R) /\
                  (rss_kb psk p < 0 ->
                   (B2R (mem_percent (account_entry psk prev cur_snap td k p)) <= 0)%R)) /\
                 (0 <= rss_kb psk p <= mem_total_kb cur_snap ->
                  (B2R (mem_percent (account_entry psk prev cur_snap td k p)) <= 100)%R)).
  { rewrite account_entry_mem.
    destruct (Z.ltb_spec 0 (mem_total_kb cur_snap)) as [Hpos|Hzero];
      [|cbn; split; [split; [reflexivity | split; intros _; lra] | intros _; lra]].
    destruct (Z.lt_ge_cases (rss_kb psk p) 0) as [Hneg|Hnn0].
    - destruct (ratio_percent_negative (rss_kb psk p) (mem_total_kb cur_snap)
                  ltac:(lia) ltac:(lia)) as [Hf Hle].
      split; [split; [exact Hf | split; [intros H0; lia | intros _; exact Hle]]
             | intros [H0 _]; lia].
    - destruct (ratio_percent_bounds (rss_kb psk p) (mem_total_kb cur_snap)
                  ltac:(lia) ltac:(lia)) as (Hnn & _ & H100).
      destruct (nonneg_is_finite _ Hnn) as [Hf Hge].
      split; [split; [exact Hf | split; [intros _; exact Hge | intros H0; lia]]
             | intros [_ Hle]; apply H100, Hle]. }
  destruct Hcpu as [Hc1 Hc2]. destruct Hmem as [Hm1 Hm2].
  split; [exact Hc1|]. split; [exact Hc2|]. split; [exact Hm1|]. split; [exact Hm2|].
  intros Hticks Hres. unfold percent_in_range.
  destruct Hc1 as [Hf1 Hp1]. destruct Hm1 as (Hf2 & Hp2 & _).
  specialize (Hc2 Hticks). specialize (Hm2 Hres). specialize (Hp2 ltac:(lia)).
  repeat split; assumption.
Qed.

(** The first scenario of the specification lies in the range. *)
Lemma accounted_percent_bounds_witness :
  exists p',
    compute_cpu_mem_percent 4 {[ 7 := proc_with 7 80 5 ]} {[ 7 := proc_with 7 50 5 ]}
                            (snap_with 1100 1000 2) (snap_with 1000 1000 2) !! 7 = Some p' /\
    percent_in_range 2 p'.
Proof.
  eexists. split; [reflexivity|].
  apply (accounted_percent_bounds 4 {[ 7 := proc_with 7 80 5 ]} {[ 7 := proc_with 7 50 5 ]}
           (snap_with 1100 1000 2) (snap_with 1000 1000 2) 7 (proc_with 7 80 5)).
  - solve_wf.
  - solve_wf.
  - reflexivity.
  - solve_wf.
  - intros it Hit. rewrite lookup_singleton_eq in Hit. injection Hit as <-. solve_wf.
  - reflexivity.
  - intros it Hit. rewrite lookup_singleton_eq in Hit. injection Hit as <-. cbn. lia.
  - vm_compute. split; discriminate.
Defined.

(** ** Pagination *)

(** X1. What the guards of the key handler do keep: an offset within the
    bound of the list at hand stays within the bound of that list. *)
Lemma handle_key_keeps_bound
    (rows ch : Z) (count : nat) (by_cpu_first by_cpu_first' : bool) (off off' : Z) :
  3 <= rows < 2 ^ 31 -> Z.of_nat count < 2 ^ 31 ->
  0 <= off <= Z.max 0 (Z.of_nat count - (rows - 3)) ->
  handle_key rows ch count by_cpu_first off = Some (by_cpu_first', off') ->
  0 <= off' <= Z.max 0 (Z.of_nat count - (rows - 3)).
Proof.
  intros Hrows Hcount Hoff. unfold handle_key.
  assert (Hw : forall z, - 2 ^ 31 <= z < 2 ^ 31 -> Mach.wrap_s32 z = z).
  { intros z Hz. unfold Mach.wrap_s32.
    rewrite Z.mod_small by lia. lia. }
  rewrite (Hw (off + (rows - 3))), (Hw (Z.of_nat count)) by lia.
  destruct (negb (ch =? ERR)); [|intros [= <- <-]; exact Hoff].
  destruct ((ch =? key_q) || (ch =? key_Q)); [discriminate|].
  destruct ((ch =? key_s) || (ch =? key_S)); [intros [= <- <-]; exact Hoff|].
  destruct (ch =? KEY_DOWN); cbn [andb].
  - destruct (Z.ltb_spec (off + (rows - 3)) (Z.of_nat count));
      [rewrite ?Hw by lia; intros [= <- <-]; lia|].
    destruct (ch =? KEY_UP); cbn [andb]; [|intros [= <- <-]; exact Hoff].
    destruct (Z.ltb_spec 0 off); rewrite ?Hw by lia; intros [= <- <-]; lia.
  - destruct (ch =? KEY_UP); cbn [andb]; [|intros [= <- <-]; exact Hoff].
    destruct (Z.ltb_spec 0 off); rewrite ?Hw by lia; intros [= <- <-]; lia.
Qed.

Lemma handle_key_keeps_bound_witness : 0 <= 1 <= Z.max 0 (Z.of_nat 12 - (13 - 3)).
Proof.
  apply (handle_key_keeps_bound 13 KEY_DOWN 12 true true 0 1); [lia | lia | lia | reflexivity].
Defined.

(** The part of the bound that the loop does keep: the offset never
    goes negative (and never leaves the range of [int]). *)
Lemma handle_key_offset_nonneg
    (rows ch : Z) (count : nat) (by_cpu_first by_cpu_first' : bool) (off off' : Z) :
  3 <= rows < 2 ^ 31 ->
  0 <= off /\ off + (rows - 3) < 2 ^ 31 ->
  handle_key rows ch count by_cpu_first off = Some (by_cpu_first', off') ->
  0 <= off' /\ off' + (rows - 3) < 2 ^ 31.
Proof.
  intros Hrows Hoff. unfold handle_key.
  assert (Hw : forall z, - 2 ^ 31 <= z < 2 ^ 31 -> Mach.wrap_s32 z = z).
  { intros z Hz. unfold Mach.wrap_s32. rewrite Z.mod_small by lia. lia. }
  pose proof (wrap_s32_range (Z.of_nat count)) as Hc. unfold Mach.is_s32 in Hc.
  rewrite (Hw (off + (rows - 3))) by lia.
  destruct (negb (ch =? ERR)); [|intros [= <- <-]; exact Hoff].
  destruct ((ch =? key_q) || (ch =? key_Q)); [discriminate|].
  destruct ((ch =? key_s) || (ch =? key_S)); [intros [= <- <-]; exact Hoff|].
  destruct (ch =? KEY_DOWN); cbn [andb].
  - destruct (Z.ltb_spec (off + (rows - 3)) (Mach.wrap_s32 (Z.of_nat count)));
      [rewrite ?Hw by lia; intros [= <- <-]; lia|].
    destruct (ch =? KEY_UP); cbn [andb]; [|intros [= <- <-]; exact Hoff].
    destruct (Z.ltb_spec 0 off); rewrite ?Hw by lia; intros [= <- <-]; lia.
  - destruct (ch =? KEY_UP); cbn [andb]; [|intros [= <- <-]; exact Hoff].
    destruct (Z.ltb_spec 0 off); rewrite ?Hw by lia; intros [= <- <-]; lia.
Qed.

(** X2. Through the loop the offset never becomes negative: no frame is
    drawn from a negative start, on a screen of at least three rows. *)
Lemma main_loop_offset_nonneg (psk rows : Z) (obss : list Observation) :
  3 <= rows < 2 ^ 31 ->
  forall (st : LoopState) (frames : list Frame) (final : option LoopState),
    0 <= offset st /\ offset st + (rows - 3) < 2 ^ 31 ->
    main_loop psk rows st obss = (frames, final) ->
    Forall (fun f => 0 <= fr_start f) frames /\
    (forall st', final = Some st' -> 0 <= offset st').
Proof.
  intros Hrows. induction obss as [|obs rest IH]; intros st frames final Hst; cbn [main_loop].
  - intros [= <- <-]. split; [constructor|]. intros st' [= <-]. apply Hst.
  - unfold cycle.
    destruct (handle_key rows (obs_key obs) _ (sort_by_cpu st) (offset st))
      as [[b off']|] eqn:Hk.
    + apply (handle_key_offset_nonneg rows _ _ _ _ _ _ Hrows Hst) in Hk.
      match goal with |- context [main_loop psk rows ?s rest] =>
        destruct (main_loop psk rows s rest) as [frames' final'] eqn:Hrest;
        destruct (IH s frames' final' Hk Hrest) as [Hf Hfin] end.
      intros [= <- <-]. split; [|exact Hfin].
      constructor; [cbn; apply Hst | exact Hf].
    + intros [= <- <-]. split; [|discriminate].
      constructor; [cbn; apply Hst | constructor].
Qed.

Lemma main_loop_offset_nonneg_witness :
  Forall (fun f => 0 <= fr_start f)
    (main_loop 4 13 (main_init (observe 1000 12 ERR))
       [observe 1100 12 KEY_DOWN; observe 1200 12 KEY_UP; observe 1300 12 KEY_UP]).1.
Proof.
  apply (main_loop_offset_nonneg 4 13
           [observe 1100 12 KEY_DOWN; observe 1200 12 KEY_UP; observe 1300 12 KEY_UP]
           ltac:(lia) (main_init (observe 1000 12 ERR)) _
           (main_loop 4 13 (main_init (observe 1000 12 ERR))
              [observe 1100 12 KEY_DOWN; observe 1200 12 KEY_UP; observe 1300 12 KEY_UP]).2).
  - cbn. lia.
  - apply surjective_pairing.
Defined.

(** C7 does not hold of the loop: the offset is only adjusted when a key
    arrives and is never fitted to a shorter list.  On a screen of 13 rows
    (a window of 10) with 12 processes, two presses of the down key move
    the offset to 2; when the next sample has 2 processes the frame is
    drawn from offset 2: beyond [max(0, 2 - 10) = 0], past the last entry,
    and the window is empty. *)
Theorem offset_stale_after_shrink :
  exists f1 f2 f3 st,
    main 4 13 (observe 1000 12 ERR)
         [observe 1100 12 KEY_DOWN; observe 1200 12 KEY_DOWN; observe 1300 2 ERR]
      = ([f1; f2; f3], Some st) /\
    offset_in_bounds f1 /\ offset_in_bounds f2 /\
    length (fr_plist f3) = 2%nat /\ fr_height f3 = 10 /\ fr_start f3 = 2 /\
    ~ offset_in_bounds f3 /\
    window f3 = [] /\
    offset st = 2.
Proof.
  do 4 eexists. split; [vm_compute; reflexivity|].
  unfold offset_in_bounds. cbn [fr_start fr_plist fr_height length].
  repeat split; try reflexivity; try lia.
Qed.

(** * Part IV: the sampler on text *)

(** ** Strings *)

Lemma string_app_nil_l (t : string) : ("" ++ t)%string = t.
Proof. reflexivity. Qed.

Lemma string_app_cons (c : ascii) (s t : string) :
  (String c s ++ t)%string = String c (s ++ t).
Proof. reflexivity. Qed.

Lemma chars_app (s t : string) :
  list_ascii_of_string (s ++ t) = list_ascii_of_string s ++ list_ascii_of_string t.
Proof.
  induction s as [|c s IH]; [reflexivity|].
  rewrite string_app_cons. cbn [list_ascii_of_string app]. rewrite IH. reflexivity.
Qed.

Lemma string_app_nil_r (s : string) : (s ++ "")%string = s.
Proof.
  induction s as [|c s IH]; [reflexivity | rewrite string_app_cons, IH; reflexivity].
Qed.

Lemma string_app_assoc (s t u : string) : ((s ++ t) ++ u)%string = (s ++ (t ++ u))%string.
Proof.
  induction s as [|c s IH]; [reflexivity | rewrite !string_app_cons, IH; reflexivity].
Qed.

Lemma string_length_app (s t : string) :
  String.length (s ++ t) = (String.length s + String.length t)%nat.
Proof.
  induction s as [|c s IH]; [reflexivity|].
  rewrite string_app_cons. cbn [String.length Nat.add]. rewrite IH. reflexivity.
Qed.

Lemma string_eqb_empty (s : string) : String.eqb s "" = true <-> s = EmptyString.
Proof. apply String.eqb_eq. Qed.

(** ** [split] *)

Lemma split_loop_clean (delim : ascii) (s : string) : forall item : string,
  ~ In delim (list_ascii_of_string item) ->
  Forall (fun t => t <> EmptyString /\ ~ In delim (list_ascii_of_string t))
         (split_loop delim s item).
Proof.
  induction s as [|c s IH]; intros item Hitem; cbn [split_loop].
  - destruct (String.eqb_spec item ""); constructor; [split; assumption | constructor].
  - destruct (Ascii.eqb_spec c delim) as [->|Hc].
    + destruct (String.eqb_spec item ""); [apply IH; cbn; tauto|].
      constructor; [split; assumption | apply IH; cbn; tauto].
    + apply IH. rewrite chars_app, in_app_iff. cbn. intros [H|[H|[]]]; [tauto | congruence].
Qed.

Lemma split_loop_chars (delim : ascii) (s : string) : forall item : string,
  list_ascii_of_string (String.concat "" (split_loop delim s item)) =
  list_ascii_of_string item
    ++ List.filter (fun c => negb (Ascii.eqb c delim)) (list_ascii_of_string s).
Proof.
  assert (Hcons : forall t l, String.concat "" (t :: l) = (t ++ String.concat "" l)%string).
  { intros t [|u l]; cbn; [rewrite string_app_nil_r|]; reflexivity. }
  induction s as [|c s IH]; intros item; cbn [split_loop list_ascii_of_string List.filter].
  - rewrite app_nil_r. destruct (String.eqb_spec item "") as [->|]; [reflexivity|].
    cbn. reflexivity.
  - destruct (Ascii.eqb_spec c delim) as [->|Hc]; cbn [negb].
    + destruct (String.eqb_spec item "") as [->|].
      * rewrite IH. reflexivity.
      * rewrite Hcons, chars_app, IH. reflexivity.
    + rewrite IH, chars_app. cbn. rewrite <- app_assoc. reflexivity.
Qed.

Lemma split_loop_token (delim : ascii) (t rest : string) : forall item : string,
  ~ In delim (list_ascii_of_string t) ->
  split_loop delim (t ++ rest) item = split_loop delim rest (item ++ t).
Proof.
  induction t as [|c t IH]; intros item Ht.
  - rewrite string_app_nil_r. reflexivity.
  - rewrite string_app_cons. cbn [split_loop]. cbn in Ht. destruct (Ascii.eqb_spec c delim) as [->|Hc]; [tauto|].
    rewrite IH by tauto. rewrite string_app_assoc. reflexivity.
Qed.

Lemma split_concat_tokens (delim : ascii) (toks : list string) :
  Forall (fun t => t <> EmptyString /\ ~ In delim (list_ascii_of_string t)) toks ->
  split (String.concat (String delim "") toks) delim = toks.
Proof.
  unfold split. induction 1 as [|t toks [Hne Hd] Htoks IH]; [reflexivity|].
  destruct toks as [|u toks].
  - cbn [String.concat]. rewrite <- (string_app_nil_r t) at 1.
    rewrite split_loop_token by assumption. rewrite string_app_nil_l. cbn [split_loop].
    destruct (String.eqb_spec t ""); [contradiction | reflexivity].
  - change (String.concat (String delim "") (t :: u :: toks))
      with (t ++ (String delim "" ++ String.concat (String delim "") (u :: toks)))%string.
    rewrite split_loop_token by assumption. rewrite string_app_cons. cbn [split_loop].
    rewrite Ascii.eqb_refl, !string_app_nil_l.
    destruct (String.eqb_spec t ""); [contradiction|]. rewrite IH. reflexivity.
Qed.

(** X3. [split] returns no empty token and no token that holds the
    delimiter. *)
Theorem split_tokens_clean (s : string) (delim : ascii) :
  Forall (fun t => t <> EmptyString /\ ~ In delim (list_ascii_of_string t)) (split s delim).
Proof. unfold split. apply split_loop_clean. intros []. Qed.

(** X4. [split] loses nothing but the delimiters: the tokens in a row
    are the text without them. *)
Theorem split_keeps_characters (s : string) (delim : ascii) :
  list_ascii_of_string (String.concat "" (split s delim))
  = List.filter (fun c => negb (Ascii.eqb c delim)) (list_ascii_of_string s).
Proof. unfold split. rewrite split_loop_chars. reflexivity. Qed.

(** ** Numbers in decimal *)

Lemma read_digits_stop (rest : string) (v : Z) (b : bool) :
  stops_digits rest -> read_digits rest v b = (v, b, rest).
Proof. destruct rest as [|c rest]; cbn; [reflexivity | intros ->; reflexivity]. Qed.

Lemma read_digits_uint_acc (rest : string) (Hrest : stops_digits rest) (d : Decimal.uint) :
  forall p : positive,
    read_digits (NilEmpty.string_of_uint d ++ rest) (Z.pos p) true =
    (Z.pos (Pos.of_uint_acc d p), true, rest).
Proof.
  induction d as [|d IH|d IH|d IH|d IH|d IH|d IH|d IH|d IH|d IH|d IH]; intros p;
    cbn [NilEmpty.string_of_uint Pos.of_uint_acc];
    [rewrite string_app_nil_l; apply read_digits_stop, Hrest|..];
    rewrite string_app_cons; cbn [read_digits];
    match goal with |- context [isdigit ?c] => change (isdigit c) with true; cbv iota end;
    rewrite <- IH; f_equal; vm_compute digit_value; lia.
Qed.

Lemma read_digits_uint (rest : string) (Hrest : stops_digits rest) (d : Decimal.uint) :
  read_digits (NilEmpty.string_of_uint d ++ rest) 0 true =
  (Z.of_N (Pos.of_uint d), true, rest).
Proof.
  induction d as [|d IH|d IH|d IH|d IH|d IH|d IH|d IH|d IH|d IH|d IH];
    cbn [NilEmpty.string_of_uint Pos.of_uint];
    [rewrite string_app_nil_l; apply read_digits_stop, Hrest|..];
    rewrite string_app_cons; cbn [read_digits];
    match goal with |- context [isdigit ?c] => change (isdigit c) with true; cbv iota end;
    [exact IH|..]; cbn [Z.of_N];
    match goal with |- context [Pos.of_uint_acc d ?k] =>
      rewrite <- (read_digits_uint_acc rest Hrest d k) end;
    reflexivity.
Qed.

Lemma read_digits_uint_first (rest : string) (Hrest : stops_digits rest) (d : Decimal.uint) :
  d <> Decimal.Nil ->
  read_digits (NilEmpty.string_of_uint d ++ rest) 0 false =
  (Z.of_N (Pos.of_uint d), true, rest).
Proof.
  intros Hd. rewrite <- (read_digits_uint rest Hrest d).
  destruct d; try contradiction; reflexivity.
Qed.

Lemma isdigit_facts (c : ascii) :
  isdigit c = true ->
  isspace c = false /\ Ascii.eqb c "-" = false /\ Ascii.eqb c "+" = false /\
  Ascii.eqb c ")" = false /\ Ascii.eqb c "(" = false /\
  Ascii.eqb c "010" = false /\ Ascii.eqb c "000" = false /\ 0 <= digit_value c <= 9.
Proof.
  destruct c as [[] [] [] [] [] [] [] []]; vm_compute; intros H; try discriminate H;
    repeat split; discriminate.
Qed.

Lemma uint_string_head (d : Decimal.uint) :
  d <> Decimal.Nil ->
  exists c s, NilEmpty.string_of_uint d = String c s /\ isdigit c = true.
Proof. destruct d; try contradiction; intros _; cbn; eauto. Qed.

Lemma uint_string_digits (d : Decimal.uint) :
  Forall (fun c => isdigit c = true) (list_ascii_of_string (NilEmpty.string_of_uint d)).
Proof. induction d; cbn; constructor; (reflexivity || assumption). Qed.

Lemma scan_integer_uint (d : Decimal.uint) (rest : string) :
  d <> Decimal.Nil -> stops_digits rest ->
  scan_integer (NilEmpty.string_of_uint d ++ rest) = Some (false, Z.of_N (Pos.of_uint d), rest).
Proof.
  intros Hd Hrest. unfold scan_integer.
  destruct (uint_string_head d Hd) as (c & s & E & Hc).
  destruct (isdigit_facts c Hc) as (Hs & Hm & Hp & _).
  assert (Hskip : skip_space (NilEmpty.string_of_uint d ++ rest)
                  = (NilEmpty.string_of_uint d ++ rest)%string).
  { rewrite E, string_app_cons. cbn [skip_space]. rewrite Hs. reflexivity. }
  rewrite Hskip. rewrite E at 1. rewrite string_app_cons, Hm, Hp.
  rewrite read_digits_uint_first by assumption. reflexivity.
Qed.

Lemma string_of_uint_nonnil (d : Decimal.uint) :
  d <> Decimal.Nil -> NilZero.string_of_uint d = NilEmpty.string_of_uint d.
Proof. destruct d; [contradiction | reflexivity..]. Qed.

(** Scanning the decimal rendering of [z] gives back its sign and
    magnitude. *)
Lemma scan_integer_to_string (z : Z) (rest : string) :
  stops_digits rest ->
  scan_integer (to_string z ++ rest) = Some (z <? 0, Z.abs z, rest).
Proof.
  intros Hrest. unfold to_string. destruct z as [|p|p]; cbn [Z.to_int NilZero.string_of_int].
  - change (NilZero.string_of_uint Decimal.zero)
      with (NilEmpty.string_of_uint (Decimal.D0 Decimal.Nil)).
    rewrite scan_integer_uint by (assumption || discriminate). reflexivity.
  - pose proof (DecimalPos.Unsigned.to_uint_nonnil p) as Hn.
    rewrite (string_of_uint_nonnil _ Hn).
    rewrite scan_integer_uint by assumption.
    rewrite DecimalPos.Unsigned.of_to. reflexivity.
  - pose proof (DecimalPos.Unsigned.to_uint_nonnil p) as Hn.
    rewrite (string_of_uint_nonnil _ Hn).
    unfold scan_integer. rewrite string_app_cons. cbn [skip_space].
    change (isspace "-") with false. cbv iota. change (Ascii.eqb "-" "-") with true. cbv iota.
    rewrite read_digits_uint_first by assumption.
    rewrite DecimalPos.Unsigned.of_to. reflexivity.
Qed.

Lemma stoul_to_string (z : Z) : 0 <= z < 2 ^ 64 -> stoul (to_string z) = inr z.
Proof.
  intros Hz. unfold stoul. rewrite <- (string_app_nil_r (to_string z)).
  rewrite scan_integer_to_string by exact I.
  replace (z <? 0) with false by (symmetry; apply Z.ltb_ge; lia).
  rewrite Z.abs_eq by lia.
  replace (z <=? 2 ^ 64 - 1) with true by (symmetry; apply Z.leb_le; lia). reflexivity.
Qed.

Lemma stol_to_string (z : Z) : - 2 ^ 63 <= z < 2 ^ 63 -> stol (to_string z) = inr z.
Proof.
  intros Hz. unfold stol. rewrite <- (string_app_nil_r (to_string z)).
  rewrite scan_integer_to_string by exact I.
  destruct (Z.ltb_spec z 0).
  - replace (Z.abs z <=? 2 ^ 63) with true by (symmetry; apply Z.leb_le; lia).
    f_equal. lia.
  - replace (Z.abs z <=? 2 ^ 63 - 1) with true by (symmetry; apply Z.leb_le; lia).
    f_equal. lia.
Qed.

Lemma atoi_to_string (z : Z) : - 2 ^ 31 <= z < 2 ^ 31 -> atoi (to_string z) = z.
Proof.
  intros Hz. unfold atoi. rewrite <- (string_app_nil_r (to_string z)).
  rewrite scan_integer_to_string by exact I.
  assert (Hw : forall x, - 2 ^ 31 <= x < 2 ^ 31 -> Mach.wrap_s32 x = x).
  { intros x Hx. unfold Mach.wrap_s32. rewrite Z.mod_small by lia. lia. }
  destruct (Z.ltb_spec z 0); rewrite Hw; lia.
Qed.

Lemma extract_ulong_to_string (z : Z) (rest : string) :
  0 <= z < 2 ^ 64 -> stops_digits rest ->
  extract_ulong (to_string z ++ rest) = Some (z, rest).
Proof.
  intros Hz Hrest. unfold extract_ulong. rewrite scan_integer_to_string by assumption.
  replace (z <? 0) with false by (symmetry; apply Z.ltb_ge; lia).
  rewrite Z.abs_eq by lia.
  replace (z <=? 2 ^ 64 - 1) with true by (symmetry; apply Z.leb_le; lia). reflexivity.
Qed.

(** The characters of a rendered number are digits, after a minus sign
    for a negative one. *)
Lemma to_string_chars (z : Z) :
  to_string z <> EmptyString /\
  Forall (fun c => isdigit c = true \/ c = "-"%char) (list_ascii_of_string (to_string z)).
Proof.
  assert (Hu : forall d, NilZero.string_of_uint d <> EmptyString /\
                 Forall (fun c => isdigit c = true \/ c = "-"%char)
                        (list_ascii_of_string (NilZero.string_of_uint d))).
  { intros d. split; [destruct d; discriminate|].
    destruct d eqn:E;
      [cbn; constructor; [left; reflexivity | constructor]|..];
      rewrite <- E, string_of_uint_nonnil by (rewrite E; discriminate);
      (eapply Forall_impl; [apply uint_string_digits | cbn; auto]). }
  unfold to_string. destruct (Z.to_int z) as [d|d]; cbn [NilZero.string_of_int].
  - apply Hu.
  - split; [discriminate|]. cbn. constructor; [right; reflexivity | apply Hu].
Qed.

(** ** Ranges of the conversions *)

Lemma read_digits_nonneg (s : string) : forall (acc : Z) (b : bool),
  0 <= acc -> 0 <= (read_digits s acc b).1.1.
Proof.
  induction s as [|c s IH]; intros acc b Hacc; cbn [read_digits]; [exact Hacc|].
  destruct (isdigit c) eqn:Hc; [|exact Hacc].
  apply IH. destruct (isdigit_facts c Hc) as (_ & _ & _ & _ & _ & _ & _ & Hd). lia.
Qed.

Lemma scan_integer_nonneg (s : string) (negative : bool) (v : Z) (rest : string) :
  scan_integer s = Some (negative, v, rest) -> 0 <= v.
Proof.
  unfold scan_integer.
  destruct (match skip_space s with
            | String c s' =>
                if Ascii.eqb c "-" then (true, s')
                else if Ascii.eqb c "+" then (false, s') else (false, skip_space s)
            | EmptyString => (false, skip_space s)
            end) as [neg s0].
  pose proof (read_digits_nonneg s0 0 false ltac:(lia)) as H.
  destruct (read_digits s0 0 false) as [[v0 [|]] r]; [|discriminate].
  intros [= <- <- <-]. exact H.
Qed.

Lemma wrap_u64_range (z : Z) : Mach.is_u64 (Mach.wrap_u64 z).
Proof. unfold Mach.is_u64, Mach.wrap_u64. apply Z.mod_pos_bound. lia. Qed.

Lemma stoul_range (s : string) (v : Z) : stoul s = inr v -> Mach.is_u64 v.
Proof.
  unfold stoul. destruct (scan_integer s) as [[[neg m] rest]|] eqn:E; [|discriminate].
  apply scan_integer_nonneg in E.
  destruct (Z.leb_spec m (2 ^ 64 - 1)); [|discriminate].
  destruct neg; intros [= <-]; [apply wrap_u64_range | unfold Mach.is_u64; lia].
Qed.

Lemma stol_range (s : string) (v : Z) : stol s = inr v -> Mach.is_s64 v.
Proof.
  unfold stol. destruct (scan_integer s) as [[[neg m] rest]|] eqn:E; [|discriminate].
  apply scan_integer_nonneg in E. unfold Mach.is_s64.
  destruct neg.
  - destruct (Z.leb_spec m (2 ^ 63)); [|discriminate]. intros [= <-]. lia.
  - destruct (Z.leb_spec m (2 ^ 63 - 1)); [|discriminate]. intros [= <-]. lia.
Qed.

Lemma atoi_range (s : string) : Mach.is_s32 (atoi s).
Proof.
  unfold atoi. destruct (scan_integer s) as [[[neg m] rest]|];
    [apply wrap_s32_range | unfold Mach.is_s32; lia].
Qed.

Lemma extract_ulong_range (s : string) (v : Z) (rest : string) :
  extract_ulong s = Some (v, rest) -> Mach.is_u64 v.
Proof.
  unfold extract_ulong. destruct (scan_integer s) as [[[neg m] r]|] eqn:E; [|discriminate].
  apply scan_integer_nonneg in E.
  destruct (Z.leb_spec m (2 ^ 64 - 1)); [|discriminate].
  destruct neg; intros [= <- <-]; [apply wrap_u64_range | unfold Mach.is_u64; lia].
Qed.

Lemma parse_stat_fields_range (toks : list string) :
  let f := parse_stat_fields toks in
  Mach.is_u64 (f_utime f) /\ Mach.is_u64 (f_stime f) /\ Mach.is_u64 (f_cutime f) /\
  Mach.is_u64 (f_cstime f) /\ Mach.is_u64 (f_starttime f) /\ Mach.is_u64 (f_vsize f) /\
  Mach.is_s64 (f_rss f).
Proof.
  assert (H0 : Mach.is_u64 0) by (unfold Mach.is_u64; lia).
  assert (H0' : Mach.is_s64 0) by (unfold Mach.is_s64; lia).
  unfold parse_stat_fields, stoull.
  destruct (22 <=? length toks)%nat; [|cbn; tauto].
  destruct (stoul (nth 11 toks "")) as [|v1] eqn:E1; [cbn; tauto|]. apply stoul_range in E1.
  destruct (stoul (nth 12 toks "")) as [|v2] eqn:E2; [cbn; tauto|]. apply stoul_range in E2.
  destruct (stoul (nth 13 toks "")) as [|v3] eqn:E3; [cbn; tauto|]. apply stoul_range in E3.
  destruct (stoul (nth 14 toks "")) as [|v4] eqn:E4; [cbn; tauto|]. apply stoul_range in E4.
  destruct (stoul (nth 19 toks "")) as [|v5] eqn:E5; [cbn; tauto|]. apply stoul_range in E5.
  destruct (stoul (nth 20 toks "")) as [|v6] eqn:E6; [cbn; tauto|]. apply stoul_range in E6.
  destruct (stol (nth 21 toks "")) as [|v7] eqn:E7; [cbn; tauto|]. apply stol_range in E7.
  cbn. tauto.
Qed.

(** ** Lines and searches *)

Lemma until_delim_app (delim : ascii) (a b : string) :
  ~ In delim (list_ascii_of_string a) ->
  until_delim delim (a ++ b) = (a ++ until_delim delim b)%string.
Proof.
  induction a as [|c a IH]; intros Ha; [reflexivity|].
  rewrite !string_app_cons. cbn [until_delim]. cbn in Ha.
  destruct (Ascii.eqb_spec c delim) as [->|_]; [tauto|].
  rewrite IH by tauto. reflexivity.
Qed.

Lemma until_delim_line (delim : ascii) (a tail : string) :
  ~ In delim (list_ascii_of_string a) ->
  until_delim delim (a ++ String delim tail) = a.
Proof.
  intros Ha. rewrite until_delim_app by assumption. cbn [until_delim].
  rewrite Ascii.eqb_refl. apply string_app_nil_r.
Qed.

Lemma until_delim_clean (delim : ascii) (s : string) :
  ~ In delim (list_ascii_of_string (until_delim delim s)).
Proof.
  induction s as [|c s IH]; cbn [until_delim]; [intros []|].
  destruct (Ascii.eqb_spec c delim) as [->|Hc]; [intros []|].
  cbn. intros [H|H]; [congruence | exact (IH H)].
Qed.

Lemma rfind_char_none (c : ascii) (s : string) :
  ~ In c (list_ascii_of_string s) -> rfind_char c s = None.
Proof.
  induction s as [|a s IH]; intros Hs; [reflexivity|].
  cbn in Hs. cbn [rfind_char]. rewrite IH by tauto.
  destruct (Ascii.eqb_spec a c); [tauto | reflexivity].
Qed.

Lemma rfind_char_last (c : ascii) (a b : string) :
  ~ In c (list_ascii_of_string b) ->
  rfind_char c (a ++ String c b) = Some (String.length a).
Proof.
  intros Hb. induction a as [|x a IH].
  - rewrite string_app_nil_l. cbn [rfind_char]. rewrite rfind_char_none by assumption.
    rewrite Ascii.eqb_refl. reflexivity.
  - rewrite string_app_cons. cbn [rfind_char]. rewrite IH. reflexivity.
Qed.

Lemma rfind_char_spec (c : ascii) (s : string) : forall i : nat,
  rfind_char c s = Some i ->
  exists a b, s = (a ++ String c b)%string /\ String.length a = i /\
              ~ In c (list_ascii_of_string b).
Proof.
  induction s as [|x s IH]; intros i; cbn [rfind_char]; [discriminate|].
  destruct (rfind_char c s) as [j|] eqn:E.
  - intros [= <-]. destruct (IH j eq_refl) as (a & b & -> & <- & Hb).
    exists (String x a), b. repeat split; assumption.
  - destruct (Ascii.eqb_spec x c) as [->|]; [|discriminate]. intros [= <-].
    exists EmptyString, s. repeat split.
    clear IH. induction s as [|y s IH]; [intros []|].
    cbn [rfind_char] in E. destruct (rfind_char c s); [discriminate|].
    destruct (Ascii.eqb_spec y c); [discriminate|].
    cbn. intros [H|H]; [congruence | exact (IH eq_refl H)].
Qed.

Lemma find_char_some (c : ascii) (s : string) :
  In c (list_ascii_of_string s) <-> exists i, find_char c s = Some i.
Proof.
  induction s as [|a s IH]; cbn [find_char list_ascii_of_string In].
  - split; [intros [] | intros [i H]; discriminate].
  - destruct (Ascii.eqb_spec a c) as [->|Hac].
    + split; [eauto | tauto].
    + rewrite IH. split.
      * intros [H|[i ->]]; [contradiction | eauto].
      * intros [i H]. right. destruct (find_char c s); [eauto | discriminate].
Qed.

Lemma string_drop_app (a b : string) (n : nat) :
  string_drop (String.length a + n) (a ++ b) = string_drop n b.
Proof.
  induction a as [|x a IH]; [reflexivity|].
  rewrite string_app_cons. cbn [String.length Nat.add string_drop]. exact IH.
Qed.

Lemma substr_from_app (a b : string) (n : nat) :
  (n <= String.length b)%nat ->
  substr_from (a ++ b) (String.length a + n) = Some (string_drop n b).
Proof.
  intros Hn. unfold substr_from. rewrite string_length_app.
  destruct (Nat.leb_spec (String.length a + n) (String.length a + String.length b)); [|lia].
  rewrite string_drop_app. reflexivity.
Qed.

Lemma concat_chars (sep : string) (P : ascii -> Prop) (toks : list string) :
  Forall P (list_ascii_of_string sep) ->
  Forall (fun t => Forall P (list_ascii_of_string t)) toks ->
  Forall P (list_ascii_of_string (String.concat sep toks)).
Proof.
  intros Hsep. induction 1 as [|t toks Ht Htoks IH]; [constructor|].
  destruct toks as [|u toks]; [exact Ht|].
  change (String.concat sep (t :: u :: toks))
    with (t ++ (sep ++ String.concat sep (u :: toks)))%string.
  rewrite !chars_app. rewrite !Forall_app. auto.
Qed.

(** ** One entry of [/proc] *)

Lemma to_string_head (k : Z) :
  0 <= k -> exists c s, to_string k = String c s /\ isdigit c = true.
Proof.
  intros Hk. unfold to_string. destruct k as [|p|p]; [| |lia]; cbn [Z.to_int NilZero.string_of_int].
  - exists "0"%char, EmptyString. split; reflexivity.
  - pose proof (DecimalPos.Unsigned.to_uint_nonnil p) as Hn.
    rewrite (string_of_uint_nonnil _ Hn). apply uint_string_head, Hn.
Qed.

Lemma stat_tokens_clean (toks : list string) :
  Forall stat_token toks ->
  Forall (fun t => t <> EmptyString /\ ~ In " "%char (list_ascii_of_string t)) toks.
Proof.
  intros H. eapply Forall_impl; [exact H|]. intros t [Hne Hc]. split; [exact Hne|].
  intros Hin. rewrite List.Forall_forall in Hc. destruct (Hc _ Hin) as [Hb _]. congruence.
Qed.

Lemma stat_tokens_chars (toks : list string) :
  Forall stat_token toks ->
  Forall (fun c => c <> ")"%char /\ c <> "010"%char)
         (list_ascii_of_string (String.concat " " toks)).
Proof.
  intros H. apply concat_chars.
  - repeat constructor; discriminate.
  - eapply Forall_impl; [exact H|]. intros t [_ Hc].
    eapply Forall_impl; [exact Hc|]. cbn. tauto.
Qed.

(** The line of a stat file that the entry loop works on. *)
Lemma stat_line_shape (pre : string) (toks : list string) (tail : string) :
  ~ In "010"%char (list_ascii_of_string pre) -> Forall stat_token toks ->
  let line := (pre ++ String ")" (String " " (String.concat " " toks)))%string in
  until_delim "010" (pre ++ ") " ++ String.concat " " toks ++ String "010" tail) = line /\
  rfind_char ")" line = Some (String.length pre) /\
  substr_from line (String.length pre + 2) = Some (String.concat " " toks).
Proof.
  intros Hpre Htoks line. pose proof (stat_tokens_chars toks Htoks) as Hc.
  rewrite List.Forall_forall in Hc. repeat split.
  - change (pre ++ ") " ++ String.concat " " toks ++ String "010" tail)%string
      with (pre ++ (String ")" (String " " (String.concat " " toks ++ String "010" tail))))%string.
    replace (pre ++ String ")" (String " " (String.concat " " toks ++ String "010" tail)))%string
      with (line ++ String "010" tail)%string.
    + apply until_delim_line. unfold line. rewrite chars_app, in_app_iff. cbn.
      intros [H|[H|[H|H]]]; [tauto | discriminate | discriminate |].
      destruct (Hc _ H) as [_ Hn]. congruence.
    + unfold line. rewrite string_app_assoc. reflexivity.
  - unfold line. apply rfind_char_last. cbn. intros [H|H]; [discriminate|].
    destruct (Hc _ H) as [Hn _]. congruence.
  - unfold line. apply (substr_from_app pre (String ")" (String " " (String.concat " " toks))) 2).
    cbn. lia.
Qed.

(** X5. An entry is looked up by the number [atoi] makes of its name,
    not by its name: what follows the digits of the name is ignored, and
    the stat file read is the one of the number. *)
Theorem read_proc_by_number (fs : gmap string string) (k : Z) (junk : string) :
  0 <= k < 2 ^ 31 -> stops_digits junk ->
  read_proc fs (to_string k ++ junk) = read_proc fs (to_string k).
Proof.
  intros Hk Hjunk.
  assert (Hatoi : atoi (to_string k ++ junk) = atoi (to_string k)).
  { rewrite atoi_to_string by lia. unfold atoi.
    rewrite scan_integer_to_string by exact Hjunk.
    replace (k <? 0) with false by (symmetry; apply Z.ltb_ge; lia).
    rewrite Z.abs_eq, Z.min_l by lia.
    unfold Mach.wrap_s32. rewrite Z.mod_small by lia. lia. }
  destruct (to_string_head k ltac:(lia)) as (c & s & E & Hc).
  unfold read_proc. rewrite Hatoi. rewrite E, string_app_cons. reflexivity.
Qed.

Lemma read_proc_by_number_witness :
  read_proc sample_fs "1234.bak" = read_proc sample_fs "1234".
Proof.
  apply (read_proc_by_number sample_fs 1234 ".bak"); [lia | reflexivity].
Defined.

(** X6. On a stat line as the kernel writes it, whatever the command
    name between the first opening and the last closing parenthesis holds
    (blanks and parentheses included), the fields are those that follow
    the last closing parenthesis. *)
Theorem read_proc_stat_line
    (fs : gmap string string) (k : Z) (pre tail : string) (toks : list string) :
  0 <= k < 2 ^ 31 ->
  fs !! ("/proc/" ++ to_string k ++ "/stat")%string
    = Some (pre ++ ") " ++ String.concat " " toks ++ String "010" tail)%string ->
  In "("%char (list_ascii_of_string pre) ->
  ~ In "010"%char (list_ascii_of_string pre) ->
  Forall stat_token toks ->
  read_proc fs (to_string k) =
  Sampled k
    (mkProcInfo k EmptyString (read_cmdline fs k)
       (f_utime (parse_stat_fields toks)) (f_stime (parse_stat_fields toks))
       (f_cutime (parse_stat_fields toks)) (f_cstime (parse_stat_fields toks))
       (Mach.wrap_u64 (f_utime (parse_stat_fields toks) + f_stime (parse_stat_fields toks)
                       + f_cutime (parse_stat_fields toks) + f_cstime (parse_stat_fields toks)))
       (f_vsize (parse_stat_fields toks)) (f_rss (parse_stat_fields toks))
       Double.zero Double.zero (f_starttime (parse_stat_fields toks))).
Proof.
  intros Hk Hfs Hopen Hnl Htoks.
  destruct (stat_line_shape pre toks tail Hnl Htoks) as (Hline & Hrfind & Hsub).
  destruct (to_string_head k ltac:(lia)) as (c & s & E & Hc).
  unfold read_proc. rewrite E at 1. rewrite Hc. cbn [negb].
  rewrite atoi_to_string by lia. unfold read_file. rewrite Hfs. cbv zeta.
  rewrite Hline, Hrfind.
  assert (Hfind : exists i, find_char "(" (pre ++ String ")" (String " " (String.concat " " toks)))
                            = Some i).
  { apply find_char_some. rewrite chars_app, in_app_iff. left. exact Hopen. }
  destruct Hfind as [i ->].
  replace (String.length pre + 2)%nat with (String.length pre + 2)%nat by reflexivity.
  rewrite Hsub. rewrite split_concat_tokens by (apply stat_tokens_clean, Htoks).
  reflexivity.
Qed.

Lemma read_proc_stat_line_witness : read_proc sample_fs "1234" = Sampled 1234 sample_proc.
Proof.
  apply (read_proc_stat_line sample_fs 1234 sample_pre EmptyString sample_toks).
  - lia.
  - reflexivity.
  - cbn. tauto.
  - cbn. intros H. repeat (destruct H as [H|H]; [discriminate H|]). exact H.
  - repeat constructor; discriminate.
Defined.

(** X7. Decimal fields are read back as the numbers they render. *)
Theorem parse_stat_fields_decimal (toks : list string) (u s cu cs st vs r : Z) :
  (22 <= length toks)%nat ->
  nth 11 toks EmptyString = to_string u -> nth 12 toks EmptyString = to_string s ->
  nth 13 toks EmptyString = to_string cu -> nth 14 toks EmptyString = to_string cs ->
  nth 19 toks EmptyString = to_string st -> nth 20 toks EmptyString = to_string vs ->
  nth 21 toks EmptyString = to_string r ->
  Mach.is_u64 u -> Mach.is_u64 s -> Mach.is_u64 cu -> Mach.is_u64 cs ->
  Mach.is_u64 st -> Mach.is_u64 vs -> Mach.is_s64 r ->
  parse_stat_fields toks = mkStatFields u s cu cs st vs r.
Proof.
  intros Hlen E1 E2 E3 E4 E5 E6 E7 H1 H2 H3 H4 H5 H6 H7.
  unfold parse_stat_fields, stoull.
  destruct (Nat.leb_spec 22 (length toks)); [|lia].
  rewrite E1, E2, E3, E4, E5, E6, E7.
  rewrite !stoul_to_string by assumption. rewrite stol_to_string by assumption.
  reflexivity.
Qed.

Lemma parse_stat_fields_decimal_witness :
  parse_stat_fields sample_toks = mkStatFields 17 5 2 1 9999 1000000 250.
Proof.
  apply parse_stat_fields_decimal;
    first [reflexivity | unfold Mach.is_u64, Mach.is_s64; lia | cbn; lia].
Defined.

(** X8. The uncaught exception: [full.substr(rp+2)] throws exactly for
    an entry with a digit first whose stat line has an opening parenthesis
    and ends with a closing one. *)
Theorem read_proc_throws (fs : gmap string string) (d_name : string) :
  read_proc fs d_name = Thrown <->
  exists (c : ascii) (rest text body : string),
    d_name = String c rest /\ isdigit c = true /\
    fs !! ("/proc/" ++ to_string (atoi d_name) ++ "/stat")%string = Some text /\
    until_delim "010" text = (body ++ ")")%string /\
    In "("%char (list_ascii_of_string body).
Proof.
  unfold read_proc, read_file. split.
  - destruct d_name as [|c rest]; [discriminate|].
    destruct (isdigit c) eqn:Hc; [|discriminate]. cbn [negb].
    destruct (fs !! _) as [text|] eqn:Hfs; [|discriminate]. cbv zeta.
    destruct (find_char "(" (until_delim "010" text)) as [i|] eqn:Hfind; [|discriminate].
    destruct (rfind_char ")" (until_delim "010" text)) as [rp|] eqn:Hr; [|discriminate].
    destruct (substr_from _ _) eqn:Hsub; [discriminate|]. intros _.
    destruct (rfind_char_spec _ _ _ Hr) as (a & b & Eline & Hlen & Hb).
    unfold substr_from in Hsub. rewrite Eline, string_length_app in Hsub.
    cbn [String.length] in Hsub.
    destruct (Nat.leb_spec (rp + 2) (String.length a + S (String.length b)));
      [discriminate|].
    destruct b as [|y b]; [|cbn [String.length] in *; lia].
    exists c, rest, text, a. repeat split; try assumption.
    assert (Hin : In "("%char (list_ascii_of_string (until_delim "010" text))).
    { apply find_char_some. eauto. }
    rewrite Eline, chars_app, in_app_iff in Hin. cbn in Hin.
    destruct Hin as [Hi|[Hi|[]]]; [exact Hi | discriminate Hi].
  - intros (c & rest & text & body & -> & Hc & Hfs & Hline & Hopen).
    rewrite Hc. cbn [negb]. rewrite Hfs. cbv zeta. rewrite Hline.
    rewrite rfind_char_last by (cbn; tauto).
    assert (Hfind : exists i, find_char "(" (body ++ ")") = Some i).
    { apply find_char_some. rewrite chars_app, in_app_iff. left. exact Hopen. }
    destruct Hfind as [i ->].
    unfold substr_from. rewrite string_length_app. cbn [String.length].
    destruct (Nat.leb_spec (String.length body + 2) (String.length body + 1)); [lia|].
    reflexivity.
Qed.

(** ** The directory loop *)

Lemma read_proc_sampled (fs : gmap string string) (d_name : string) (k : Z) (p : ProcInfo) :
  read_proc fs d_name = Sampled k p -> k = atoi d_name /\ sampled_record k p.
Proof.
  unfold read_proc.
  destruct (negb _); [discriminate|].
  destruct (read_file fs _) as [text|]; [|discriminate]. cbv zeta.
  destruct (find_char _ _); [|discriminate].
  destruct (rfind_char _ _) as [rp|]; [|discriminate].
  destruct (substr_from _ _) as [after|]; [|discriminate].
  intros [= <- <-]. split; [reflexivity|].
  pose proof (parse_stat_fields_range (split after " ")) as Hf. cbv zeta in Hf.
  destruct Hf as (H1 & H2 & H3 & H4 & H5 & H6 & H7).
  unfold sampled_record, wf_proc. cbn.
  repeat first [assumption | apply atoi_range | apply wrap_u64_range | reflexivity | split].
Qed.

Lemma read_procs_loop_none (fs : gmap string string) (names : list string) :
  forall procs : gmap Z ProcInfo,
    read_procs_loop fs names procs = None <->
    Exists (fun d_name => read_proc fs d_name = Thrown) names.
Proof.
  induction names as [|n names IH]; intros procs; cbn [read_procs_loop].
  - split; [discriminate | intros H; inversion H].
  - rewrite Exists_cons. destruct (read_proc fs n) as [| |k p] eqn:E.
    + rewrite IH. split; [tauto | intros [Hn|Hn]; [discriminate | exact Hn]].
    + tauto.
    + rewrite IH. split; [tauto | intros [Hn|Hn]; [discriminate | exact Hn]].
Qed.

(** X9. The scan is lost as a whole as soon as one entry throws. *)
Theorem read_all_procs_throws (fs : gmap string string) (proc_dir : option (list string)) :
  read_all_procs fs proc_dir = None <->
  exists names, proc_dir = Some names /\
                Exists (fun d_name => read_proc fs d_name = Thrown) names.
Proof.
  destruct proc_dir as [names|]; cbn [read_all_procs].
  - rewrite read_procs_loop_none. split; [eauto | intros (? & [= <-] & H); exact H].
  - split; [discriminate | intros (? & [=] & _)].
Qed.

Lemma read_procs_loop_lookup (fs : gmap string string) (names : list string) :
  forall (procs res : gmap Z ProcInfo) (k : Z) (p : ProcInfo),
    read_procs_loop fs names procs = Some res ->
    (res !! k = Some p <->
     (exists l1 n l2, names = l1 ++ n :: l2 /\ read_proc fs n = Sampled k p /\
                      Forall (fun n' => forall p', read_proc fs n' <> Sampled k p') l2) \/
     (procs !! k = Some p /\
      Forall (fun n' => forall p', read_proc fs n' <> Sampled k p') names)).
Proof.
  induction names as [|n names IH]; intros procs res k p; cbn [read_procs_loop].
  - intros [= <-]. split.
    + intros Hp. right. split; [exact Hp | constructor].
    + intros [(l1 & n & l2 & E & _)|[Hp _]]; [destruct l1; discriminate | exact Hp].
  - destruct (read_proc fs n) as [| |k' p'] eqn:E; [|discriminate|]; intros Hres;
      rewrite (IH _ _ k p Hres); clear IH.
    + split.
      * intros [(l1 & m & l2 & -> & Hm & Hl2)|[Hp Hall]].
        -- left. exists (n :: l1), m, l2. auto.
        -- right. split; [exact Hp|]. constructor; [|exact Hall]. intros q Hq. congruence.
      * intros [(l1 & m & l2 & El & Hm & Hl2)|[Hp Hall]].
        -- left. destruct l1 as [|x l1]; cbn in El; injection El as -> ->; [congruence|].
           exists l1, m, l2. auto.
        -- right. split; [exact Hp|]. inversion Hall; assumption.
    + split.
      * intros [(l1 & m & l2 & -> & Hm & Hl2)|[Hp Hall]].
        -- left. exists (n :: l1), m, l2. auto.
        -- destruct (decide (k' = k)) as [->|Hne].
           ++ rewrite lookup_insert_eq in Hp. injection Hp as ->.
              left. exists [], n, names. auto.
           ++ rewrite lookup_insert_ne in Hp by exact Hne.
              right. split; [exact Hp|]. constructor; [|exact Hall].
              intros q Hq. congruence.
      * intros [(l1 & m & l2 & El & Hm & Hl2)|[Hp Hall]].
        -- destruct l1 as [|x l1]; cbn in El; injection El as -> ->.
           ++ right. rewrite Hm in E. injection E as <- <-.
              rewrite lookup_insert_eq. auto.
           ++ left. exists l1, m, l2. auto.
        -- right. inversion Hall as [|? ? Hn Hrest]; subst.
           assert (Hne : k' <> k) by (intros ->; exact (Hn p' E)).
           rewrite lookup_insert_ne by exact Hne. auto.
Qed.

(** X10. After a scan that returns, the record filed under a pid is the
    one sampled from the last entry of the directory that yields this pid,
    and a pid that no entry yields has none. *)
Theorem read_all_procs_lookup
    (fs : gmap string string) (names : list string) (procs : gmap Z ProcInfo)
    (k : Z) (p : ProcInfo) :
  read_all_procs fs (Some names) = Some procs ->
  (procs !! k = Some p <->
   exists l1 n l2, names = l1 ++ n :: l2 /\ read_proc fs n = Sampled k p /\
                   Forall (fun n' => forall p', read_proc fs n' <> Sampled k p') l2).
Proof.
  cbn [read_all_procs]. intros Hres.
  rewrite (read_procs_loop_lookup fs names _ _ k p Hres). split.
  - intros [H|[H _]]; [exact H | rewrite lookup_empty in H; discriminate].
  - auto.
Qed.

Lemma read_all_procs_lookup_witness :
  exists l1 n l2,
    sample_dir = l1 ++ n :: l2 /\ read_proc sample_fs n = Sampled 1234 sample_proc /\
    Forall (fun n' => forall p', read_proc sample_fs n' <> Sampled 1234 p') l2.
Proof.
  assert (H : read_all_procs sample_fs (Some sample_dir) = Some {[ 1234 := sample_proc ]})
    by (vm_compute; reflexivity).
  apply (proj1 (read_all_procs_lookup sample_fs sample_dir _ 1234 sample_proc H)).
  reflexivity.
Defined.

Lemma read_procs_loop_inv (fs : gmap string string) (names : list string) :
  forall procs res : gmap Z ProcInfo,
    map_Forall sampled_record procs ->
    read_procs_loop fs names procs = Some res ->
    map_Forall sampled_record res.
Proof.
  induction names as [|n names IH]; intros procs res Hprocs; cbn [read_procs_loop].
  - intros [= <-]. exact Hprocs.
  - destruct (read_proc fs n) as [| |k p] eqn:E; [apply IH, Hprocs | discriminate |].
    apply IH. apply map_Forall_insert_2; [|exact Hprocs].
    apply (read_proc_sampled fs n k p E).
Qed.

(** X11. Every record of a scan is filed under its own pid, holds values
    of the field types with [total_time] the wrapped sum of the four tick
    counters, and has an empty user and zero percentages. *)
Theorem read_all_procs_sampled_record
    (fs : gmap string string) (proc_dir : option (list string))
    (procs : gmap Z ProcInfo) (k : Z) (p : ProcInfo) :
  read_all_procs fs proc_dir = Some procs -> procs !! k = Some p -> sampled_record k p.
Proof.
  intros Hres Hp. revert k p Hp. change (map_Forall sampled_record procs).
  destruct proc_dir as [names|]; cbn [read_all_procs] in Hres.
  - apply (read_procs_loop_inv fs names ∅ procs); [apply map_Forall_empty | exact Hres].
  - injection Hres as <-. apply map_Forall_empty.
Qed.

Lemma read_all_procs_sampled_record_witness : sampled_record 1234 sample_proc.
Proof.
  apply (read_all_procs_sampled_record sample_fs (Some sample_dir) {[ 1234 := sample_proc ]}).
  - vm_compute. reflexivity.
  - reflexivity.
Defined.

(** ** The command line *)

Lemma chars_round_trip_without (c d : ascii) (s : string) :
  ~ In c (list_ascii_of_string s) ->
  string_of_list_ascii
    (map (fun ch => if Ascii.eqb ch c then d else ch) (list_ascii_of_string s)) = s.
Proof.
  induction s as [|a s IH]; intros Hs; [reflexivity|].
  cbn in Hs. cbn [list_ascii_of_string map string_of_list_ascii].
  destruct (Ascii.eqb_spec a c) as [->|_]; [tauto|]. rewrite IH by tauto. reflexivity.
Qed.

(** X12. The command shown is the first argument alone: [std::getline]
    stops at the first NUL, so the arguments after it are dropped and the
    loop that turns NULs into blanks finds none. *)
Theorem read_cmdline_first_argument
    (fs : gmap string string) (k : Z) (arg0 rest : string) :
  fs !! ("/proc/" ++ to_string k ++ "/cmdline")%string = Some (arg0 ++ String "000" rest)%string ->
  arg0 <> EmptyString -> ~ In "000"%char (list_ascii_of_string arg0) ->
  read_cmdline fs k = arg0.
Proof.
  intros Hfs Hne Hnul. unfold read_cmdline, read_file. rewrite Hfs.
  rewrite until_delim_line by exact Hnul. cbv zeta.
  destruct (String.eqb_spec arg0 ""); [contradiction|].
  apply chars_round_trip_without, Hnul.
Qed.

Lemma read_cmdline_first_argument_witness : read_cmdline sample_fs 1234 = "/usr/bin/my"%string.
Proof.
  apply (read_cmdline_first_argument sample_fs 1234 "/usr/bin/my"
           ("--flag" ++ String "000" "")).
  - reflexivity.
  - discriminate.
  - cbn. intros H. repeat (destruct H as [H|H]; [discriminate H|]). exact H.
Defined.

(** X13. Without a first argument (no [cmdline] file, an empty one, or
    one that starts with a NUL) the command shown is the first line of
    [comm]. *)
Theorem read_cmdline_falls_back_to_comm
    (fs : gmap string string) (k : Z) (name tail : string) :
  (fs !! ("/proc/" ++ to_string k ++ "/cmdline")%string = None \/
   fs !! ("/proc/" ++ to_string k ++ "/cmdline")%string = Some EmptyString \/
   exists rest, fs !! ("/proc/" ++ to_string k ++ "/cmdline")%string = Some (String "000" rest)) ->
  fs !! ("/proc/" ++ to_string k ++ "/comm")%string = Some (name ++ String "010" tail)%string ->
  ~ In "010"%char (list_ascii_of_string name) ->
  read_cmdline fs k = name.
Proof.
  intros Hcmd Hcomm Hname. unfold read_cmdline, read_file.
  assert (E : match fs !! ("/proc/" ++ to_string k ++ "/cmdline")%string with
              | Some text => until_delim "000" text
              | None => EmptyString
              end = EmptyString).
  { destruct Hcmd as [->|[->|[rest ->]]]; reflexivity. }
  rewrite E. cbv zeta. cbn [String.eqb]. rewrite Hcomm. apply until_delim_line, Hname.
Qed.

Lemma read_cmdline_falls_back_to_comm_witness :
  read_cmdline {[ "/proc/2/comm"%string := ("kthreadd" ++ String "010" "")%string ]} 2
  = "kthreadd"%string.
Proof.
  apply (read_cmdline_falls_back_to_comm _ 2 "kthreadd" "").
  - left. reflexivity.
  - reflexivity.
  - cbn. intros H. repeat (destruct H as [H|H]; [discriminate H|]). exact H.
Defined.

(** ** Stream extraction *)

Lemma skip_space_blank (sp s : string) :
  Forall (fun c => isspace c = true) (list_ascii_of_string sp) ->
  skip_space (sp ++ s) = skip_space s.
Proof.
  induction sp as [|c sp IH]; intros H; [reflexivity|].
  cbn in H. inversion H as [|? ? Hc Hsp]; subst.
  rewrite string_app_cons. cbn [skip_space]. rewrite Hc. apply IH, Hsp.
Qed.

Lemma blanks_space (sp : string) :
  blanks sp -> Forall (fun c => isspace c = true) (list_ascii_of_string sp).
Proof. intros H. eapply Forall_impl; [exact H|]. intros c ->. reflexivity. Qed.

Lemma scan_integer_skip (sp s : string) :
  Forall (fun c => isspace c = true) (list_ascii_of_string sp) ->
  scan_integer (sp ++ s) = scan_integer s.
Proof. intros H. unfold scan_integer. rewrite skip_space_blank by exact H. reflexivity. Qed.

Lemma extract_ulong_skip (sp s : string) :
  Forall (fun c => isspace c = true) (list_ascii_of_string sp) ->
  extract_ulong (sp ++ s) = extract_ulong s.
Proof. intros H. unfold extract_ulong. rewrite scan_integer_skip by exact H. reflexivity. Qed.

Lemma word_of_word (w s : string) :
  Forall (fun c => isspace c = false) (list_ascii_of_string w) ->
  match s with String c _ => isspace c = true | EmptyString => True end ->
  word_of (w ++ s) = (w, s).
Proof.
  intros Hw Hs. induction w as [|a w IH].
  - rewrite string_app_nil_l. destruct s as [|c s]; [reflexivity|].
    cbn [word_of]. rewrite Hs. reflexivity.
  - cbn in Hw. inversion Hw as [|? ? Ha Hw']; subst.
    rewrite string_app_cons. cbn [word_of]. rewrite Ha, (IH Hw'). reflexivity.
Qed.

Lemma extract_word_word (w s : string) :
  word w ->
  match s with String c _ => isspace c = true | EmptyString => True end ->
  extract_word (w ++ s) = Some (w, s).
Proof.
  intros [Hne Hw] Hs. unfold extract_word.
  assert (E : skip_space (w ++ s) = (w ++ s)%string).
  { destruct w as [|a w]; [contradiction|]. cbn in Hw. inversion Hw as [|? ? Ha _]; subst.
    rewrite string_app_cons. cbn [skip_space]. rewrite Ha. reflexivity. }
  rewrite E, word_of_word by assumption.
  destruct w; [contradiction | reflexivity].
Qed.

Lemma extract_ulong_no_number (c : ascii) (s : string) :
  isspace c = false -> isdigit c = false -> c <> "-"%char -> c <> "+"%char ->
  extract_ulong (String c s) = None.
Proof.
  intros Hs Hd Hm Hp. unfold extract_ulong, scan_integer. cbn [skip_space]. rewrite Hs.
  destruct (Ascii.eqb_spec c "-"); [contradiction|].
  destruct (Ascii.eqb_spec c "+"); [contradiction|].
  cbn [read_digits]. rewrite Hd. reflexivity.
Qed.

(** ** The lengths of what is left in a stream *)

Lemma skip_space_length (s : string) : (String.length (skip_space s) <= String.length s)%nat.
Proof.
  induction s as [|c s IH]; cbn [skip_space]; [lia|].
  destruct (isspace c); cbn [String.length]; lia.
Qed.

Lemma read_digits_length (s : string) : forall (acc : Z) (seen : bool),
  let '(_, seen', rest) := read_digits s acc seen in
  (String.length rest <= String.length s)%nat /\
  (seen = false -> seen' = true -> String.length rest < String.length s)%nat.
Proof.
  induction s as [|c s IH]; intros acc seen; cbn [read_digits].
  - split; [lia | congruence].
  - destruct (isdigit c).
    + specialize (IH (10 * acc + digit_value c) true).
      destruct (read_digits s _ true) as [[v b] rest]. cbn [String.length]. lia.
    + split; [lia | congruence].
Qed.

Lemma scan_integer_shorter (s : string) (negative : bool) (v : Z) (rest : string) :
  scan_integer s = Some (negative, v, rest) -> (String.length rest < String.length s)%nat.
Proof.
  unfold scan_integer. pose proof (skip_space_length s) as Hs.
  assert (H : forall s0, (String.length s0 <= String.length (skip_space s))%nat ->
            match read_digits s0 0 false with
            | (v0, true, rest0) => Some (negative, v0, rest0)
            | _ => None
            end = Some (negative, v, rest) ->
            (String.length rest < String.length s)%nat).
  { intros s0 Hs0. pose proof (read_digits_length s0 0 false) as Hr.
    destruct (read_digits s0 0 false) as [[v0 [|]] rest0]; [|discriminate].
    intros [= <- <-]. destruct Hr as [_ Hr]. specialize (Hr eq_refl eq_refl). lia. }
  destruct (skip_space s) as [|c s'] eqn:E.
  - intros Hr. apply (H EmptyString); [lia|].
    destruct (read_digits "" 0 false) as [[v0 [|]] rest0]; [|discriminate].
    injection Hr as <- <- <-. reflexivity.
  - destruct (Ascii.eqb c "-"); [|destruct (Ascii.eqb c "+")]; intros Hr.
    + apply (H s'); [cbn [String.length]; lia|].
      destruct (read_digits s' 0 false) as [[v0 [|]] rest0]; [|discriminate].
      injection Hr as <- <- <-. reflexivity.
    + apply (H s'); [cbn [String.length]; lia|].
      destruct (read_digits s' 0 false) as [[v0 [|]] rest0]; [|discriminate].
      injection Hr as <- <- <-. reflexivity.
    + apply (H (String c s')); [lia|].
      destruct (read_digits (String c s') 0 false) as [[v0 [|]] rest0]; [|discriminate].
      injection Hr as <- <- <-. reflexivity.
Qed.

Lemma extract_ulong_shorter (s : string) (v : Z) (rest : string) :
  extract_ulong s = Some (v, rest) -> (String.length rest < String.length s)%nat.
Proof.
  unfold extract_ulong. destruct (scan_integer s) as [[[neg m] r]|] eqn:E; [|discriminate].
  destruct (m <=? 2 ^ 64 - 1); [|discriminate]. intros [= _ <-].
  exact (scan_integer_shorter _ _ _ _ E).
Qed.

Lemma word_of_length (s : string) :
  (String.length (word_of s).2 <= String.length s)%nat.
Proof.
  induction s as [|c s IH]; cbn [word_of]; [cbn; lia|].
  destruct (isspace c); [cbn; lia|].
  destruct (word_of s) as [w rest]. cbn [snd String.length] in *. lia.
Qed.

Lemma extract_word_shorter (s w rest : string) :
  extract_word s = Some (w, rest) -> (String.length rest <= String.length s)%nat.
Proof.
  unfold extract_word. pose proof (word_of_length (skip_space s)) as H.
  pose proof (skip_space_length s) as Hs.
  destruct (word_of (skip_space s)) as [[|c w'] r]; [discriminate|].
  intros [= <- <-]. cbn [snd] in H. lia.
Qed.

Lemma ulong_run_enough (fuel : nat) : forall s : string,
  (String.length s <= fuel)%nat -> ulong_run fuel s = ulong_run (String.length s) s.
Proof.
  induction (lt_wf fuel) as [fuel _ IH]. intros s Hs.
  destruct fuel as [|fuel].
  - replace (String.length s) with 0%nat by lia. reflexivity.
  - destruct (String.length s) as [|n] eqn:El.
    + destruct s; [reflexivity | discriminate].
    + cbn [ulong_run]. destruct (extract_ulong s) as [[v rest]|] eqn:E; [|reflexivity].
      apply extract_ulong_shorter in E. f_equal.
      rewrite (IH fuel) by lia. rewrite (IH n) by lia. reflexivity.
Qed.

Lemma meminfo_run_enough (fuel : nat) : forall s : string,
  (String.length s <= fuel)%nat -> meminfo_run fuel s = meminfo_run (String.length s) s.
Proof.
  induction (lt_wf fuel) as [fuel _ IH]. intros s Hs.
  destruct fuel as [|fuel].
  - replace (String.length s) with 0%nat by lia. reflexivity.
  - destruct (String.length s) as [|n] eqn:El.
    + destruct s; [reflexivity | discriminate].
    + cbn [meminfo_run]. destruct (extract_word s) as [[key rest]|] eqn:Ew; [|reflexivity].
      apply extract_word_shorter in Ew.
      destruct (extract_ulong rest) as [[v rest']|] eqn:E; [|reflexivity].
      apply extract_ulong_shorter in E. f_equal.
      rewrite (IH fuel) by lia. rewrite (IH n) by lia. reflexivity.
Qed.

(** X14. The two extraction loops end before the text is used up: every
    round consumes a character, so rounds beyond the length of the text
    read nothing more. *)
Theorem extraction_loops_end (fuel : nat) (s : string) :
  (String.length s <= fuel)%nat ->
  ulong_run fuel s = ulong_run (String.length s) s /\
  meminfo_run fuel s = meminfo_pairs s.
Proof.
  intros H. split; [apply ulong_run_enough, H | apply meminfo_run_enough, H].
Qed.

Lemma extraction_loops_end_witness :
  ulong_run 100 " 12 7 x 9" = [12; 7] /\
  meminfo_run 100 "a: 1 b: 2 c d: 4" = [("a:"%string, 1); ("b:"%string, 2)].
Proof.
  destruct (extraction_loops_end 100 " 12 7 x 9" ltac:(cbn; lia)) as [-> _].
  destruct (extraction_loops_end 100 "a: 1 b: 2 c d: 4" ltac:(cbn; lia)) as [_ ->].
  split; reflexivity.
Defined.

(** ** [/proc/stat] *)

Lemma fold_wrap_sum (vals : list Z) : forall acc : Z,
  fold_left (fun total val => Mach.wrap_u64 (total + val)) vals (Mach.wrap_u64 acc)
  = Mach.wrap_u64 (acc + sum_values vals).
Proof.
  induction vals as [|v vals IH]; intros acc; cbn [fold_left sum_values fold_right].
  - rewrite Z.add_0_r. reflexivity.
  - replace (Mach.wrap_u64 (Mach.wrap_u64 acc + v)) with (Mach.wrap_u64 (acc + v)).
    + rewrite IH. f_equal. fold (sum_values vals). lia.
    + unfold Mach.wrap_u64. rewrite Zplus_mod_idemp_l. reflexivity.
Qed.

Lemma read_total_jiffies_sum_aux (vals : list Z) :
  read_total_jiffies (Some vals) = Mach.wrap_u64 (sum_values vals).
Proof.
  cbn [read_total_jiffies]. change 0 with (Mach.wrap_u64 0) at 1.
  rewrite fold_wrap_sum. reflexivity.
Qed.

Lemma meminfo_keeps_total_jiffies (meminfo : list (string * Z)) : forall s : SystemSnapshot,
  total_jiffies (fold_left meminfo_step meminfo s) = total_jiffies s /\
  num_cpus (fold_left meminfo_step meminfo s) = num_cpus s.
Proof.
  induction meminfo as [|[key val] meminfo IH]; intros s; cbn [fold_left]; [tauto|].
  destruct (IH (meminfo_step s (key, val))) as [-> ->]. unfold meminfo_step.
  destruct (String.eqb key "MemTotal:"); [split; reflexivity|].
  destruct (String.eqb key "MemFree:"); [split; reflexivity|].
  destruct (String.eqb key "MemAvailable:"); split; reflexivity.
Qed.

(** X15. The tick total of a snapshot is the sum of the numbers of the
    line modulo [2 ^ 64], whatever the other two files hold. *)
Theorem read_total_jiffies_sum
    (vals : list Z) (meminfo : list (string * Z)) (cpuinfo : list string) :
  total_jiffies (read_system_snapshot (Some vals) meminfo cpuinfo)
  = Mach.wrap_u64 (sum_values vals).
Proof.
  unfold read_system_snapshot.
  cbn [total_jiffies mem_total_kb mem_free_kb mem_available_kb num_cpus].
  destruct (meminfo_keeps_total_jiffies meminfo
              (mkSystemSnapshot (read_total_jiffies (Some vals)) 0 0 0 1)) as [-> _].
  apply read_total_jiffies_sum_aux.
Qed.

Lemma cpu_fields_stop (vals : list Z) :
  match cpu_fields vals with String c _ => isspace c = true | EmptyString => True end.
Proof. destruct vals; [exact I | reflexivity]. Qed.

Lemma cpu_fields_stops_digits (vals : list Z) : stops_digits (cpu_fields vals).
Proof. destruct vals; [exact I | reflexivity]. Qed.

Lemma ulong_run_cpu_fields (vals : list Z) : forall fuel : nat,
  Forall Mach.is_u64 vals -> (length vals <= fuel)%nat ->
  ulong_run fuel (cpu_fields vals) = vals.
Proof.
  induction vals as [|v vals IH]; intros fuel Hvals Hfuel.
  - destruct fuel; reflexivity.
  - inversion Hvals as [|? ? Hv Hrest]; subst.
    destruct fuel as [|fuel]; [cbn in Hfuel; lia|].
    cbn [ulong_run cpu_fields].
    rewrite (extract_ulong_skip " " (to_string v ++ cpu_fields vals))
      by (repeat constructor).
    rewrite extract_ulong_to_string by (exact Hv || apply cpu_fields_stops_digits).
    rewrite IH by (assumption || (cbn in Hfuel; lia)). reflexivity.
Qed.

Lemma cpu_fields_length (vals : list Z) : (length vals <= String.length (cpu_fields vals))%nat.
Proof.
  induction vals as [|v vals IH]; [cbn; lia|].
  cbn [cpu_fields length]. rewrite !string_length_app. cbn [String.length]. lia.
Qed.

Lemma cpu_fields_no_newline (vals : list Z) :
  ~ In "010"%char (list_ascii_of_string (cpu_fields vals)).
Proof.
  induction vals as [|v vals IH]; [intros []|].
  cbn [cpu_fields]. rewrite !chars_app, !in_app_iff. cbn.
  intros [[H|[]]|[H|H]]; [discriminate H | | exact (IH H)].
  destruct (to_string_chars v) as [_ Hc]. rewrite List.Forall_forall in Hc.
  destruct (Hc _ H) as [Hd|Hd]; discriminate Hd.
Qed.

Lemma ulong_run_skip (fuel : nat) (sp s : string) :
  Forall (fun c => isspace c = true) (list_ascii_of_string sp) ->
  ulong_run fuel (sp ++ s) = ulong_run fuel s.
Proof.
  intros H. destruct fuel; [reflexivity|]. cbn [ulong_run].
  rewrite extract_ulong_skip by exact H. reflexivity.
Qed.

Lemma stat_values_cpu_line (pad : string) (vals : list Z) :
  blanks pad -> Forall Mach.is_u64 vals ->
  stat_values ("cpu" ++ pad ++ cpu_fields vals) = vals.
Proof.
  intros Hpad Hvals. unfold stat_values.
  assert (Hstop : match (pad ++ cpu_fields vals)%string with
                  | String c _ => isspace c = true
                  | EmptyString => True
                  end).
  { destruct pad as [|c pad].
    - rewrite string_app_nil_l. apply cpu_fields_stop.
    - rewrite string_app_cons. inversion Hpad; subst. reflexivity. }
  rewrite (extract_word_word "cpu" (pad ++ cpu_fields vals));
    [|split; [discriminate | repeat constructor] | exact Hstop].
  rewrite ulong_run_skip by (apply blanks_space, Hpad).
  apply ulong_run_cpu_fields; [exact Hvals|].
  rewrite string_length_app. pose proof (cpu_fields_length vals). lia.
Qed.

(** X16. The tick total of a snapshot, from the text of [/proc/stat]: the
    numbers of the first line after [cpu] are read back and summed modulo
    [2 ^ 64]; the lines after the first are not read. *)
Theorem total_jiffies_of_stat_file
    (fs : gmap string string) (pad : string) (vals : list Z) (tail : string) :
  fs !! "/proc/stat"%string = Some ("cpu" ++ pad ++ cpu_fields vals ++ String "010" tail)%string ->
  blanks pad -> Forall Mach.is_u64 vals ->
  total_jiffies (read_system_snapshot_from fs) = Mach.wrap_u64 (sum_values vals).
Proof.
  intros Hfs Hpad Hvals.
  assert (Hstat : match read_file fs "/proc/stat" with
                  | None | Some EmptyString => None
                  | Some text => Some (stat_values (until_delim "010" text))
                  end = Some vals).
  { unfold read_file. rewrite Hfs.
    change ("cpu" ++ pad ++ cpu_fields vals ++ String "010" tail)%string
      with (String "c" ("pu" ++ pad ++ cpu_fields vals ++ String "010" tail))%string.
    cbv iota.
    change (String "c" ("pu" ++ pad ++ cpu_fields vals ++ String "010" tail))%string
      with ("cpu" ++ (pad ++ (cpu_fields vals ++ String "010" tail)))%string.
    rewrite <- !string_app_assoc. rewrite until_delim_line.
    - rewrite string_app_assoc. rewrite stat_values_cpu_line by assumption. reflexivity.
    - rewrite !chars_app, !in_app_iff. cbn.
      intros [[H|H]|H].
      + repeat (destruct H as [H|H]; [discriminate H|]). exact H.
      + unfold blanks in Hpad. rewrite List.Forall_forall in Hpad.
        specialize (Hpad _ H). discriminate Hpad.
      + exact (cpu_fields_no_newline vals H). }
  unfold read_system_snapshot_from. rewrite Hstat. unfold read_system_snapshot.
  cbn [total_jiffies mem_total_kb mem_free_kb mem_available_kb num_cpus].
  match goal with |- total_jiffies (fold_left meminfo_step ?m ?s) = _ =>
    destruct (meminfo_keeps_total_jiffies m s) as [-> _] end.
  apply read_total_jiffies_sum_aux.
Qed.

Lemma total_jiffies_of_stat_file_witness :
  total_jiffies (read_system_snapshot_from sample_fs)
  = Mach.wrap_u64 (sum_values [100; 20; 30; 4000; 5; 0; 6; 0; 0; 0]).
Proof.
  apply (total_jiffies_of_stat_file sample_fs "" _ "cpu0 1 2 3").
  - reflexivity.
  - constructor.
  - repeat constructor; unfold Mach.is_u64; lia.
Defined.

(** ** [/proc/meminfo] *)

Lemma isspace_not_digit (c : ascii) : isspace c = true -> isdigit c = false.
Proof.
  destruct (isdigit c) eqn:E; [|reflexivity].
  destruct (isdigit_facts c E) as [-> _]. discriminate.
Qed.

Lemma white_head (sp s : string) :
  white sp ->
  match (sp ++ s)%string with String c _ => isspace c = true | EmptyString => False end.
Proof.
  intros [Hne Hsp]. destruct sp as [|c sp]; [contradiction|].
  rewrite string_app_cons. inversion Hsp; subst. assumption.
Qed.

Lemma meminfo_pairs_first_line
    (key sp1 : string) (v : Z) (sp2 unit sp3 : string) (c : ascii) (rest : string) :
  word key -> white sp1 -> Mach.is_u64 v -> white sp2 -> word unit -> white sp3 ->
  isspace c = false -> isdigit c = false -> c <> "-"%char -> c <> "+"%char ->
  meminfo_pairs (key ++ sp1 ++ to_string v ++ sp2 ++ unit ++ sp3 ++ String c rest)
  = [(key, v)].
Proof.
  intros Hkey Hsp1 Hv Hsp2 Hunit Hsp3 Hc1 Hc2 Hc3 Hc4. unfold meminfo_pairs.
  set (text := (key ++ sp1 ++ to_string v ++ sp2 ++ unit ++ sp3 ++ String c rest)%string).
  rewrite <- (meminfo_run_enough (S (S (String.length text))) text) by lia.
  unfold text. cbn [meminfo_run].
  rewrite extract_word_word;
    [|exact Hkey | pose proof (white_head sp1 (to_string v ++ sp2 ++ unit ++ sp3 ++ String c rest)
                                Hsp1) as H; destruct (sp1 ++ _)%string; [exact I | exact H]].
  rewrite extract_ulong_skip by apply Hsp1.
  rewrite extract_ulong_to_string;
    [|exact Hv | pose proof (white_head sp2 (unit ++ sp3 ++ String c rest) Hsp2) as H;
                 unfold stops_digits; destruct (sp2 ++ _)%string;
                 [exact I | apply isspace_not_digit, H]].
  unfold extract_word at 1. rewrite skip_space_blank by apply Hsp2.
  fold (extract_word (unit ++ sp3 ++ String c rest)).
  rewrite extract_word_word;
    [|exact Hunit | pose proof (white_head sp3 (String c rest) Hsp3) as H;
                    destruct (sp3 ++ _)%string; [exact I | exact H]].
  rewrite extract_ulong_skip by apply Hsp3.
  rewrite extract_ulong_no_number by assumption. reflexivity.
Qed.

(** X17. Of a [/proc/meminfo] in the layout of the kernel, a key, a number
    and a unit on each line, the loop reads the first pair and no more:
    the unit is taken as the next key, the extraction of its number fails
    on the key of the second line and ends the loop.  So the total is set
    and the free and the available memory stay zero. *)
Theorem meminfo_only_first_pair
    (fs : gmap string string) (sp1 : string) (v : Z) (sp2 unit sp3 : string)
    (c : ascii) (rest : string) :
  fs !! "/proc/meminfo"%string
    = Some ("MemTotal:" ++ sp1 ++ to_string v ++ sp2 ++ unit ++ sp3 ++ String c rest)%string ->
  white sp1 -> Mach.is_u64 v -> white sp2 -> word unit -> white sp3 ->
  isspace c = false -> isdigit c = false -> c <> "-"%char -> c <> "+"%char ->
  mem_total_kb (read_system_snapshot_from fs) = v /\
  mem_free_kb (read_system_snapshot_from fs) = 0 /\
  mem_available_kb (read_system_snapshot_from fs) = 0.
Proof.
  intros Hfs Hsp1 Hv Hsp2 Hunit Hsp3 Hc1 Hc2 Hc3 Hc4.
  unfold read_system_snapshot_from, read_file. rewrite Hfs.
  rewrite (meminfo_pairs_first_line "MemTotal:" sp1 v sp2 unit sp3 c rest);
    try assumption; [|split; [discriminate | repeat constructor]].
  unfold read_system_snapshot. cbn. repeat split; reflexivity.
Qed.

Lemma meminfo_only_first_pair_witness :
  mem_total_kb (read_system_snapshot_from sample_fs) = 16307484 /\
  mem_free_kb (read_system_snapshot_from sample_fs) = 0 /\
  mem_available_kb (read_system_snapshot_from sample_fs) = 0.
Proof.
  apply (meminfo_only_first_pair sample_fs " " 16307484 " " "kB" (String "010" "") "M"
           ("emFree:  123 kB" ++ String "010" ""));
    first [reflexivity | discriminate | unfold Mach.is_u64; lia
          | split; [discriminate | repeat constructor]].
Defined.

Lemma meminfo_run_range (fuel : nat) : forall s : string,
  Forall (fun kv => Mach.is_u64 kv.2) (meminfo_run fuel s).
Proof.
  induction fuel as [|fuel IH]; intros s; cbn [meminfo_run]; [constructor|].
  destruct (extract_word s) as [[key rest]|]; [|constructor].
  destruct (extract_ulong rest) as [[v rest']|] eqn:E; [|constructor].
  constructor; [exact (extract_ulong_range _ _ _ E) | apply IH].
Qed.

(** X18. Whatever the three files hold, or if they are missing, the
    snapshot read from them holds values of its field types, with at
    least one processor. *)
Theorem read_system_snapshot_from_wf (fs : gmap string string) :
  wf_snapshot (read_system_snapshot_from fs).
Proof.
  unfold read_system_snapshot_from. apply read_system_snapshot_wf.
  destruct (read_file fs "/proc/meminfo"); [apply meminfo_run_range | constructor].
Qed.

(** ** [/proc/cpuinfo] *)

Lemma getlines_loop_line (t rest : string) : forall line : string,
  ~ In "010"%char (list_ascii_of_string t) ->
  getlines_loop (t ++ rest) line = getlines_loop rest (line ++ t).
Proof.
  induction t as [|c t IH]; intros line Ht.
  - rewrite string_app_nil_r. reflexivity.
  - rewrite string_app_cons. cbn [getlines_loop]. cbn in Ht.
    destruct (Ascii.eqb_spec c "010") as [->|_]; [tauto|].
    rewrite IH by tauto. rewrite string_app_assoc. reflexivity.
Qed.

(** X19. The [getline] loop over [/proc/cpuinfo] sees the lines of the
    file as they were written, empty ones included. *)
Theorem getlines_unlines (lines : list string) :
  Forall (fun line => ~ In "010"%char (list_ascii_of_string line)) lines ->
  getlines (unlines lines) = lines.
Proof.
  unfold getlines. induction 1 as [|line lines Hline Hlines IH]; [reflexivity|].
  cbn [unlines fold_right]. fold (unlines lines).
  rewrite getlines_loop_line by exact Hline. cbn [getlines_loop].
  rewrite string_app_nil_l, IH. reflexivity.
Qed.

Lemma getlines_unlines_witness :
  getlines (unlines ["processor : 0"; ""; "processor : 1"]%string)
  = ["processor : 0"; ""; "processor : 1"]%string.
Proof.
  apply getlines_unlines.
  repeat constructor; cbn; intros H; repeat (destruct H as [H|H]; [discriminate H|]); exact H.
Defined.

Lemma getlines_loop_length (s : string) : forall line : string,
  (length (getlines_loop s line) <= String.length s + 1)%nat.
Proof.
  induction s as [|c s IH]; intros line; cbn [getlines_loop String.length].
  - destruct (String.eqb line ""); cbn; lia.
  - destruct (Ascii.eqb c "010"); [cbn [length]; specialize (IH EmptyString); lia|].
    specialize (IH (line ++ String c "")%string). lia.
Qed.

Lemma count_processors_fold (cpuinfo : list string) : forall acc : Z,
  0 <= acc -> acc + Z.of_nat (length cpuinfo) < 2 ^ 31 ->
  fold_left (fun cpus line =>
               if String.prefix "processor" line then Mach.wrap_s32 (cpus + 1) else cpus)
            cpuinfo acc
  = acc + Z.of_nat (length (List.filter (String.prefix "processor") cpuinfo)).
Proof.
  induction cpuinfo as [|line rest IH]; intros acc Hacc Hlen;
    cbn [fold_left List.filter length]; [lia|].
  cbn [length] in Hlen.
  destruct (String.prefix "processor" line).
  - replace (Mach.wrap_s32 (acc + 1)) with (acc + 1)
      by (unfold Mach.wrap_s32; rewrite Z.mod_small by lia; lia).
    rewrite IH by lia. cbn [length]. lia.
  - rewrite IH by lia. reflexivity.
Qed.

(** X20. The processor count of a snapshot is the number of lines of
    [/proc/cpuinfo] that start with [processor], and one if there is
    none. *)
Theorem num_cpus_counts_processor_lines (fs : gmap string string) (text : string) :
  fs !! "/proc/cpuinfo"%string = Some text ->
  Z.of_nat (String.length text) < 2 ^ 31 - 1 ->
  num_cpus (read_system_snapshot_from fs)
  = Z.max 1 (Z.of_nat (length (List.filter (String.prefix "processor") (getlines text)))).
Proof.
  intros Hfs Hlen. unfold read_system_snapshot_from, read_file. rewrite Hfs.
  unfold read_system_snapshot. cbn [num_cpus]. unfold count_processors.
  pose proof (getlines_loop_length text EmptyString) as Hl. fold (getlines text) in Hl.
  rewrite count_processors_fold by lia. reflexivity.
Qed.

Lemma num_cpus_counts_processor_lines_witness :
  num_cpus (read_system_snapshot_from sample_fs) = 2.
Proof.
  assert (H : sample_fs !! "/proc/cpuinfo"%string
              = Some ("processor	: 0" ++ String "010" ("model name : x" ++ String "010"
                        (String "010" ("processor	: 1" ++ String "010" ""))))%string)
    by reflexivity.
  rewrite (num_cpus_counts_processor_lines sample_fs _ H); [reflexivity | vm_compute; reflexivity].
Defined.

(** * Part V: ranking, drawing and the loop *)

(** ** The order of doubles *)

Lemma ltb_asym (x y : spec_float) : Double.ltb x y = true -> Double.ltb y x = false.
Proof.
  unfold Double.ltb, SFltb, SFcompare.
  destruct x as [[]|[]| |[] mx ex], y as [[]|[]| |[] my ey]; try discriminate; try reflexivity.
  all: change (PosDef.Pos.compare_cont Eq) with Pos.compare.
  all: rewrite (Z.compare_antisym ey ex), (Pos.compare_antisym my mx).
  all: destruct (Z.compare ey ex), (Pos.compare my mx); cbn; congruence.
Qed.

Lemma ltb_negative_transitivity (x y z : spec_float) :
  y <> S754_nan -> Double.ltb x z = true -> Double.ltb x y = true \/ Double.ltb y z = true.
Proof.
  unfold Double.ltb, SFltb, SFcompare. intros Hy.
  destruct x as [[]|[]| |[] mx ex], y as [[]|[]| |[] my ey], z as [[]|[]| |[] mz ez];
    try discriminate; try contradiction; try (left; reflexivity); try (right; reflexivity).
  all: change (PosDef.Pos.compare_cont Eq) with Pos.compare.
  all: destruct (Z.compare_spec ex ez); try discriminate;
       destruct (Z.compare_spec ex ey); destruct (Z.compare_spec ey ez);
       try lia; try (left; reflexivity); try (right; reflexivity); subst.
  all: destruct (Pos.compare_spec mx mz); try discriminate;
       destruct (Pos.compare_spec mx my); destruct (Pos.compare_spec my mz);
       try lia; cbn; auto.
Qed.

(** ** Ranking *)

Lemma sort_insert_perm {A : Type} (comp : A -> A -> bool) (x : A) (l : list A) :
  Permutation (sort_insert comp x l) (x :: l).
Proof.
  induction l as [|y l IH]; cbn [sort_insert]; [reflexivity|].
  destruct (comp y x); [|reflexivity].
  rewrite IH. apply perm_swap.
Qed.

Lemma std_sort_perm {A : Type} (comp : A -> A -> bool) (l : list A) :
  Permutation (std_sort comp l) l.
Proof.
  unfold std_sort. induction l as [|x l IH]; cbn [fold_right]; [reflexivity|].
  rewrite sort_insert_perm, IH. reflexivity.
Qed.

(** X21. The ranked list holds every record of the accounted map once,
    whichever percentage it is ranked by. *)
Theorem ranked_permutation (b : bool) (m : gmap Z ProcInfo) :
  Permutation (ranked b m) (map_to_list m).*2 /\ length (ranked b m) = size m.
Proof.
  assert (H : Permutation (ranked b m) (map_to_list m).*2).
  { transitivity (in_key_order m).*2.
    - unfold ranked. destruct b; apply std_sort_perm.
    - apply fmap_Permutation, std_sort_perm. }
  split; [exact H|].
  rewrite (Permutation_length H), length_fmap, length_map_to_list. reflexivity.
Qed.

Lemma sort_insert_descending {A : Type} (key : A -> spec_float) (x : A) (l : list A) :
  Forall (fun a => key a <> S754_nan) l ->
  StronglySorted (fun a b => Double.ltb (key a) (key b) = false) l ->
  StronglySorted (fun a b => Double.ltb (key a) (key b) = false)
                 (sort_insert (fun a b => Double.ltb (key b) (key a)) x l).
Proof.
  intros Hnan Hl. induction Hl as [|y l Hl IH Hy]; cbn [sort_insert].
  - repeat constructor.
  - inversion Hnan as [|? ? Hyn Hln]; subst.
    rewrite List.Forall_forall in Hy.
    destruct (Double.ltb (key x) (key y)) eqn:E.
    + constructor; [apply IH, Hln|].
      apply List.Forall_forall. intros z Hz.
      apply (Permutation_in _ (sort_insert_perm _ x l)) in Hz.
      destruct Hz as [<-|Hz]; [apply ltb_asym, E | apply Hy, Hz].
    + constructor; [constructor; [assumption | apply List.Forall_forall, Hy]|].
      constructor; [exact E|].
      apply List.Forall_forall. intros z Hz. specialize (Hy z Hz). cbv beta in Hy.
      destruct (Double.ltb (key x) (key z)) eqn:Ez; [|reflexivity].
      destruct (ltb_negative_transitivity _ (key y) _ Hyn Ez); congruence.
Qed.

Lemma std_sort_descending {A : Type} (key : A -> spec_float) (l : list A) :
  Forall (fun a => key a <> S754_nan) l ->
  StronglySorted (fun a b => Double.ltb (key a) (key b) = false)
                 (std_sort (fun a b => Double.ltb (key b) (key a)) l).
Proof.
  unfold std_sort. induction 1 as [|x l Hx Hl IH]; cbn [fold_right]; [constructor|].
  apply sort_insert_descending; [|exact IH].
  apply List.Forall_forall. intros z Hz.
  apply (Permutation_in _ (std_sort_perm _ l)) in Hz.
  rewrite List.Forall_forall in Hl. apply Hl, Hz.
Qed.

(** X22. A ranking without NaN is descending: no record comes before one
    with a greater percentage, by CPU or by memory as the flag says. *)
Theorem ranked_descending (b : bool) (m : gmap Z ProcInfo) :
  (forall k p, m !! k = Some p -> rank_key b p <> S754_nan) ->
  StronglySorted (not_below b) (ranked b m).
Proof.
  intros Hnan.
  assert (Hl : Forall (fun p => rank_key b p <> S754_nan) (in_key_order m).*2).
  { apply List.Forall_forall. intros p Hp. apply list_elem_of_In in Hp.
    apply list_elem_of_fmap in Hp. destruct Hp as ([k q] & -> & Hq).
    apply elem_of_std_sort, elem_of_map_to_list in Hq. exact (Hnan k q Hq). }
  unfold ranked, not_below, rank_key in *. destruct b.
  - exact (std_sort_descending cpu_percent _ Hl).
  - exact (std_sort_descending mem_percent _ Hl).
Qed.

Lemma ranked_descending_witness :
  StronglySorted (not_below true)
    (ranked true
       (compute_cpu_mem_percent 4 {[ 7 := proc_with 7 80 5; 9 := proc_with 9 20 5 ]}
                                {[ 7 := proc_with 7 50 5; 9 := proc_with 9 20 5 ]}
                                (snap_with 1100 1000 2) (snap_with 1000 1000 2))).
Proof.
  apply ranked_descending. intros k p Hp. rewrite lookup_compute in Hp.
  destruct (decide (k = 7)) as [->|H7]; [|destruct (decide (k = 9)) as [->|H9]].
  - vm_compute in Hp. injection Hp as <-. discriminate.
  - vm_compute in Hp. injection Hp as <-. discriminate.
  - rewrite lookup_insert_ne, lookup_singleton_ne in Hp by congruence. discriminate.
Defined.

(** ** What the accountant reads *)

Lemma account_entry_reads (psk : Z) (prev prev' : gmap Z ProcInfo)
    (cs cs' : SystemSnapshot) (td k : Z) (p q : ProcInfo) :
  sampled_fields p = sampled_fields q ->
  total_time <$> prev !! k = total_time <$> prev' !! k ->
  mem_total_kb cs = mem_total_kb cs' -> num_cpus cs = num_cpus cs' ->
  account_entry psk prev cs td k p = account_entry psk prev' cs' td k q.
Proof.
  intros Hpq Hprev Hmem Hcpus. destruct p, q. unfold sampled_fields in Hpq. cbn in Hpq.
  injection Hpq as -> -> -> -> -> -> -> -> -> -> ->.
  unfold account_entry. rewrite Hmem, Hcpus.
  destruct (prev !! k) as [it|], (prev' !! k) as [it'|]; cbn in Hprev; try discriminate;
    [injection Hprev as ->|]; reflexivity.
Qed.

(** X23. The accountant reads the sampled fields of the current records,
    the tick totals of the previous records, the tick totals of the two
    snapshots and the memory total and processor count of the current one,
    and nothing else: not the percentages left in its inputs by an earlier
    call, not the free or available memory. *)
Theorem accountant_reads (psk : Z) (procs procs' prev prev' : gmap Z ProcInfo)
    (cs cs' ps ps' : SystemSnapshot) :
  (forall k, sampled_fields <$> procs !! k = sampled_fields <$> procs' !! k) ->
  (forall k, total_time <$> prev !! k = total_time <$> prev' !! k) ->
  total_jiffies cs = total_jiffies cs' -> total_jiffies ps = total_jiffies ps' ->
  mem_total_kb cs = mem_total_kb cs' -> num_cpus cs = num_cpus cs' ->
  compute_cpu_mem_percent psk procs prev cs ps
  = compute_cpu_mem_percent psk procs' prev' cs' ps'.
Proof.
  intros Hprocs Hprev Hcj Hpj Hmem Hcpus. apply map_eq. intros k.
  rewrite !lookup_compute. specialize (Hprocs k).
  assert (Htd : total_diff cs ps = total_diff cs' ps')
    by (unfold total_diff; rewrite Hcj, Hpj; reflexivity).
  rewrite Htd.
  destruct (procs !! k) as [p|], (procs' !! k) as [q|]; cbn in Hprocs; try discriminate;
    [|reflexivity].
  cbn. f_equal. apply account_entry_reads; [congruence | apply Hprev | assumption..].
Qed.

Lemma accountant_reads_witness :
  compute_cpu_mem_percent 4
    {[ 7 := set_cpu_percent Double.hundred (proc_with 7 80 5) ]}
    {[ 7 := set_mem_percent Double.hundred (proc_with 7 50 9) ]}
    (mkSystemSnapshot 1100 1000 7 8 2) (snap_with 1000 0 1)
  = compute_cpu_mem_percent 4 {[ 7 := proc_with 7 80 5 ]} {[ 7 := proc_with 7 50 5 ]}
      (snap_with 1100 1000 2) (snap_with 1000 1000 2).
Proof.
  apply accountant_reads; try reflexivity.
  - intros k. destruct (decide (k = 7)) as [->|Hk];
      [reflexivity | rewrite !lookup_singleton_ne by congruence; reflexivity].
  - intros k. destruct (decide (k = 7)) as [->|Hk];
      [reflexivity | rewrite !lookup_singleton_ne by congruence; reflexivity].
Defined.

(** X24. Sampler and accountant together: whatever [/proc] holds at the
    two scans, if they return, every CPU percentage computed from them is
    a finite double that is not negative. *)
Theorem sampled_cpu_percent_nonneg (psk : Z) (fs fs' : gmap string string)
    (proc_dir proc_dir' : option (list string)) (procs prev : gmap Z ProcInfo)
    (k : Z) (p : ProcInfo) :
  read_all_procs fs proc_dir = Some procs ->
  read_all_procs fs' proc_dir' = Some prev ->
  compute_cpu_mem_percent psk procs prev
    (read_system_snapshot_from fs) (read_system_snapshot_from fs') !! k = Some p ->
  is_finite (cpu_percent p) = true /\ (0 <= B2R (cpu_percent p))%R.
Proof.
  intros Hprocs Hprev.
  assert (Hrec : forall g d m, read_all_procs g d = Some m -> map_Forall sampled_record m).
  { intros g [names|] m; cbn [read_all_procs];
      [apply read_procs_loop_inv, map_Forall_empty | intros [= <-]; apply map_Forall_empty]. }
  assert (Hwf : forall g, wf_snapshot (read_system_snapshot_from g)).
  { intros g. unfold read_system_snapshot_from. apply read_system_snapshot_wf.
    destruct (read_file g "/proc/meminfo"); [apply meminfo_run_range | constructor]. }
  rewrite lookup_compute.
  destruct (procs !! k) as [p0|] eqn:Hp0; [|discriminate]. intros [= <-].
  rewrite account_entry_cpu.
  assert (Hzero : is_finite Double.zero = true /\ (0 <= B2R Double.zero)%R)
    by (split; [reflexivity | cbn; lra]).
  destruct (prev !! k) as [it|] eqn:Hit; [|exact Hzero].
  destruct (Z.ltb_spec 0 (total_diff (read_system_snapshot_from fs)
                                     (read_system_snapshot_from fs'))) as [Htd|_];
    [|exact Hzero].
  apply nonneg_is_finite. unfold cpu_formula.
  destruct (Hrec fs proc_dir procs Hprocs k p0 Hp0) as (_ & (_ & _ & _ & _ & _ & Hp & _) & _).
  destruct (Hrec fs' proc_dir' prev Hprev k it Hit) as (_ & (_ & _ & _ & _ & _ & Hi & _) & _).
  destruct (Hwf fs) as (Hc & _ & _ & _ & Hn).
  destruct (Hwf fs') as (Ho & _).
  rewrite total_diff_max in *. unfold Mach.is_u64 in *.
  apply cpu_percent_bounds; lia.
Qed.

Lemma sampled_cpu_percent_nonneg_witness :
  exists p,
    compute_cpu_mem_percent 4 {[ 1234 := sample_proc ]} {[ 1234 := sample_proc_before ]}
      (read_system_snapshot_from sample_fs) (read_system_snapshot_from sample_fs_before)
      !! 1234 = Some p /\
    cpu_percent p = Double.of_Z 100 /\
    is_finite (cpu_percent p) = true /\ (0 <= B2R (cpu_percent p))%R.
Proof.
  eexists. split; [vm_compute; reflexivity|]. split; [reflexivity|].
  apply (sampled_cpu_percent_nonneg 4 sample_fs sample_fs_before
           (Some sample_dir) (Some sample_dir)
           {[ 1234 := sample_proc ]} {[ 1234 := sample_proc_before ]} 1234).
  - vm_compute. reflexivity.
  - vm_compute. reflexivity.
  - vm_compute. reflexivity.
Defined.

(** ** Drawing *)

(** X25. The rows drawn are [plist[start]], [plist[start + 1]], ... as
    long as the list and the window last: [min(height, size - start)] of
    them, and none when [start] is at or past the end of the list. *)
Theorem draw_processes_rows (plist : list ProcInfo) (start height : Z) (row : nat) :
  0 <= start ->
  length (draw_processes plist start height)
    = Z.to_nat (Z.min height (Z.of_nat (length plist) - start)) /\
  draw_processes plist start height !! row
    = if Z.of_nat row <? height then plist !! Z.to_nat (start + Z.of_nat row) else None.
Proof.
  intros Hstart. unfold draw_processes. split.
  - rewrite length_take, length_drop. lia.
  - destruct (Z.ltb_spec (Z.of_nat row) height).
    + rewrite lookup_take_lt by lia. rewrite lookup_drop. f_equal. lia.
    + apply lookup_take_ge. lia.
Qed.

Lemma draw_processes_rows_witness :
  length (draw_processes [proc_with 1 1 1; proc_with 2 1 1; proc_with 3 1 1] 1 10)
    = Z.to_nat (Z.min 10 (Z.of_nat 3 - 1)) /\
  draw_processes [proc_with 1 1 1; proc_with 2 1 1; proc_with 3 1 1] 1 10 !! 1%nat
    = Some (proc_with 3 1 1).
Proof.
  apply (draw_processes_rows [proc_with 1 1 1; proc_with 2 1 1; proc_with 3 1 1] 1 10 1).
  lia.
Defined.

(** ** The loop *)

Lemma handle_key_none (rows ch : Z) (count : nat) (b : bool) (off : Z) :
  handle_key rows ch count b off = None <-> quit_key ch = true.
Proof.
  unfold handle_key, quit_key, ERR, key_q, key_Q.
  destruct (Z.eqb_spec ch (-1)) as [->|_]; cbn [negb]; [split; discriminate|].
  destruct ((ch =? 113) || (ch =? 81)); [tauto|].
  split; [|discriminate].
  destruct ((ch =? key_s) || (ch =? key_S)); [discriminate|].
  destruct ((ch =? KEY_DOWN) && _); [discriminate|].
  destruct ((ch =? KEY_UP) && _); discriminate.
Qed.

Lemma cycle_continues (psk rows : Z) (st : LoopState) (obs : Observation) :
  quit_key (obs_key obs) = false ->
  exists frame st', cycle psk rows st obs = (frame, Some st') /\
                    refresh_interval st' = refresh_interval st.
Proof.
  intros Hq. unfold cycle.
  destruct (handle_key rows (obs_key obs) _ (sort_by_cpu st) (offset st)) as [[b off]|] eqn:E.
  - eauto.
  - apply handle_key_none in E. congruence.
Qed.

Lemma cycle_quits (psk rows : Z) (st : LoopState) (obs : Observation) :
  quit_key (obs_key obs) = true -> exists frame, cycle psk rows st obs = (frame, None).
Proof.
  intros Hq. unfold cycle.
  destruct (handle_key rows (obs_key obs) _ (sort_by_cpu st) (offset st)) as [[b off]|] eqn:E.
  - assert (Hn : handle_key rows (obs_key obs)
                   (length (ranked (sort_by_cpu st)
                      (compute_cpu_mem_percent psk (obs_procs obs) (prev_procs st)
                         (read_system_snapshot (obs_stat obs) (obs_meminfo obs) (obs_cpuinfo obs))
                         (prev_snap st))))
                   (sort_by_cpu st) (offset st) = None) by (apply handle_key_none, Hq).
    congruence.
  - eauto.
Qed.

(** X26. As long as no [q] arrives the loop draws one frame per sample
    and goes on, and the refresh interval is the one it started with: no
    key changes it, the advertised [r] included. *)
Theorem main_loop_runs (psk rows : Z) (obss : list Observation) : forall st : LoopState,
  Forall (fun obs => quit_key (obs_key obs) = false) obss ->
  exists frames st',
    main_loop psk rows st obss = (frames, Some st') /\
    length frames = length obss /\ refresh_interval st' = refresh_interval st.
Proof.
  induction obss as [|obs obss IH]; intros st Hq; cbn [main_loop].
  - exists [], st. auto.
  - inversion Hq as [|? ? Ho Hrest]; subst.
    destruct (cycle_continues psk rows st obs Ho) as (frame & st1 & -> & Hr).
    destruct (IH st1 Hrest) as (frames & st' & -> & Hlen & Hr').
    exists (frame :: frames), st'. cbn [length]. repeat split; congruence.
Qed.

Lemma main_loop_runs_witness :
  exists frames st',
    main 4 13 (observe 1000 12 ERR) [observe 1100 12 KEY_DOWN; observe 1200 12 114]
      = (frames, Some st') /\
    length frames = 2%nat /\ refresh_interval st' = 2.
Proof.
  apply (main_loop_runs 4 13 [observe 1100 12 KEY_DOWN; observe 1200 12 114]
           (main_init (observe 1000 12 ERR))).
  repeat constructor.
Defined.

(** X27. The first [q] or [Q] ends the loop after the frame of its
    iteration is drawn: what would have been sampled afterwards plays no
    part. *)
Theorem main_loop_quits (psk rows : Z) (before : list Observation) (obs : Observation)
    (after : list Observation) : forall st : LoopState,
  Forall (fun o => quit_key (obs_key o) = false) before ->
  quit_key (obs_key obs) = true ->
  exists frames,
    main_loop psk rows st (before ++ obs :: after) = (frames, None) /\
    length frames = S (length before) /\
    main_loop psk rows st (before ++ [obs]) = (frames, None).
Proof.
  induction before as [|o before IH]; intros st Hb Hq; cbn [main_loop app].
  - destruct (cycle_quits psk rows st obs Hq) as [frame ->]. exists [frame]. auto.
  - inversion Hb as [|? ? Ho Hrest]; subst.
    destruct (cycle_continues psk rows st o Ho) as (frame & st1 & -> & _).
    destruct (IH st1 Hrest Hq) as (frames & -> & Hlen & ->).
    exists (frame :: frames). cbn [length]. auto.
Qed.

Lemma main_loop_quits_witness :
  exists frames,
    main_loop 4 13 (main_init (observe 1000 12 ERR))
      ([observe 1100 12 KEY_DOWN] ++ observe 1200 12 key_q :: [observe 1300 2 ERR])
      = (frames, None) /\
    length frames = 2%nat /\
    main_loop 4 13 (main_init (observe 1000 12 ERR))
      ([observe 1100 12 KEY_DOWN] ++ [observe 1200 12 key_q]) = (frames, None).
Proof.
  apply (main_loop_quits 4 13 [observe 1100 12 KEY_DOWN] (observe 1200 12 key_q)
           [observe 1300 2 ERR]).
  - repeat constructor.
  - reflexivity.
Defined.

(** X28. A key that is none of [q], [Q], [s], [S], down and up is
    dropped: the iteration draws and hands on what it would with no key
    pending.  The two keys that the header line advertises besides,
    [k] and [r], are among them. *)
Theorem unhandled_key_ignored (psk rows : Z) (st : LoopState) (obs : Observation) :
  obs_key obs <> key_q -> obs_key obs <> key_Q ->
  obs_key obs <> key_s -> obs_key obs <> key_S ->
  obs_key obs <> KEY_DOWN -> obs_key obs <> KEY_UP ->
  cycle psk rows st obs
  = cycle psk rows st
      (mkObservation (obs_stat obs) (obs_meminfo obs) (obs_cpuinfo obs) (obs_procs obs) ERR).
Proof.
  intros H1 H2 H3 H4 H5 H6. unfold cycle. cbn [obs_stat obs_meminfo obs_cpuinfo obs_procs obs_key].
  assert (E : forall count b off,
            handle_key rows (obs_key obs) count b off = handle_key rows ERR count b off).
  { intros count b off. unfold handle_key.
    destruct (Z.eqb_spec (obs_key obs) key_q); [contradiction|].
    destruct (Z.eqb_spec (obs_key obs) key_Q); [contradiction|].
    destruct (Z.eqb_spec (obs_key obs) key_s); [contradiction|].
    destruct (Z.eqb_spec (obs_key obs) key_S); [contradiction|].
    destruct (Z.eqb_spec (obs_key obs) KEY_DOWN); [contradiction|].
    destruct (Z.eqb_spec (obs_key obs) KEY_UP); [contradiction|].
    destruct (negb (obs_key obs =? ERR)); reflexivity. }
  rewrite E. reflexivity.
Qed.

Lemma unhandled_key_ignored_witness :
  cycle 4 13 (main_init (observe 1000 12 ERR)) (observe 1100 12 107)
  = cycle 4 13 (main_init (observe 1000 12 ERR)) (observe 1100 12 ERR).
Proof.
  apply (unhandled_key_ignored 4 13 (main_init (observe 1000 12 ERR)) (observe 1100 12 107));
    discriminate.
Defined.
